(** * BSPLib: the superstep engine of [bsp/bspClass.h]

    A shallow embedding of class [BSP] (members, the public operations and
    the private [Process...Requests] helpers), followed by the properties
    of the engine that the specification states.

    Conventions.
    - [size_t] and [StackLocation] values are integers in [0, 2^64);
      additions the source performs on them wrap ([add64]).
    - Pointers are integer addresses into one flat byte memory ([heap]),
      shared by all threads of the process.
    - [ProcId()] is thread local; every operation takes the calling
      thread's value as its first argument [pid].
    - A run that indexes a vector out of range, reads an arena out of
      range or fails an [assert] has no result ([None]).  The build that
      is modelled has its checks enabled ([BSP_SKIP_CHECKS] and [NDEBUG]
      undefined). *)

From Stdlib Require Import ZArith Lia.
From Stdlib Require Import Strings.Byte.
From stdpp Require Import base option list strings gmap fin_maps.

Local Open Scope Z_scope.

(** ** Machine integers and memory *)

Definition size_t_modulus : Z := 2 ^ 64.
Definition SIZE_MAX : Z := size_t_modulus - 1.

(** [a + b] on [size_t]. *)
Definition add64 (a b : Z) : Z := (a + b) mod size_t_modulus.

Definition memory : Type := Z -> byte.

Definition store (m : memory) (a : Z) (b : byte) : memory :=
  fun a' => if Z.eqb a' a then b else m a'.

(** [memcpy(dst, bs, |bs|)] where the source bytes are already at hand. *)
Fixpoint memcpy_to (m : memory) (dst : Z) (bs : list byte) : memory :=
  match bs with
  | [] => m
  | b :: bs' => memcpy_to (store m dst b) (dst + 1) bs'
  end.

(** The [n] bytes of memory starting at [src]. *)
Fixpoint read_bytes (m : memory) (src : Z) (n : nat) : list byte :=
  match n with
  | O => []
  | S n' => m src :: read_bytes m (src + 1) n'
  end.

(** ** Stack arena ([bsp/stackAllocator.h]) *)

Module StackAllocator.

(** Modelled from the spec: the class [BspInternal::StackAllocator] is
    declared in [bsp/stackAllocator.h], which is not part of the sources
    at hand.  Section 4.1 of the specification gives its contract: an
    append-only byte buffer with allocate-with-copy, extract-by-offset,
    merge and clear; the arena is the list of the bytes allocated since
    the last clear. *)
Record t := Build { bytes : list byte }.

Definition empty : t := Build [].

(** Modelled from the spec: [size()] is the current high-water mark. *)
Definition Size (a : t) : Z := Z.of_nat (length (bytes a)).

(** Modelled from the spec: [alloc(n, src)] appends [n] bytes copied from
    [src] and returns the offset at which they were placed. *)
Definition Alloc (n : Z) (src : Z) (m : memory) (a : t) : Z * t :=
  (Size a, Build (bytes a ++ read_bytes m src (Z.to_nat n))).

(** The [n] bytes at offset [loc]; no result out of the allocated range. *)
Definition read (a : t) (loc n : Z) : option (list byte) :=
  if decide (0 <= loc /\ 0 <= n /\ loc + n <= Size a)
  then Some (take (Z.to_nat n) (drop (Z.to_nat loc) (bytes a)))
  else None.

(** Modelled from the spec: [extract(offset, n, dst)] copies [n] bytes
    starting at [offset] into [dst]. *)
Definition Extract (a : t) (loc n : Z) (dst : Z) (m : memory)
  : option memory :=
  bs ← read a loc n; Some (memcpy_to m dst bs).

(** Modelled from the spec: [merge(other)] appends the contents of
    [other]; offsets into [other] are shifted by the size before the
    merge. *)
Definition Merge (other : t) (a : t) : t := Build (bytes a ++ bytes other).

(** Modelled from the spec: [clear()] resets the size to zero. *)
Definition Clear (a : t) : t := empty.

End StackAllocator.

(** ** Request records ([bsp/requests.h]) *)

(** Modelled from the spec: the request structs are declared in
    [bsp/requests.h], which is not part of the sources at hand.  The field
    names are the ones [bspClass.h] uses; the field order is the one of
    its brace initialisers. *)
Record PutRequest := mkPutRequest {
  put_bufferLocation : Z;
  put_destination : Z;
  put_size : Z
}.

Record GetRequest := mkGetRequest {
  get_destination : Z;
  get_source : Z;
  get_size : Z
}.

Record SendRequest := mkSendRequest {
  bufferLocation : Z;
  bufferSize : Z;
  tagLocation : Z;
  tagSize : Z
}.

Record RegisterInfo := mkRegisterInfo {
  reg_size : Z;
  registerCount : Z
}.

Record PushRequest := mkPushRequest {
  pushRegister : Z;
  registerInfo : RegisterInfo
}.

Record PopRequest := mkPopRequest {
  popRegister : Z
}.

(** ** Communication queue matrix ([bsp/communicationQueues.h]) *)

(** Modelled from the spec: [BspInternal::CommunicationQueues] is declared
    in [bsp/communicationQueues.h], which is not part of the sources at
    hand.  Section 4.3: a P x P array whose cell [(from, to)] is read by
    [from_me(to, my_pid) = queue[my_pid][to]] and by
    [to_me(from, my_pid) = queue[from][my_pid]]. *)
Abbreviation CommunicationQueues T := (list (list T)) (only parsing).

Section Queues.
Context {T : Type}.

Definition cell (q : CommunicationQueues T) (from to : nat) : option T :=
  row ← q !! from; row !! to.

Definition set_cell (q : CommunicationQueues T) (from to : nat) (x : T)
  : CommunicationQueues T :=
  alter (fun row => <[to := x]> row) from q.

Definition GetQueueFromMe (q : CommunicationQueues T) (to me : nat)
  : option T := cell q me to.

Definition GetQueueToMe (q : CommunicationQueues T) (from me : nat)
  : option T := cell q from me.

Definition ResetResize (P : nat) (dflt : T) : CommunicationQueues T :=
  replicate P (replicate P dflt).
End Queues.

(** ** The members of class [BSP] *)

(** The members are those of the class, in its order.  [mThreadBarrier],
    [mThreads] and [mStartTimes] (the barrier object, the worker futures
    and the timers) carry no data the operations below read.  [heap] and
    [diag] are the environment the methods act on: the process memory and
    the lines written to [stderr]. *)
Record BSP := mkBSP {
  mPutBufferStacks : list StackAllocator.t;
  mPutRequests : CommunicationQueues (list PutRequest);
  mGetRequests : CommunicationQueues (list GetRequest);
  mTmpSendRequests : CommunicationQueues (list SendRequest);
  mTmpSendBuffers : CommunicationQueues StackAllocator.t;
  mSendBuffers : list StackAllocator.t;
  mSendRequests : list (list SendRequest);
  mSendReceivedIndex : list Z;
  mPushRequests : list (list PushRequest);
  mPopRequests : list (list PopRequest);
  mRegisterCount : list Z;
  mRegisters : list (gmap Z RegisterInfo);
  mThreadRegisterLocation : list (list Z);
  mEntry : option nat;
  mProcCount : nat;
  mNewTagSize : list Z;
  mTagSize : Z;
  mEnded : bool;
  mAbort : bool;
  heap : memory;
  diag : list string
}.

Definition set_mPutBufferStacks (v : list StackAllocator.t) (s : BSP) : BSP :=
  mkBSP v (mPutRequests s) (mGetRequests s) (mTmpSendRequests s)
    (mTmpSendBuffers s) (mSendBuffers s) (mSendRequests s)
    (mSendReceivedIndex s) (mPushRequests s) (mPopRequests s)
    (mRegisterCount s) (mRegisters s) (mThreadRegisterLocation s) (mEntry s)
    (mProcCount s) (mNewTagSize s) (mTagSize s) (mEnded s) (mAbort s) (heap s)
    (diag s).
Definition set_mPutRequests (v : CommunicationQueues (list PutRequest)) (s : BSP) : BSP :=
  mkBSP (mPutBufferStacks s) v (mGetRequests s) (mTmpSendRequests s)
    (mTmpSendBuffers s) (mSendBuffers s) (mSendRequests s)
    (mSendReceivedIndex s) (mPushRequests s) (mPopRequests s)
    (mRegisterCount s) (mRegisters s) (mThreadRegisterLocation s) (mEntry s)
    (mProcCount s) (mNewTagSize s) (mTagSize s) (mEnded s) (mAbort s) (heap s)
    (diag s).
Definition set_mGetRequests (v : CommunicationQueues (list GetRequest)) (s : BSP) : BSP :=
  mkBSP (mPutBufferStacks s) (mPutRequests s) v (mTmpSendRequests s)
    (mTmpSendBuffers s) (mSendBuffers s) (mSendRequests s)
    (mSendReceivedIndex s) (mPushRequests s) (mPopRequests s)
    (mRegisterCount s) (mRegisters s) (mThreadRegisterLocation s) (mEntry s)
    (mProcCount s) (mNewTagSize s) (mTagSize s) (mEnded s) (mAbort s) (heap s)
    (diag s).
Definition set_mTmpSendRequests (v : CommunicationQueues (list SendRequest)) (s : BSP) : BSP :=
  mkBSP (mPutBufferStacks s) (mPutRequests s) (mGetRequests s) v
    (mTmpSendBuffers s) (mSendBuffers s) (mSendRequests s)
    (mSendReceivedIndex s) (mPushRequests s) (mPopRequests s)
    (mRegisterCount s) (mRegisters s) (mThreadRegisterLocation s) (mEntry s)
    (mProcCount s) (mNewTagSize s) (mTagSize s) (mEnded s) (mAbort s) (heap s)
    (diag s).
Definition set_mTmpSendBuffers (v : CommunicationQueues StackAllocator.t) (s : BSP) : BSP :=
  mkBSP (mPutBufferStacks s) (mPutRequests s) (mGetRequests s)
    (mTmpSendRequests s) v (mSendBuffers s) (mSendRequests s)
    (mSendReceivedIndex s) (mPushRequests s) (mPopRequests s)
    (mRegisterCount s) (mRegisters s) (mThreadRegisterLocation s) (mEntry s)
    (mProcCount s) (mNewTagSize s) (mTagSize s) (mEnded s) (mAbort s) (heap s)
    (diag s).
Definition set_mSendBuffers (v : list StackAllocator.t) (s : BSP) : BSP :=
  mkBSP (mPutBufferStacks s) (mPutRequests s) (mGetRequests s)
    (mTmpSendRequests s) (mTmpSendBuffers s) v (mSendRequests s)
    (mSendReceivedIndex s) (mPushRequests s) (mPopRequests s)
    (mRegisterCount s) (mRegisters s) (mThreadRegisterLocation s) (mEntry s)
    (mProcCount s) (mNewTagSize s) (mTagSize s) (mEnded s) (mAbort s) (heap s)
    (diag s).
Definition set_mSendRequests (v : list (list SendRequest)) (s : BSP) : BSP :=
  mkBSP (mPutBufferStacks s) (mPutRequests s) (mGetRequests s)
    (mTmpSendRequests s) (mTmpSendBuffers s) (mSendBuffers s) v
    (mSendReceivedIndex s) (mPushRequests s) (mPopRequests s)
    (mRegisterCount s) (mRegisters s) (mThreadRegisterLocation s) (mEntry s)
    (mProcCount s) (mNewTagSize s) (mTagSize s) (mEnded s) (mAbort s) (heap s)
    (diag s).
Definition set_mSendReceivedIndex (v : list Z) (s : BSP) : BSP :=
  mkBSP (mPutBufferStacks s) (mPutRequests s) (mGetRequests s)
    (mTmpSendRequests s) (mTmpSendBuffers s) (mSendBuffers s)
    (mSendRequests s) v (mPushRequests s) (mPopRequests s) (mRegisterCount s)
    (mRegisters s) (mThreadRegisterLocation s) (mEntry s) (mProcCount s)
    (mNewTagSize s) (mTagSize s) (mEnded s) (mAbort s) (heap s) (diag s).
Definition set_mPushRequests (v : list (list PushRequest)) (s : BSP) : BSP :=
  mkBSP (mPutBufferStacks s) (mPutRequests s) (mGetRequests s)
    (mTmpSendRequests s) (mTmpSendBuffers s) (mSendBuffers s)
    (mSendRequests s) (mSendReceivedIndex s) v (mPopRequests s)
    (mRegisterCount s) (mRegisters s) (mThreadRegisterLocation s) (mEntry s)
    (mProcCount s) (mNewTagSize s) (mTagSize s) (mEnded s) (mAbort s) (heap s)
    (diag s).
Definition set_mPopRequests (v : list (list PopRequest)) (s : BSP) : BSP :=
  mkBSP (mPutBufferStacks s) (mPutRequests s) (mGetRequests s)
    (mTmpSendRequests s) (mTmpSendBuffers s) (mSendBuffers s)
    (mSendRequests s) (mSendReceivedIndex s) (mPushRequests s) v
    (mRegisterCount s) (mRegisters s) (mThreadRegisterLocation s) (mEntry s)
    (mProcCount s) (mNewTagSize s) (mTagSize s) (mEnded s) (mAbort s) (heap s)
    (diag s).
Definition set_mRegisterCount (v : list Z) (s : BSP) : BSP :=
  mkBSP (mPutBufferStacks s) (mPutRequests s) (mGetRequests s)
    (mTmpSendRequests s) (mTmpSendBuffers s) (mSendBuffers s)
    (mSendRequests s) (mSendReceivedIndex s) (mPushRequests s)
    (mPopRequests s) v (mRegisters s) (mThreadRegisterLocation s) (mEntry s)
    (mProcCount s) (mNewTagSize s) (mTagSize s) (mEnded s) (mAbort s) (heap s)
    (diag s).
Definition set_mRegisters (v : list (gmap Z RegisterInfo)) (s : BSP) : BSP :=
  mkBSP (mPutBufferStacks s) (mPutRequests s) (mGetRequests s)
    (mTmpSendRequests s) (mTmpSendBuffers s) (mSendBuffers s)
    (mSendRequests s) (mSendReceivedIndex s) (mPushRequests s)
    (mPopRequests s) (mRegisterCount s) v (mThreadRegisterLocation s)
    (mEntry s) (mProcCount s) (mNewTagSize s) (mTagSize s) (mEnded s)
    (mAbort s) (heap s) (diag s).
Definition set_mThreadRegisterLocation (v : list (list Z)) (s : BSP) : BSP :=
  mkBSP (mPutBufferStacks s) (mPutRequests s) (mGetRequests s)
    (mTmpSendRequests s) (mTmpSendBuffers s) (mSendBuffers s)
    (mSendRequests s) (mSendReceivedIndex s) (mPushRequests s)
    (mPopRequests s) (mRegisterCount s) (mRegisters s) v (mEntry s)
    (mProcCount s) (mNewTagSize s) (mTagSize s) (mEnded s) (mAbort s) (heap s)
    (diag s).
Definition set_mEntry (v : option nat) (s : BSP) : BSP :=
  mkBSP (mPutBufferStacks s) (mPutRequests s) (mGetRequests s)
    (mTmpSendRequests s) (mTmpSendBuffers s) (mSendBuffers s)
    (mSendRequests s) (mSendReceivedIndex s) (mPushRequests s)
    (mPopRequests s) (mRegisterCount s) (mRegisters s)
    (mThreadRegisterLocation s) v (mProcCount s) (mNewTagSize s) (mTagSize s)
    (mEnded s) (mAbort s) (heap s) (diag s).
Definition set_mProcCount (v : nat) (s : BSP) : BSP :=
  mkBSP (mPutBufferStacks s) (mPutRequests s) (mGetRequests s)
    (mTmpSendRequests s) (mTmpSendBuffers s) (mSendBuffers s)
    (mSendRequests s) (mSendReceivedIndex s) (mPushRequests s)
    (mPopRequests s) (mRegisterCount s) (mRegisters s)
    (mThreadRegisterLocation s) (mEntry s) v (mNewTagSize s) (mTagSize s)
    (mEnded s) (mAbort s) (heap s) (diag s).
Definition set_mNewTagSize (v : list Z) (s : BSP) : BSP :=
  mkBSP (mPutBufferStacks s) (mPutRequests s) (mGetRequests s)
    (mTmpSendRequests s) (mTmpSendBuffers s) (mSendBuffers s)
    (mSendRequests s) (mSendReceivedIndex s) (mPushRequests s)
    (mPopRequests s) (mRegisterCount s) (mRegisters s)
    (mThreadRegisterLocation s) (mEntry s) (mProcCount s) v (mTagSize s)
    (mEnded s) (mAbort s) (heap s) (diag s).
Definition set_mTagSize (v : Z) (s : BSP) : BSP :=
  mkBSP (mPutBufferStacks s) (mPutRequests s) (mGetRequests s)
    (mTmpSendRequests s) (mTmpSendBuffers s) (mSendBuffers s)
    (mSendRequests s) (mSendReceivedIndex s) (mPushRequests s)
    (mPopRequests s) (mRegisterCount s) (mRegisters s)
    (mThreadRegisterLocation s) (mEntry s) (mProcCount s) (mNewTagSize s) v
    (mEnded s) (mAbort s) (heap s) (diag s).
Definition set_mEnded (v : bool) (s : BSP) : BSP :=
  mkBSP (mPutBufferStacks s) (mPutRequests s) (mGetRequests s)
    (mTmpSendRequests s) (mTmpSendBuffers s) (mSendBuffers s)
    (mSendRequests s) (mSendReceivedIndex s) (mPushRequests s)
    (mPopRequests s) (mRegisterCount s) (mRegisters s)
    (mThreadRegisterLocation s) (mEntry s) (mProcCount s) (mNewTagSize s)
    (mTagSize s) v (mAbort s) (heap s) (diag s).
Definition set_mAbort (v : bool) (s : BSP) : BSP :=
  mkBSP (mPutBufferStacks s) (mPutRequests s) (mGetRequests s)
    (mTmpSendRequests s) (mTmpSendBuffers s) (mSendBuffers s)
    (mSendRequests s) (mSendReceivedIndex s) (mPushRequests s)
    (mPopRequests s) (mRegisterCount s) (mRegisters s)
    (mThreadRegisterLocation s) (mEntry s) (mProcCount s) (mNewTagSize s)
    (mTagSize s) (mEnded s) v (heap s) (diag s).
Definition set_heap (v : memory) (s : BSP) : BSP :=
  mkBSP (mPutBufferStacks s) (mPutRequests s) (mGetRequests s)
    (mTmpSendRequests s) (mTmpSendBuffers s) (mSendBuffers s)
    (mSendRequests s) (mSendReceivedIndex s) (mPushRequests s)
    (mPopRequests s) (mRegisterCount s) (mRegisters s)
    (mThreadRegisterLocation s) (mEntry s) (mProcCount s) (mNewTagSize s)
    (mTagSize s) (mEnded s) (mAbort s) v (diag s).
Definition set_diag (v : list string) (s : BSP) : BSP :=
  mkBSP (mPutBufferStacks s) (mPutRequests s) (mGetRequests s)
    (mTmpSendRequests s) (mTmpSendBuffers s) (mSendBuffers s)
    (mSendRequests s) (mSendReceivedIndex s) (mPushRequests s)
    (mPopRequests s) (mRegisterCount s) (mRegisters s)
    (mThreadRegisterLocation s) (mEntry s) (mProcCount s) (mNewTagSize s)
    (mTagSize s) (mEnded s) (mAbort s) (heap s) v.

(** The state the constructor [BSP()] leaves. *)
Definition BSP_ctor (m : memory) : BSP :=
  mkBSP [] [] [] [] [] [] [] [] [] [] [] [] [] None 0%nat [] 0 true false m [].

(** ** Loops *)

(** [for (x : xs) body], with the state threaded through and stopping at
    the first iteration that has no result. *)
Fixpoint for_each {A S : Type} (xs : list A) (body : A -> S -> option S)
  (s : S) : option S :=
  match xs with
  | [] => Some s
  | x :: xs' => s' ← body x s; for_each xs' body s'
  end.

(** [assert(c)]. *)
Definition assert (c : Prop) `{Decision c} : option unit :=
  if decide c then Some tt else None.

(** [m[k]] on a [std::map]: a missing key is inserted with a
    value-initialised [RegisterInfo]. *)
Definition map_index (m : gmap Z RegisterInfo) (k : Z)
  : RegisterInfo * gmap Z RegisterInfo :=
  match m !! k with
  | Some v => (v, m)
  | None => (mkRegisterInfo 0 0, <[k := mkRegisterInfo 0 0]> m)
  end.

(** ** Public operations *)

(** [QSize(packets, accumulatedSize)]: the pair of the values written to
    [*packets] and, when [accumulatedSize] is not null, to
    [*accumulatedSize]. *)
Definition QSize (pid : nat) (accumulatedSize : bool) (s : BSP)
  : option (Z * option Z) :=
  sendQueue ← mSendRequests s !! pid;
  let packets := add64 0 (Z.of_nat (length sendQueue)) in
  Some (packets,
        if accumulatedSize
        then Some (foldl (fun acc request => add64 acc (bufferSize request))
                         0 sendQueue)
        else None).

Definition init_warning : list string :=
  ["Warning: initialisation data corresponding to another BSP run found;";
   "         and this other run did not terminate (gracefully)."]%string.

(** [Init(entry, argc, argv)]: the new state and the new value of the
    calling thread's [ProcId()]. *)
Definition Init (entry : option nat) (s : BSP) : BSP * nat :=
  let s := set_mEntry entry s in
  let s := set_mTagSize 0 s in
  let s := if negb (mEnded s) && negb (mAbort s)
           then set_diag (diag s ++ init_warning) s
           else s in
  (s, 0%nat).

Definition deadbeef_warning : string :=
  "A processor with ID `0xdeadbeef` is found, this can happen when you forget to call Init().".

(** [Begin(maxProcs)].  The worker threads that process 0 launches each
    set their [ProcId()] and run the entry function; here they are the
    threads of the schedules below. *)
Definition Begin (pid : nat) (maxProcs : nat) (s : BSP) : option BSP :=
  if decide (pid ≠ 0%nat) then
    let s := if decide (Z.of_nat pid = 3735928559)
             then set_diag (diag s ++ [deadbeef_warning]) s else s in
    _ ← assert (maxProcs = mProcCount s);
    _ ← assert (pid < maxProcs)%nat;
    Some s
  else
    let s := set_mAbort false s in
    let s := set_mEnded false s in
    let s := set_mProcCount maxProcs s in
    let s := set_mRegisters (replicate maxProcs ∅) s in
    let s := set_mRegisterCount (replicate maxProcs 0) s in
    let s := set_mThreadRegisterLocation (replicate maxProcs []) s in
    let s := set_mPutRequests (ResetResize maxProcs []) s in
    let s := set_mGetRequests (ResetResize maxProcs []) s in
    let s := set_mTmpSendRequests (ResetResize maxProcs []) s in
    let s := set_mTmpSendBuffers
               (ResetResize maxProcs StackAllocator.empty) s in
    let s := set_mSendRequests (replicate maxProcs []) s in
    let s := set_mSendBuffers (replicate maxProcs StackAllocator.empty) s in
    let s := set_mPushRequests (replicate maxProcs []) s in
    let s := set_mPopRequests (replicate maxProcs []) s in
    let s := set_mPutBufferStacks
               (replicate maxProcs StackAllocator.empty) s in
    let s := set_mNewTagSize (replicate maxProcs 0) s in
    let s := set_mSendReceivedIndex (replicate maxProcs 0) s in
    Some s.

(** [End()], up to its barrier: the flag is set before [SyncPoint()]. *)
Definition End (s : BSP) : BSP := set_mEnded true s.

(** [VAbort(format, args)], up to the exception [CheckAborted()] throws. *)
Definition VAbort (message : string) (s : BSP) : BSP :=
  let s := set_mAbort true s in
  set_diag (diag s ++ [message]) s.

Definition PushReg (pid : nat) (ident : Z) (sz : Z) (s : BSP) : option BSP :=
  _ ← assert (pid < mProcCount s)%nat;
  _ ← assert (pid < length (mRegisters s))%nat;
  _ ← assert (pid < length (mRegisterCount s))%nat;
  _ ← assert (pid < length (mThreadRegisterLocation s))%nat;
  count ← mRegisterCount s !! pid;
  queue ← mPushRequests s !! pid;
  let s := set_mRegisterCount (<[pid := add64 count 1]> (mRegisterCount s)) s in
  Some (set_mPushRequests
          (<[pid := queue ++ [mkPushRequest ident (mkRegisterInfo sz count)]]>
             (mPushRequests s)) s).

Definition PopReg (pid : nat) (ident : Z) (s : BSP) : option BSP :=
  _ ← assert (pid < mProcCount s)%nat;
  _ ← assert (pid < length (mRegisters s))%nat;
  _ ← assert (pid < length (mRegisterCount s))%nat;
  _ ← assert (pid < length (mThreadRegisterLocation s))%nat;
  queue ← mPopRequests s !! pid;
  Some (set_mPopRequests
          (<[pid := queue ++ [mkPopRequest ident]]> (mPopRequests s)) s).

(** [mRegisters[p][key]], with the insertion [operator[]] performs. *)
Definition register_at (p : nat) (key : Z) (s : BSP)
  : option (RegisterInfo * BSP) :=
  regs ← mRegisters s !! p;
  let '(info, regs') := map_index regs key in
  Some (info, set_mRegisters (<[p := regs']> (mRegisters s)) s).

(** [Put(pid, src, dst, offset, nbytes)] called by thread [tpid]. *)
Definition Put (tpid : nat) (pid : nat) (src dst : Z) (offset : Z)
  (nbytes : Z) (s : BSP) : option BSP :=
  _ ← assert (tpid < mProcCount s)%nat;
  _ ← assert (pid < mProcCount s)%nat;
  '(info, s) ← register_at tpid dst s;
  let globalId := registerCount info in
  locations ← mThreadRegisterLocation s !! pid;
  _ ← assert (globalId < Z.of_nat (length locations));
  target ← locations !! Z.to_nat globalId;
  '(tinfo, s) ← register_at pid target s;
  _ ← assert (nbytes <= reg_size tinfo);
  let dstBuff := target in
  stack ← mPutBufferStacks s !! tpid;
  let '(bufferLocation, stack') :=
    StackAllocator.Alloc nbytes src (heap s) stack in
  let s := set_mPutBufferStacks (<[tpid := stack']> (mPutBufferStacks s)) s in
  queue ← GetQueueFromMe (mPutRequests s) pid tpid;
  Some (set_mPutRequests
          (set_cell (mPutRequests s) tpid pid
             (queue ++ [mkPutRequest bufferLocation (dstBuff + offset) nbytes]))
          s).

(** [Get(pid, src, offset, dst, nbytes)] called by thread [tpid]. *)
Definition Get (tpid : nat) (pid : nat) (src : Z) (offset : Z) (dst : Z)
  (nbytes : Z) (s : BSP) : option BSP :=
  _ ← assert (pid < mProcCount s)%nat;
  _ ← assert (tpid < mProcCount s)%nat;
  '(info, s) ← register_at tpid src s;
  let globalId := registerCount info in
  locations ← mThreadRegisterLocation s !! pid;
  source ← (if decide (0 <= globalId) then locations !! Z.to_nat globalId
            else None);
  '(tinfo, s) ← register_at pid source s;
  _ ← assert (nbytes <= reg_size tinfo);
  let srcBuff := source in
  queue ← GetQueueFromMe (mGetRequests s) pid tpid;
  Some (set_mGetRequests
          (set_cell (mGetRequests s) tpid pid
             (queue ++ [mkGetRequest dst (srcBuff + offset) nbytes]))
          s).

(** [Send(pid, tag, payload, size)] called by thread [tpid]. *)
Definition Send (tpid : nat) (pid : nat) (tag payload : Z) (sz : Z)
  (s : BSP) : option BSP :=
  _ ← assert (pid < mProcCount s)%nat;
  _ ← assert (tpid < mProcCount s)%nat;
  proposed ← mNewTagSize s !! tpid;
  _ ← assert (proposed = mTagSize s);
  tmpSendBuffer ← GetQueueFromMe (mTmpSendBuffers s) pid tpid;
  let '(bufferLocation, tmpSendBuffer) :=
    StackAllocator.Alloc sz payload (heap s) tmpSendBuffer in
  let '(tagLocation, tmpSendBuffer) :=
    StackAllocator.Alloc (mTagSize s) tag (heap s) tmpSendBuffer in
  let s := set_mTmpSendBuffers
             (set_cell (mTmpSendBuffers s) tpid pid tmpSendBuffer) s in
  queue ← GetQueueFromMe (mTmpSendRequests s) pid tpid;
  Some (set_mTmpSendRequests
          (set_cell (mTmpSendRequests s) tpid pid
             (queue ++ [mkSendRequest bufferLocation sz tagLocation
                                      (mTagSize s)]))
          s).

(** [Move(payload, max_copy_size_in)]. *)
Definition Move (pid : nat) (payload : Z) (max_copy_size_in : Z) (s : BSP)
  : option BSP :=
  sendQueue ← mSendRequests s !! pid;
  if decide (sendQueue = []) then Some s
  else
    index ← mSendReceivedIndex s !! pid;
    let s := set_mSendReceivedIndex
               (<[pid := add64 index 1]> (mSendReceivedIndex s)) s in
    request ← sendQueue !! Z.to_nat index;
    let copySize := Z.min max_copy_size_in (bufferSize request) in
    sendBuffer ← mSendBuffers s !! pid;
    m ← StackAllocator.Extract sendBuffer (bufferLocation request) copySize
          payload (heap s);
    Some (set_heap m s).

(** [SetTagsize(size)]: the value written back to [*size] and the new
    state. *)
Definition SetTagsize (pid : nat) (newSize : Z) (s : BSP)
  : option (Z * BSP) :=
  _ ← mNewTagSize s !! pid;
  Some (mTagSize s, set_mNewTagSize (<[pid := newSize]> (mNewTagSize s)) s).

(** [GetTag(status, tag)]: the value written to [*status] and the new
    state. *)
Definition GetTag (pid : nat) (tag : Z) (s : BSP) : option (Z * BSP) :=
  let status := SIZE_MAX in
  index ← mSendReceivedIndex s !! pid;
  sendQueue ← mSendRequests s !! pid;
  if decide (sendQueue ≠ [] ∧ index < Z.of_nat (length sendQueue)) then
    sendRequest ← sendQueue !! Z.to_nat index;
    let status := bufferSize sendRequest in
    _ ← assert (tagSize sendRequest = mTagSize s);
    sendBuffer ← mSendBuffers s !! pid;
    m ← StackAllocator.Extract sendBuffer (tagLocation sendRequest)
          (tagSize sendRequest) tag (heap s);
    Some (status, set_heap m s)
  else Some (status, s).

(** ** The private helpers of [Sync] *)

Definition ProcessPushRequests (pid : nat) (s : BSP) : option BSP :=
  queue ← mPushRequests s !! pid;
  if decide (queue ≠ []) then
    s ← for_each queue (fun pushRequest s =>
          regs ← mRegisters s !! pid;
          let regs := <[pushRegister pushRequest := registerInfo pushRequest]>
                        regs in
          let s := set_mRegisters (<[pid := regs]> (mRegisters s)) s in
          locations ← mThreadRegisterLocation s !! pid;
          Some (set_mThreadRegisterLocation
                  (<[pid := locations ++ [pushRegister pushRequest]]>
                     (mThreadRegisterLocation s)) s)) s;
    Some (set_mPushRequests (<[pid := []]> (mPushRequests s)) s)
  else Some s.

(** One [Extract] of the inner loop of [ProcessPutRequests]. *)
Definition apply_put (owner : nat) (putRequest : PutRequest) (s : BSP)
  : option BSP :=
  stack ← mPutBufferStacks s !! owner;
  m ← StackAllocator.Extract stack (put_bufferLocation putRequest)
        (put_size putRequest) (put_destination putRequest) (heap s);
  Some (set_heap m s).

Definition ProcessPutRequests (pid : nat) (s : BSP) : option BSP :=
  for_each (seq 0 (mProcCount s)) (fun owner s =>
    putQueue ← GetQueueToMe (mPutRequests s) owner pid;
    if decide (putQueue ≠ []) then
      (* from [rbegin()] to [rend()] *)
      s ← for_each (reverse putQueue) (apply_put owner) s;
      Some (set_mPutRequests (set_cell (mPutRequests s) owner pid []) s)
    else Some s) s.

(** [sendRequest.bufferLocation += offset; sendRequest.tagLocation += offset]. *)
Definition rebase (offset : Z) (sendRequest : SendRequest) : SendRequest :=
  mkSendRequest (add64 (bufferLocation sendRequest) offset)
                (bufferSize sendRequest)
                (add64 (tagLocation sendRequest) offset)
                (tagSize sendRequest).

(** The body of the loop over [owner] in [ProcessSendRequests]; the local
    variable [offset] travels with the state. *)
Definition deliver_from (pid : nat) (owner : nat) (os : Z * BSP)
  : option (Z * BSP) :=
  let '(offset, s) := os in
  tmpQueue ← GetQueueToMe (mTmpSendRequests s) owner pid;
  if decide (tmpQueue ≠ []) then
    let tmpQueue := rebase offset <$> tmpQueue in
    delivered ← mSendRequests s !! pid;
    let s := set_mSendRequests
               (<[pid := delivered ++ tmpQueue]> (mSendRequests s)) s in
    let s := set_mTmpSendRequests
               (set_cell (mTmpSendRequests s) owner pid []) s in
    tmpBuffer ← GetQueueToMe (mTmpSendBuffers s) owner pid;
    let offset := add64 offset (StackAllocator.Size tmpBuffer) in
    sendBuffer ← mSendBuffers s !! pid;
    let s := set_mSendBuffers
               (<[pid := StackAllocator.Merge tmpBuffer sendBuffer]>
                  (mSendBuffers s)) s in
    let s := set_mTmpSendBuffers
               (set_cell (mTmpSendBuffers s) owner pid
                  (StackAllocator.Clear tmpBuffer)) s in
    Some (offset, s)
  else Some (offset, s).

Definition ProcessSendRequests (pid : nat) (s : BSP) : option BSP :=
  _ ← mSendRequests s !! pid;
  let s := set_mSendRequests (<[pid := []]> (mSendRequests s)) s in
  _ ← mSendReceivedIndex s !! pid;
  let s := set_mSendReceivedIndex (<[pid := 0]> (mSendReceivedIndex s)) s in
  let offset := 0 in
  sendBuffer ← mSendBuffers s !! pid;
  let s := set_mSendBuffers
             (<[pid := StackAllocator.Clear sendBuffer]> (mSendBuffers s)) s in
  '(_, s) ← for_each (seq 0 (mProcCount s)) (deliver_from pid) (offset, s);
  Some s.

Definition ProcessPopRequests (pid : nat) (s : BSP) : option BSP :=
  queue ← mPopRequests s !! pid;
  if decide (queue ≠ []) then
    s ← for_each queue (fun popRequest s =>
          regs ← mRegisters s !! pid;
          Some (set_mRegisters
                  (<[pid := delete (popRegister popRequest) regs]>
                     (mRegisters s)) s)) s;
    Some (set_mPopRequests (<[pid := []]> (mPopRequests s)) s)
  else Some s.

(** The body of the inner loop of [ProcessGetRequests]: the bytes asked
    for are staged in the arena of [pid] and a Put towards [owner] is
    queued. *)
Definition get_to_put (pid owner : nat) (request : GetRequest) (s : BSP)
  : option BSP :=
  stack ← mPutBufferStacks s !! pid;
  let '(bufferLocation, stack') :=
    StackAllocator.Alloc (get_size request) (get_source request) (heap s)
                         stack in
  let s := set_mPutBufferStacks (<[pid := stack']> (mPutBufferStacks s)) s in
  queue ← GetQueueFromMe (mPutRequests s) owner pid;
  Some (set_mPutRequests
          (set_cell (mPutRequests s) pid owner
             (queue ++ [mkPutRequest bufferLocation (get_destination request)
                                     (get_size request)])) s).

Definition ProcessGetRequests (pid : nat) (s : BSP) : option BSP :=
  for_each (seq 0 (mProcCount s)) (fun owner s =>
    getQueue ← GetQueueToMe (mGetRequests s) owner pid;
    s ← for_each (reverse getQueue) (get_to_put pid owner) s;
    Some (set_mGetRequests (set_cell (mGetRequests s) owner pid []) s)) s.

(** ** [Sync] *)

(** The statements of [Sync], in the order of the source. *)
Inductive instr :=
  | ISyncPoint
  | IAdoptTagSize
  | IProcessGetRequests
  | IProcessPopRequests
  | IProcessSendRequests
  | IProcessPutRequests
  | IClearPutBuffer
  | IProcessPushRequests.

#[global] Instance instr_eq_dec : EqDecision instr.
Proof. solve_decision. Defined.

Definition Sync : list instr :=
  [ ISyncPoint;
    IAdoptTagSize;
    IProcessGetRequests;
    ISyncPoint;
    IProcessPopRequests;
    IProcessSendRequests;
    IProcessPutRequests;
    ISyncPoint;
    IClearPutBuffer;
    IProcessPushRequests;
    ISyncPoint ].

(** [if ( pid == 0 && mNewTagSize[0] != mTagSize ) mTagSize = mNewTagSize[0];] *)
Definition adopt_tag_size (pid : nat) (s : BSP) : option BSP :=
  if decide (pid = 0%nat) then
    proposed ← mNewTagSize s !! 0%nat;
    if decide (proposed ≠ mTagSize s) then Some (set_mTagSize proposed s)
    else Some s
  else Some s.

(** [mPutBufferStacks[pid].Clear();] *)
Definition clear_put_buffer (pid : nat) (s : BSP) : option BSP :=
  stack ← mPutBufferStacks s !! pid;
  Some (set_mPutBufferStacks
          (<[pid := StackAllocator.Clear stack]> (mPutBufferStacks s)) s).

(** What thread [pid] does at one statement other than the barrier. *)
Definition exec (i : instr) (pid : nat) (s : BSP) : option BSP :=
  match i with
  | ISyncPoint => Some s
  | IAdoptTagSize => adopt_tag_size pid s
  | IProcessGetRequests => ProcessGetRequests pid s
  | IProcessPopRequests => ProcessPopRequests pid s
  | IProcessSendRequests => ProcessSendRequests pid s
  | IProcessPutRequests => ProcessPutRequests pid s
  | IClearPutBuffer => clear_put_buffer pid s
  | IProcessPushRequests => ProcessPushRequests pid s
  end.

(** ** Threads and the barrier *)

(** The shared object and, for each thread, the statements of [Sync] it
    has yet to run; a thread that is not inside [Sync] has none. *)
Record config := mkConfig {
  shared : BSP;
  code : list (list instr)
}.

Inductive choice :=
  | Run (p : nat)            (* thread [p] runs its next statement *)
  | Release                  (* the barrier opens *)
  | Unwind (p : nat)         (* thread [p] leaves its wait by BspAbort *)
  | RaiseAbort (message : string). (* a thread outside Sync calls Abort *)

Inductive event :=
  | EvRun (p : nat) (i : instr)
  | EvRelease
  | EvUnwind (p : nat)
  | EvAbort.

#[global] Instance event_eq_dec : EqDecision event.
Proof. solve_decision. Defined.

Definition at_barrier (c : list instr) : bool :=
  match c with
  | ISyncPoint :: _ => true
  | _ => false
  end.

Definition outside (c : list instr) : bool :=
  match c with
  | [] => true
  | _ => false
  end.

(** Modelled from the spec: [SyncPoint()] is [mThreadBarrier.Wait(mAbort)],
    and [bsp/mixedBarrier.h] is not part of the sources at hand.  Section
    4.2: [wait] blocks until all P participants have called it, or the
    abort flag is observed; when abort is observed the caller raises the
    abort error.  So the barrier opens only when every thread waits at it,
    and a waiting thread may leave by the abort error once the flag is
    set. *)
Definition sched_step (ch : choice) (c : config) : option (event * config) :=
  match ch with
  | Run p =>
      match code c !! p with
      | Some (i :: rest) =>
          if decide (i = ISyncPoint) then None
          else
            s' ← exec i p (shared c);
            Some (EvRun p i, mkConfig s' (<[p := rest]> (code c)))
      | _ => None
      end
  | Release =>
      if forallb at_barrier (code c)
      then Some (EvRelease, mkConfig (shared c) (tail <$> code c))
      else None
  | Unwind p =>
      match code c !! p with
      | Some (ISyncPoint :: _) =>
          if mAbort (shared c)
          then Some (EvUnwind p, mkConfig (shared c) (<[p := []]> (code c)))
          else None
      | _ => None
      end
  | RaiseAbort message =>
      if existsb outside (code c)
      then Some (EvAbort, mkConfig (VAbort message (shared c)) (code c))
      else None
  end.

(** A schedule, run from a configuration: the events in order and the
    configuration reached. *)
Fixpoint run (sched : list choice) (c : config)
  : option (list event * config) :=
  match sched with
  | [] => Some ([], c)
  | ch :: sched' =>
      '(e, c') ← sched_step ch c;
      '(tr, c'') ← run sched' c';
      Some (e :: tr, c'')
  end.

(** Every thread of the run enters [Sync]. *)
Definition enter_Sync (s : BSP) : config :=
  mkConfig s (replicate (mProcCount s) Sync).

(** The schedule in which the threads take turns in the order of their
    process ids between two barriers. *)
Definition in_turn (P : nat) : list choice :=
  let all := Run <$> seq 0 P in
  [Release] ++ all ++ all ++ [Release] ++ all ++ all ++ all ++ [Release]
  ++ all ++ all ++ [Release].

(** ** Notions used to state the properties *)

(** A range of [n] bytes at offset [loc] lies within an arena. *)
Definition in_arena (a : StackAllocator.t) (loc n : Z) : Prop :=
  0 <= loc /\ 0 <= n /\ loc + n <= StackAllocator.Size a.

(** Payload and tag of a send request lie within an arena. *)
Definition send_in_arena (a : StackAllocator.t) (r : SendRequest) : Prop :=
  in_arena a (bufferLocation r) (bufferSize r)
  /\ in_arena a (tagLocation r) (tagSize r).

(** The bytes of an arena from offset [loc] on, at most [n] of them. *)
Definition arena_bytes (a : StackAllocator.t) (loc n : Z) : list byte :=
  take (Z.to_nat n) (drop (Z.to_nat loc) (StackAllocator.bytes a)).

(** The sum of the payload sizes of a queue, as a mathematical integer. *)
Definition total_payload (q : list SendRequest) : Z :=
  foldr (fun r acc => bufferSize r + acc) 0 q.

(** The sends thread [pid] has issued and that wait for the next [Sync]:
    row [pid] of the staging matrix, target after target. *)
Definition outbound (pid : nat) (s : BSP) : list SendRequest :=
  concat (default [] (mTmpSendRequests s !! pid)).

(** ** Sample runs *)

Definition sample_heap : memory :=
  fun a => if a =? 10 then xaa else if a =? 11 then xbb else x00.

(** [Init] on a fresh object, then [Begin(P)] by the main thread. *)
Definition booted (P : nat) : option BSP :=
  Begin 0 P (fst (Init None (BSP_ctor sample_heap))).

(** All threads run [Sync], taking turns between barriers. *)
Definition Sync_in_turn (s : BSP) : option BSP :=
  '(_, c) ← run (in_turn (mProcCount s)) (enter_Sync s);
  Some (shared c).

(** Two processes; process 0 has queued one message of one byte for
    process 1. *)
Definition one_sent : option BSP :=
  s ← booted 2;
  Send 0 1 0 10 1 s.

(** ... and the superstep has ended. *)
Definition one_delivered : option BSP :=
  s ← one_sent;
  Sync_in_turn s.

(** ... and process 1 has moved the message to address 300. *)
Definition one_moved : option BSP :=
  s ← one_delivered;
  Move 1 300 1 s.

(** The states of the sample runs. *)
Definition after_one_sent : BSP :=
  default (BSP_ctor sample_heap) one_sent.
Definition after_one_delivered : BSP :=
  default (BSP_ctor sample_heap) one_delivered.
Definition after_one_moved : BSP :=
  default (BSP_ctor sample_heap) one_moved.

(** ** Runs of the library *)

(** The calls that open and close a run, as a program makes them one
    after the other; [LBegin] carries the caller's [ProcId()]. *)
Inductive lifecycle :=
  | LInit (entry : option nat)
  | LBegin (pid maxProcs : nat)
  | LEnd
  | LAbort (message : string).

Definition lifecycle_step (op : lifecycle) (s : BSP) : option BSP :=
  match op with
  | LInit entry => Some (fst (Init entry s))
  | LBegin pid maxProcs => Begin pid maxProcs s
  | LEnd => Some (End s)
  | LAbort message => Some (VAbort message s)
  end.

Definition replay (h : list lifecycle) (s : BSP) : option BSP :=
  for_each h lifecycle_step s.

(** [End] and [Abort] are the two ways a run terminates. *)
Definition terminates_run (op : lifecycle) : bool :=
  match op with
  | LEnd | LAbort _ => true
  | _ => false
  end.

(** A run was started (by [Begin] on process 0) and no call since has
    terminated it. *)
Definition unfinished_run (h : list lifecycle) : Prop :=
  exists h1 maxProcs h2,
    h = h1 ++ LBegin 0 maxProcs :: h2
    /\ Forall (fun op => terminates_run op = false) h2.

(** Two processes, each with one registered byte (at 100 and at 200). *)
Definition registered : option BSP :=
  s ← booted 2;
  s ← PushReg 0 100 1 s;
  s ← PushReg 1 200 1 s;
  Sync_in_turn s.

(** ... and process 0 has asked to pop its registration. *)
Definition pop_queued : option BSP :=
  s ← registered;
  PopReg 0 100 s.

Definition after_registered : BSP :=
  default (BSP_ctor sample_heap) registered.
Definition after_pop_queued : BSP :=
  default (BSP_ctor sample_heap) pop_queued.

(** ** Notions for the application of Puts *)

(** The Put queue from [owner] to [pid]. *)
Definition puts_to (pid : nat) (s : BSP) (owner : nat) : list PutRequest :=
  default [] (GetQueueToMe (mPutRequests s) owner pid).

(** The put arena of [owner]. *)
Definition put_stack (s : BSP) (owner : nat) : StackAllocator.t :=
  default StackAllocator.empty (mPutBufferStacks s !! owner).

(** Address [a] is one of the destination bytes of a Put. *)
Definition put_covers (r : PutRequest) (a : Z) : Prop :=
  put_destination r <= a < put_destination r + put_size r.

(** Memory after one Put is applied from the arena [stack]. *)
Definition write_put (stack : StackAllocator.t) (m : memory) (r : PutRequest)
  : memory :=
  memcpy_to m (put_destination r)
            (arena_bytes stack (put_bufferLocation r) (put_size r)).

(** Memory after the queues of [owners] towards [pid] are applied, owner
    after owner, each queue from its last request to its first. *)
Definition heap_after_puts (pid : nat) (s : BSP) (owners : list nat)
  (m : memory) : memory :=
  foldl (fun m owner =>
           foldl (write_put (put_stack s owner)) m (reverse (puts_to pid s owner)))
        m owners.

(** Every process has a Put queue towards [pid] and an arena, and every
    queued Put lies within the arena of its owner. *)
Definition puts_in_arena (pid : nat) (s : BSP) : Prop :=
  forall owner, (owner < mProcCount s)%nat ->
    exists q stack,
      GetQueueToMe (mPutRequests s) owner pid = Some q
      /\ mPutBufferStacks s !! owner = Some stack
      /\ Forall (fun r => in_arena stack (put_bufferLocation r) (put_size r)) q.

(** Two processes, each with one registered byte; process 0 has put the
    byte 0xAA and then the byte 0xBB to the byte of process 1. *)
Definition two_puts : option BSP :=
  s ← registered;
  s ← Put 0 1 10 100 0 1 s;
  Put 0 1 11 100 0 1 s.

Definition after_two_puts : BSP :=
  default (BSP_ctor sample_heap) two_puts.

Definition after_booted : BSP :=
  default (BSP_ctor sample_heap) (booted 2).

(** ** Notions for the delivery of Sends *)

(** The staging queue and the staging arena from [owner] to [pid]. *)
Definition staged (pid : nat) (s : BSP) (owner : nat) : list SendRequest :=
  default [] (GetQueueToMe (mTmpSendRequests s) owner pid).

Definition staged_bytes (pid : nat) (s : BSP) (owner : nat)
  : StackAllocator.t :=
  default StackAllocator.empty (GetQueueToMe (mTmpSendBuffers s) owner pid).

(** What [owner] adds to the receive arena: its staging arena, when it
    has staged a request at all.  [Q] and [B] give the staging queue and
    arena of each owner. *)
Definition contribution (Q : nat -> list SendRequest)
  (B : nat -> StackAllocator.t) (owner : nat) : list byte :=
  if decide (Q owner = []) then [] else StackAllocator.bytes (B owner).

(** The bytes the owners [i, i + n) add, in that order. *)
Definition merged_bytes (Q : nat -> list SendRequest)
  (B : nat -> StackAllocator.t) (i n : nat) : list byte :=
  concat (contribution Q B <$> seq i n).

(** Where the bytes of [owner] start in the receive arena, when the
    owners from [i] on are merged at [offset]. *)
Definition base_at (Q : nat -> list SendRequest)
  (B : nat -> StackAllocator.t) (i : nat) (offset : Z) (owner : nat) : Z :=
  offset + Z.of_nat (length (merged_bytes Q B i (owner - i))).

(** The requests of the owners [i, i + n), owner after owner, each queue
    in its own order and rebased to where its bytes start. *)
Definition merged_queue (Q : nat -> list SendRequest)
  (B : nat -> StackAllocator.t) (i : nat) (offset : Z) (n : nat)
  : list SendRequest :=
  concat ((fun owner => rebase (base_at Q B i offset owner) <$> Q owner)
            <$> seq i n).

(** The vectors and matrix cells [ProcessSendRequests(pid)] indexes are
    there. *)
Definition sends_ready (pid : nat) (s : BSP) : Prop :=
  is_Some (mSendRequests s !! pid)
  /\ is_Some (mSendReceivedIndex s !! pid)
  /\ is_Some (mSendBuffers s !! pid)
  /\ forall owner, (owner < mProcCount s)%nat ->
       is_Some (GetQueueToMe (mTmpSendRequests s) owner pid)
       /\ is_Some (GetQueueToMe (mTmpSendBuffers s) owner pid).








(** ** Notions for the order of [Sync] *)

(** The members no helper of [Sync] writes, the adoption of the tag size
    apart. *)
Definition control_fields (s : BSP) :=
  (mEntry s, mProcCount s, mNewTagSize s, mTagSize s, mEnded s, mAbort s,
   diag s).

(** The phases of the specification, Section 4.5: A is 1, B is 2, C is 3. *)
Definition phase_of (i : instr) : nat :=
  match i with
  | ISyncPoint => 0
  | IAdoptTagSize | IProcessGetRequests => 1
  | IProcessPopRequests | IProcessSendRequests | IProcessPutRequests => 2
  | IClearPutBuffer | IProcessPushRequests => 3
  end.

(** The statements of [Sync] between its barriers, in source order. *)
Definition statements : list instr :=
  filter (fun i => i ≠ ISyncPoint) Sync.

(** The statement a thread ran at an event, if the event is a statement
    of thread [p]. *)
Definition ran (p : nat) (e : event) : option instr :=
  match e with
  | EvRun q i => if decide (q = p) then Some i else None
  | _ => None
  end.

(** The statements thread [p] ran in a trace, in order. *)
Definition thread_events (p : nat) (tr : list event) : list instr :=
  omap (ran p) tr.

(** The number of times the barrier opened in a trace. *)
Definition releases (tr : list event) : nat :=
  length (filter (fun e => e = EvRelease) tr).

(** The number of barriers among the first [k] statements of [Sync]. *)
Definition barriers_before (k : nat) : nat :=
  length (filter (fun i => i = ISyncPoint) (take k Sync)).

(** The statements other than barriers among the first [k] of [Sync]. *)
Definition statements_before (k : nat) : list instr :=
  filter (fun i => i ≠ ISyncPoint) (take k Sync).

(** Thread [p], with [rest] left to run after the trace [tr]: it ran the
    statements before some point [k] of [Sync], in order; and it has left
    [Sync] or stands at [k], past as many barriers as have opened. *)
Definition thread_ok (tr : list event) (p : nat) (rest : list instr) : Prop :=
  exists k,
    thread_events p tr = statements_before k
    /\ (rest = [] \/ (rest = drop k Sync /\ barriers_before k = releases tr)).

(** No statement of a later phase comes before a statement of an earlier
    phase, whichever threads run them. *)
Definition no_overtaking (tr : list event) : Prop :=
  forall n m p q i j,
    tr !! n = Some (EvRun p i) -> tr !! m = Some (EvRun q j) ->
    (phase_of i < phase_of j)%nat -> (n < m)%nat.

(** When a statement runs, each of the [P] threads has run every
    statement of the earlier phases. *)
Definition phases_complete (P : nat) (tr : list event) : Prop :=
  forall n p i,
    tr !! n = Some (EvRun p i) ->
    forall q j, (q < P)%nat -> j ∈ statements ->
      (phase_of j < phase_of i)%nat ->
      exists m, (m < n)%nat /\ tr !! m = Some (EvRun q j).

(** What holds of a trace of [P] threads and the configuration it
    reaches. *)
Definition order_inv (P : nat) (tr : list event) (c : config) : Prop :=
  length (code c) = P
  /\ (forall p rest, code c !! p = Some rest -> thread_ok tr p rest)
  /\ (forall q j, EvRun q j ∈ tr -> phase_of j <= releases tr)%nat
  /\ (forall q j, (q < P)%nat -> j ∈ statements ->
                  (phase_of j < releases tr)%nat -> EvRun q j ∈ tr)
  /\ no_overtaking tr
  /\ phases_complete P tr.

(** Process 0 has sent one byte to process 1 under tag size 0; both
    processes then propose a tag size of 8 and go through [Sync]. *)
Definition retagged : option BSP :=
  s ← one_sent;
  '(_, s) ← SetTagsize 0 8 s;
  '(_, s) ← SetTagsize 1 8 s;
  Sync_in_turn s.

Definition after_retagged : BSP :=
  default (BSP_ctor sample_heap) retagged.

(** ... process 0 then proposes a tag size of 16 ... *)
Definition after_16_proposed : BSP :=
  default after_retagged (snd <$> SetTagsize 0 16 after_retagged).

(** ... and after that the tag size that is current, 8, and all threads
    go through [Sync] in turn. *)
Definition after_8_proposed : BSP :=
  default after_16_proposed (snd <$> SetTagsize 0 8 after_16_proposed).

Definition proposal_run : list event * config :=
  default ([], enter_Sync after_8_proposed)
          (run (in_turn 2) (enter_Sync after_8_proposed)).

(** The two threads of [two_puts] go through [Sync] in turn. *)
Definition puts_run : list event * config :=
  default ([], enter_Sync after_two_puts)
          (run (in_turn 2) (enter_Sync after_two_puts)).

(** ** Notions for further properties *)

(** The calls by which a thread queues a request between two [Sync]s.
    [SetTagsize] is not among them: it writes to [*size]. *)
Inductive request_op :=
  | OpPushReg (ident : Z) (sz : Z)
  | OpPopReg (ident : Z)
  | OpPut (pid : nat) (src dst : Z) (offset : Z) (nbytes : Z)
  | OpGet (pid : nat) (src : Z) (offset : Z) (dst : Z) (nbytes : Z)
  | OpSend (pid : nat) (tag payload : Z) (sz : Z).

(** Thread [tpid] issues one operation. *)
Definition issue (who : nat * request_op) (s : BSP) : option BSP :=
  let '(tpid, op) := who in
  match op with
  | OpPushReg ident sz => PushReg tpid ident sz s
  | OpPopReg ident => PopReg tpid ident s
  | OpPut pid src dst offset nbytes => Put tpid pid src dst offset nbytes s
  | OpGet pid src offset dst nbytes => Get tpid pid src offset dst nbytes s
  | OpSend pid tag payload sz => Send tpid pid tag payload sz s
  end.

(** What user code can observe of the library between two [Sync]s:
    memory, the delivered messages and their arena, the consumption
    indices, the tag size, and the addresses behind the register
    indices. *)
Definition visible (s : BSP) :=
  (heap s, mSendRequests s, mSendBuffers s, mSendReceivedIndex s,
   mTagSize s, mThreadRegisterLocation s, mProcCount s).

(** A few requests by the two threads of [registered]. *)
Definition sample_ops : list (nat * request_op) :=
  [(0%nat, OpPushReg 300 1); (0%nat, OpPut 1 10 100 0 1);
   (1%nat, OpGet 0 200 0 200 1); (1%nat, OpSend 0 0 10 1);
   (0%nat, OpPopReg 100)].

Definition after_sample_ops : BSP :=
  default after_registered (for_each sample_ops issue after_registered).

(** The threads of [two_puts] up to the second barrier of [Sync]. *)
Definition phase_A_run : list event * config :=
  default ([], enter_Sync after_two_puts)
          (run (take 10 (in_turn 2)) (enter_Sync after_two_puts)).

(** Two processes; process 0 proposes a tag size of 8 and process 1 one
    of 4, and both go through [Sync] in turn. *)
Definition after_two_proposals : BSP :=
  default after_booted
          ('(_, s) ← SetTagsize 0 8 after_booted;
           snd <$> SetTagsize 1 4 s).

Definition two_proposals_run : list event * config :=
  default ([], enter_Sync after_two_proposals)
          (run (in_turn 2) (enter_Sync after_two_proposals)).

(** The register counter of [pid] is in step with its index table: it
    counts the addresses already in [mThreadRegisterLocation[pid]] and
    the pushes still queued, and each queued push carries the index at
    which its address will be appended. *)
Definition registers_consistent (pid : nat) (s : BSP) : Prop :=
  exists count locs queue,
    mRegisterCount s !! pid = Some count
    /\ mThreadRegisterLocation s !! pid = Some locs
    /\ mPushRequests s !! pid = Some queue
    /\ count = Z.of_nat (length locs + length queue)
    /\ forall k r, queue !! k = Some r ->
         registerCount (registerInfo r) = Z.of_nat (length locs + k).

(** [mRegisters[pid]] after the pushes of a queue are applied in order. *)
Definition apply_pushes (regs : gmap Z RegisterInfo)
  (queue : list PushRequest) : gmap Z RegisterInfo :=
  foldl (fun m r => <[pushRegister r := registerInfo r]> m) regs queue.

(** Process 0 of [booted 2] has queued the registration of one byte. *)
Definition after_push_queued : BSP :=
  default after_booted (PushReg 0 100 1 after_booted).

(** The Puts that answer a list of Gets, applied in list order, and the
    arena they leave: each Get stages the bytes at its source at the end
    of the arena and becomes a Put of those bytes to its destination. *)
Fixpoint gets_as_puts (m : memory) (stack : list byte) (rs : list GetRequest)
  : list PutRequest * list byte :=
  match rs with
  | [] => ([], stack)
  | r :: rs' =>
      let '(ps, stack') :=
        gets_as_puts m
          (stack ++ read_bytes m (get_source r) (Z.to_nat (get_size r))) rs' in
      (mkPutRequest (Z.of_nat (length stack)) (get_destination r) (get_size r)
         :: ps, stack')
  end.

(** A Put answers a Get: same destination and size, and its range of the
    arena holds the bytes memory [m] has at the source of the Get. *)
Definition answers (m : memory) (stack : StackAllocator.t) (p : PutRequest)
  (r : GetRequest) : Prop :=
  put_destination p = get_destination r
  /\ put_size p = get_size r
  /\ in_arena stack (put_bufferLocation p) (put_size p)
  /\ arena_bytes stack (put_bufferLocation p) (put_size p)
     = read_bytes m (get_source r) (Z.to_nat (get_size r)).

(** The cells [ProcessGetRequests(pid)] indexes are there, and the sizes
    of the queued Gets are sizes. *)
Definition gets_ready (pid : nat) (s : BSP) : Prop :=
  is_Some (mPutBufferStacks s !! pid)
  /\ forall owner, (owner < mProcCount s)%nat ->
       is_Some (GetQueueFromMe (mPutRequests s) owner pid)
       /\ exists gets,
            GetQueueToMe (mGetRequests s) owner pid = Some gets
            /\ Forall (fun r => 0 <= get_size r) gets.

(** Process 1 of [registered] asks for the byte process 0 registered,
    after process 0 has written 0xAA to it. *)
Definition get_queued : option BSP :=
  s ← registered;
  Get 1 0 200 0 200 1 (set_heap (store (heap s) 100 xaa) s).

Definition after_get_queued : BSP :=
  default (BSP_ctor sample_heap) get_queued.

(** * Properties *)

(** ** Memory and arenas *)

Lemma store_eq (m : memory) (a : Z) (b : byte) : store m a b a = b.
Proof. unfold store. now rewrite Z.eqb_refl. Qed.

Lemma store_ne (m : memory) (a a' : Z) (b : byte) :
  a' ≠ a -> store m a b a' = m a'.
Proof. intros H. unfold store. destruct (Z.eqb_spec a' a); [lia | easy]. Qed.

(** Bytes outside the destination range are left as they were. *)
Lemma memcpy_to_outside (bs : list byte) :
  forall (m : memory) (dst a : Z),
    a < dst \/ dst + Z.of_nat (length bs) <= a ->
    memcpy_to m dst bs a = m a.
Proof.
  induction bs as [|b bs IH]; intros m dst a Ha; simpl in *; [easy|].
  rewrite IH by lia. apply store_ne. lia.
Qed.

(** The [i]-th byte of the destination range is the [i]-th byte copied. *)
Lemma memcpy_to_inside (bs : list byte) :
  forall (m : memory) (dst : Z) (i : nat) (b : byte),
    bs !! i = Some b ->
    memcpy_to m dst bs (dst + Z.of_nat i) = b.
Proof.
  induction bs as [|b0 bs IH]; intros m dst i b Hi; [easy|].
  destruct i as [|i].
  - injection Hi as ->. cbn [memcpy_to]. rewrite memcpy_to_outside by lia.
    rewrite Z.add_0_r. apply store_eq.
  - cbn [memcpy_to]. replace (dst + Z.of_nat (S i)) with (dst + 1 + Z.of_nat i)
      by lia.
    now apply IH.
Qed.

Lemma read_bytes_length (m : memory) (n : nat) :
  forall src, length (read_bytes m src n) = n.
Proof. induction n as [|n IH]; intros src; simpl; [easy|]. now rewrite IH. Qed.

Lemma read_bytes_lookup (m : memory) (n : nat) :
  forall (src : Z) (i : nat),
    (i < n)%nat -> read_bytes m src n !! i = Some (m (src + Z.of_nat i)).
Proof.
  induction n as [|n IH]; intros src i Hi; [lia|].
  destruct i as [|i]; cbn [read_bytes].
  - now rewrite Z.add_0_r.
  - change (read_bytes m (src + 1) n !! i = Some (m (src + Z.of_nat (S i)))).
    rewrite IH by lia. do 2 f_equal. lia.
Qed.

(** Reading back what [memcpy_to] wrote. *)
Lemma read_bytes_memcpy_to (bs : list byte) (m : memory) (dst : Z) :
  read_bytes (memcpy_to m dst bs) dst (length bs) = bs.
Proof.
  apply list_eq. intros i.
  destruct (bs !! i) as [b|] eqn:Hi.
  - rewrite read_bytes_lookup by (now apply lookup_lt_Some in Hi).
    f_equal. now apply memcpy_to_inside.
  - apply lookup_ge_None. rewrite read_bytes_length.
    now apply lookup_ge_None in Hi.
Qed.

Lemma read_in_arena (a : StackAllocator.t) (loc n : Z) :
  in_arena a loc n ->
  StackAllocator.read a loc n
  = Some (take (Z.to_nat n) (drop (Z.to_nat loc) (StackAllocator.bytes a))).
Proof.
  intros H. unfold StackAllocator.read.
  destruct (decide _) as [_|Hn]; [easy | now destruct Hn].
Qed.

Lemma read_length (a : StackAllocator.t) (loc n : Z) (bs : list byte) :
  StackAllocator.read a loc n = Some bs -> length bs = Z.to_nat n.
Proof.
  unfold StackAllocator.read, StackAllocator.Size.
  destruct (decide _) as [(H1 & H2 & H3)|]; [|easy].
  intros [= <-]. rewrite length_take, length_drop. lia.
Qed.

Lemma read_lookup (a : StackAllocator.t) (loc n : Z) (bs : list byte)
  (i : nat) :
  StackAllocator.read a loc n = Some bs ->
  (i < Z.to_nat n)%nat ->
  bs !! i = StackAllocator.bytes a !! (Z.to_nat loc + i)%nat.
Proof.
  unfold StackAllocator.read.
  destruct (decide _) as [_|]; [|easy].
  intros [= <-] Hi. now rewrite lookup_take_lt, lookup_drop.
Qed.

(** ** The queue matrix *)

Lemma cell_set_cell_eq {T} (q : CommunicationQueues T) (from to : nat)
  (x y : T) :
  cell q from to = Some y -> cell (set_cell q from to x) from to = Some x.
Proof.
  unfold cell, set_cell. intros H.
  destruct (q !! from) as [row|] eqn:Hrow; simpl in H; [|easy].
  rewrite list_lookup_alter_eq, Hrow. simpl.
  apply list_lookup_insert_eq. now apply lookup_lt_Some in H.
Qed.

Lemma cell_set_cell_ne {T} (q : CommunicationQueues T)
  (from to from' to' : nat) (x : T) :
  (from', to') ≠ (from, to) ->
  cell (set_cell q from to x) from' to' = cell q from' to'.
Proof.
  unfold cell, set_cell. intros H.
  destruct (decide (from' = from)) as [->|Hne].
  - rewrite list_lookup_alter_eq.
    destruct (q !! from) as [row|]; simpl; [|easy].
    apply list_lookup_insert_ne. congruence.
  - now rewrite list_lookup_alter_ne.
Qed.

Lemma cell_set_cell_is_Some {T} (q : CommunicationQueues T)
  (from to from' to' : nat) (x : T) :
  is_Some (cell q from' to') -> is_Some (cell (set_cell q from to x) from' to').
Proof.
  intros [y Hy]. destruct (decide ((from', to') = (from, to))) as [Heq|Hne].
  - injection Heq as -> ->. exists x. now apply (cell_set_cell_eq _ _ _ _ y).
  - exists y. now rewrite cell_set_cell_ne.
Qed.

(** Appending to an arena moves no range that lies within it. *)
Lemma arena_grows (a : StackAllocator.t) (more : list byte) (loc n : Z) :
  in_arena a loc n ->
  in_arena (StackAllocator.Build (StackAllocator.bytes a ++ more)) loc n
  /\ arena_bytes (StackAllocator.Build (StackAllocator.bytes a ++ more))
                 loc n
     = arena_bytes a loc n.
Proof.
  intros (H1 & H2 & H3). unfold in_arena, arena_bytes, StackAllocator.Size in *.
  cbn [StackAllocator.bytes]. rewrite length_app. split; [lia|].
  rewrite drop_app_le by lia. apply take_app_le. rewrite length_drop. lia.
Qed.

(** The bytes just allocated are found at the offset [Alloc] returned. *)
Lemma arena_fresh (a : StackAllocator.t) (more : list byte) :
  in_arena (StackAllocator.Build (StackAllocator.bytes a ++ more))
           (StackAllocator.Size a) (Z.of_nat (length more))
  /\ arena_bytes (StackAllocator.Build (StackAllocator.bytes a ++ more))
                 (StackAllocator.Size a) (Z.of_nat (length more))
     = more.
Proof.
  unfold in_arena, arena_bytes, StackAllocator.Size.
  cbn [StackAllocator.bytes]. rewrite length_app. split; [lia|].
  rewrite !Nat2Z.id, drop_app_length. apply firstn_all.
Qed.

(** ** [QSize] *)

Lemma foldl_add64_total (q : list SendRequest) :
  forall a : Z,
    foldl (fun acc request => add64 acc (bufferSize request))
          (a mod size_t_modulus) q
    = (a + total_payload q) mod size_t_modulus.
Proof.
  induction q as [|r q IH]; intros a; simpl.
  - now rewrite Z.add_0_r.
  - unfold add64 at 2. rewrite Zplus_mod_idemp_l, IH. f_equal. lia.
Qed.

Lemma total_payload_nonneg (q : list SendRequest) :
  Forall (fun r => 0 <= bufferSize r) q -> 0 <= total_payload q.
Proof. induction 1; simpl; lia. Qed.

(** C4, as the code has it.  [QSize] reports on the queue of the sends
    delivered to the caller at the last [Sync], [mSendRequests[pid]]:
    [*packets] is its length (consumed entries included) and
    [*accumulatedSize], when asked for, is the sum of the payload sizes of
    its entries, both as [size_t] values. *)
Theorem QSize_reports_delivered (pid : nat) (s : BSP) (q : list SendRequest) :
  mSendRequests s !! pid = Some q ->
  exists packets total : Z,
    QSize pid true s = Some (packets, Some total)
    /\ QSize pid false s = Some (packets, None)
    /\ packets = Z.of_nat (length q) mod size_t_modulus
    /\ total = total_payload q mod size_t_modulus
    /\ (Z.of_nat (length q) <= SIZE_MAX -> packets = Z.of_nat (length q))
    /\ (Forall (fun r => 0 <= bufferSize r) q ->
        total_payload q <= SIZE_MAX -> total = total_payload q).
Proof.
  intros Hq. unfold QSize. rewrite Hq. simpl.
  eexists _, _. split; [reflexivity|]. split; [reflexivity|].
  split; [reflexivity|].
  split; [apply (foldl_add64_total q 0)|].
  split.
  - intros Hlen. unfold add64. simpl. apply Z.mod_small.
    unfold SIZE_MAX in Hlen. lia.
  - intros Hpos Htot. change 0 with (0 mod size_t_modulus) at 1.
    rewrite foldl_add64_total. simpl. apply Z.mod_small.
    apply total_payload_nonneg in Hpos. unfold SIZE_MAX in Htot. lia.
Qed.

Lemma QSize_reports_delivered_witness :
  mSendRequests after_one_delivered !! 1%nat = Some [mkSendRequest 0 1 1 0]
  /\ QSize 1 true after_one_delivered = Some (1, Some 1).
Proof.
  assert (Hq : mSendRequests after_one_delivered !! 1%nat
               = Some [mkSendRequest 0 1 1 0]) by (vm_compute; reflexivity).
  split; [exact Hq|].
  destruct (QSize_reports_delivered 1 after_one_delivered _ Hq)
    as (packets & total & H & _ & Hp & Ht & _).
  rewrite H, Hp, Ht. reflexivity.
Defined.

(** C4, counterexample.  Process 0 has issued one send of one byte, so
    its outbound queue holds one message; no [Sync] has delivered anything
    to it, and [QSize] reports no message and no byte. *)
Lemma QSize_not_outbound :
  one_sent = Some after_one_sent
  /\ length (outbound 0 after_one_sent) = 1%nat
  /\ total_payload (outbound 0 after_one_sent) = 1
  /\ QSize 0 true after_one_sent = Some (0, Some 0).
Proof.
  split; [vm_compute; reflexivity|].
  split; [vm_compute; reflexivity|].
  split; vm_compute; reflexivity.
Qed.

(** ** [GetTag] and [Move] *)

(** C5, as the code has it.  [GetTag] looks at the entry of the delivered
    queue at the consumption index.  When there is none, be the queue
    empty or every entry of it consumed, [*status] is [SIZE_MAX] and
    nothing else changes.  When there is one and it was sent under the
    tag size that is current, [*status] is its payload size and its tag
    bytes are copied to [tag]; when it was sent under another tag size
    the assertion on the tag size fails.  A payload lies within the
    receive arena, which is smaller than [SIZE_MAX] bytes, so whenever
    [GetTag] returns, [*status] is [SIZE_MAX] exactly when no unconsumed
    entry is left. *)
Theorem GetTag_peeks_next (pid : nat) (tag : Z) (s : BSP)
  (q : list SendRequest) (index : Z) (buf : StackAllocator.t) :
  mSendRequests s !! pid = Some q ->
  mSendReceivedIndex s !! pid = Some index ->
  0 <= index ->
  mSendBuffers s !! pid = Some buf ->
  StackAllocator.Size buf < SIZE_MAX ->
  (forall r, q !! Z.to_nat index = Some r -> send_in_arena buf r) ->
  (forall status s',
      GetTag pid tag s = Some (status, s') ->
      (status = SIZE_MAX <-> (length q <= Z.to_nat index)%nat))
  /\ (q !! Z.to_nat index = None -> GetTag pid tag s = Some (SIZE_MAX, s))
  /\ (forall r, q !! Z.to_nat index = Some r ->
        (tagSize r = mTagSize s ->
         exists s' : BSP,
           GetTag pid tag s = Some (bufferSize r, s')
           /\ s' = set_heap (heap s') s
           /\ read_bytes (heap s') tag (Z.to_nat (tagSize r))
              = arena_bytes buf (tagLocation r) (tagSize r)
           /\ forall a, a < tag \/ tag + tagSize r <= a ->
                        heap s' a = heap s a)
        /\ (tagSize r ≠ mTagSize s -> GetTag pid tag s = None)).
Proof.
  intros Hq Hi Hpos Hbuf Hfit Hnext.
  unfold GetTag. rewrite Hi, Hq. cbn [mbind option_bind].
  destruct (q !! Z.to_nat index) as [r|] eqn:Hr.
  - destruct (Hnext r eq_refl) as [Hpay Htag].
    pose proof (lookup_lt_Some _ _ _ Hr) as Hlt.
    destruct (decide _) as [_|Hn].
    2:{ exfalso. apply Hn. split; [now intros ->|lia]. }
    cbn [mbind option_bind]. unfold assert.
    destruct (decide (tagSize r = mTagSize s)) as [Hts|Hts];
      cbn [mbind option_bind].
    + rewrite Hbuf. cbn [mbind option_bind]. unfold StackAllocator.Extract.
      rewrite (read_in_arena _ _ _ Htag). cbn [mbind option_bind fmap option_fmap option_map].
      split; [|split; [easy|]].
      * intros status s' [= <- _]. split; [|lia]. intros Hmax. exfalso.
        destruct Hpay as (H1 & H2 & H3). unfold SIZE_MAX in *. lia.
      * intros r' [= <-]. split; [|easy]. intros _.
        eexists. split; [reflexivity|]. split; [reflexivity|].
        cbn [heap set_heap]. destruct Htag as (H1 & H2 & H3). split.
        -- fold (arena_bytes buf (tagLocation r) (tagSize r)).
           assert (Hlen : length (arena_bytes buf (tagLocation r) (tagSize r))
                          = Z.to_nat (tagSize r)).
           { unfold arena_bytes, StackAllocator.Size in *.
             rewrite length_take, length_drop. lia. }
           rewrite <- Hlen at 1. apply read_bytes_memcpy_to.
        -- intros a Ha. apply memcpy_to_outside.
           unfold StackAllocator.Size in H3.
           rewrite length_take, length_drop. lia.
    + split; [easy|]. split; [easy|].
      intros r' [= <-]. split; [easy | reflexivity].
  - pose proof (proj1 (lookup_ge_None _ _) Hr) as Hge.
    destruct (decide _) as [[_ Hn]|_]; [lia|].
    split; [|split; [reflexivity | easy]].
    intros status s' [= <- _]. easy.
Qed.

Lemma GetTag_peeks_next_witness :
  mSendRequests after_one_delivered !! 1%nat = Some [mkSendRequest 0 1 1 0]
  /\ mSendReceivedIndex after_one_delivered !! 1%nat = Some 0
  /\ mTagSize after_one_delivered = 0
  /\ (exists s', GetTag 1 300 after_one_delivered = Some (1, s'))
  /\ retagged = Some after_retagged
  /\ mSendRequests after_retagged !! 1%nat = Some [mkSendRequest 0 1 1 0]
  /\ mSendReceivedIndex after_retagged !! 1%nat = Some 0
  /\ mTagSize after_retagged = 8
  /\ GetTag 1 300 after_retagged = None.
Proof.
  assert (Hq : mSendRequests after_one_delivered !! 1%nat
               = Some [mkSendRequest 0 1 1 0]) by (vm_compute; reflexivity).
  assert (Hi : mSendReceivedIndex after_one_delivered !! 1%nat = Some 0)
    by (vm_compute; reflexivity).
  assert (Hb : mSendBuffers after_one_delivered !! 1%nat
               = Some (StackAllocator.Build [xaa]))
    by (vm_compute; reflexivity).
  assert (Ht : mTagSize after_one_delivered = 0) by (vm_compute; reflexivity).
  assert (Hq' : mSendRequests after_retagged !! 1%nat
                = Some [mkSendRequest 0 1 1 0]) by (vm_compute; reflexivity).
  assert (Hi' : mSendReceivedIndex after_retagged !! 1%nat = Some 0)
    by (vm_compute; reflexivity).
  assert (Hb' : mSendBuffers after_retagged !! 1%nat
                = Some (StackAllocator.Build [xaa]))
    by (vm_compute; reflexivity).
  assert (Ht' : mTagSize after_retagged = 8) by (vm_compute; reflexivity).
  assert (Hin : forall r, [mkSendRequest 0 1 1 0] !! Z.to_nat 0 = Some r ->
                          send_in_arena (StackAllocator.Build [xaa]) r).
  { intros r [= <-].
    unfold send_in_arena, in_arena, StackAllocator.Size. simpl. lia. }
  split; [exact Hq|]. split; [exact Hi|]. split; [exact Ht|]. split.
  { destruct (GetTag_peeks_next 1 300 after_one_delivered _ 0 _ Hq Hi
                (Z.le_refl 0) Hb) as (_ & _ & Hnext).
    - vm_compute. reflexivity.
    - exact Hin.
    - destruct (Hnext _ eq_refl) as [Hsame _].
      destruct Hsame as (s' & Hget & _); [now rewrite Ht|].
      now exists s'. }
  split; [vm_compute; reflexivity|].
  split; [exact Hq'|]. split; [exact Hi'|]. split; [exact Ht'|].
  destruct (GetTag_peeks_next 1 300 after_retagged _ 0 _ Hq' Hi'
              (Z.le_refl 0) Hb') as (_ & _ & Hnext).
  - vm_compute. reflexivity.
  - exact Hin.
  - destruct (Hnext _ eq_refl) as [_ Hdiff]. apply Hdiff.
    rewrite Ht'. cbn. lia.
Defined.

(** C5, counterexample.  Process 1 was sent one message and has moved it.
    Its delivered queue still holds that entry, so the queue is not empty,
    and yet [GetTag] reports [SIZE_MAX]. *)
Lemma GetTag_SIZE_MAX_queue_not_empty :
  one_moved = Some after_one_moved
  /\ mSendRequests after_one_moved !! 1%nat = Some [mkSendRequest 0 1 1 0]
  /\ GetTag 1 300 after_one_moved = Some (SIZE_MAX, after_one_moved).
Proof.
  split; [vm_compute; reflexivity|].
  split; vm_compute; reflexivity.
Qed.

(** C6.  When the delivered queue of the caller has an entry at the
    consumption index, [Move] copies the first [min(max_copy_size_in,
    bufferSize)] bytes of that entry's payload to [payload], leaves every
    other byte of memory as it was, and advances the consumption index by
    one; nothing else changes. *)
Theorem Move_consumes_head (pid : nat) (payload max_copy_size_in : Z)
  (s : BSP) (q : list SendRequest) (index : Z) (r : SendRequest)
  (buf : StackAllocator.t) :
  mSendRequests s !! pid = Some q ->
  mSendReceivedIndex s !! pid = Some index ->
  0 <= index ->
  q !! Z.to_nat index = Some r ->
  Z.of_nat (length q) <= SIZE_MAX ->
  mSendBuffers s !! pid = Some buf ->
  in_arena buf (bufferLocation r) (bufferSize r) ->
  0 <= max_copy_size_in ->
  let copySize := Z.min max_copy_size_in (bufferSize r) in
  exists s' : BSP,
    Move pid payload max_copy_size_in s = Some s'
    /\ s' = set_heap (heap s')
              (set_mSendReceivedIndex
                 (<[pid := index + 1]> (mSendReceivedIndex s)) s)
    /\ read_bytes (heap s') payload (Z.to_nat copySize)
       = arena_bytes buf (bufferLocation r) copySize
    /\ forall a, a < payload \/ payload + copySize <= a ->
                 heap s' a = heap s a.
Proof.
  intros Hq Hi Hpos Hr Hlen Hbuf (H1 & H2 & H3) Hmax copySize.
  pose proof (lookup_lt_Some _ _ _ Hr) as Hlt.
  assert (Hin : in_arena buf (bufferLocation r) copySize)
    by (unfold in_arena, copySize; lia).
  assert (Hcl : length (arena_bytes buf (bufferLocation r) copySize)
                = Z.to_nat copySize).
  { unfold arena_bytes, StackAllocator.Size in *.
    rewrite length_take, length_drop. lia. }
  unfold Move. rewrite Hq. simpl.
  destruct (decide (q = [])) as [->|_]; [easy|].
  rewrite Hi. simpl. rewrite Hr. simpl. rewrite Hbuf. simpl.
  unfold StackAllocator.Extract. fold copySize.
  rewrite (read_in_arena _ _ _ Hin). simpl.
  fold (arena_bytes buf (bufferLocation r) copySize).
  assert (Hadd : add64 index 1 = index + 1).
  { unfold add64. apply Z.mod_small. unfold SIZE_MAX in Hlen. lia. }
  rewrite Hadd.
  eexists. split; [reflexivity|]. split; [reflexivity|]. simpl. split.
  - rewrite <- Hcl at 1. apply read_bytes_memcpy_to.
  - intros a Ha. apply memcpy_to_outside. rewrite Hcl. lia.
Qed.

Lemma Move_consumes_head_witness :
  mSendRequests after_one_delivered !! 1%nat = Some [mkSendRequest 0 1 1 0]
  /\ exists s',
       Move 1 300 8 after_one_delivered = Some s'
       /\ mSendReceivedIndex s' = [0; 1]
       /\ heap s' 300 = xaa.
Proof.
  assert (Hq : mSendRequests after_one_delivered !! 1%nat
               = Some [mkSendRequest 0 1 1 0]) by (vm_compute; reflexivity).
  assert (Hi : mSendReceivedIndex after_one_delivered !! 1%nat = Some 0)
    by (vm_compute; reflexivity).
  assert (Hb : mSendBuffers after_one_delivered !! 1%nat
               = Some (StackAllocator.Build [xaa]))
    by (vm_compute; reflexivity).
  split; [exact Hq|].
  destruct (Move_consumes_head 1 300 8 after_one_delivered _ 0
              (mkSendRequest 0 1 1 0) (StackAllocator.Build [xaa])
              Hq Hi (Z.le_refl 0) eq_refl)
    as (s' & Hmove & Hs' & Hread & _).
  - vm_compute. discriminate.
  - exact Hb.
  - unfold in_arena, StackAllocator.Size. simpl. lia.
  - lia.
  - exists s'. split; [exact Hmove|]. split.
    + rewrite Hs'. vm_compute. reflexivity.
    + simpl in Hread. now injection Hread.
Defined.

(** C10, the code at the failing input.  Process 1 was sent one message
    and has moved it: its delivered queue has one entry and its
    consumption index is 1.  The queue is not empty, so the next [Move]
    indexes it at 1, one past its last entry, and has no result. *)
Lemma Move_reads_past_end :
  one_moved = Some after_one_moved
  /\ mSendRequests after_one_moved !! 1%nat = Some [mkSendRequest 0 1 1 0]
  /\ mSendReceivedIndex after_one_moved !! 1%nat = Some 1
  /\ Move 1 300 1 after_one_moved = None.
Proof.
  split; [vm_compute; reflexivity|].
  split; [vm_compute; reflexivity|].
  split; vm_compute; reflexivity.
Qed.

(** ** [ProcessPopRequests] *)

Lemma set_mRegisters_same (s : BSP) : set_mRegisters (mRegisters s) s = s.
Proof. now destruct s. Qed.

Lemma lookup_after_pops (queue : list PopRequest) :
  forall (regs : gmap Z RegisterInfo) (a : Z),
    foldl (fun m r => delete (popRegister r) m) regs queue !! a
    = if decide (a ∈ popRegister <$> queue) then None else regs !! a.
Proof.
  induction queue as [|r queue IH]; intros regs a.
  - case_decide as H; [|easy]. now apply elem_of_nil in H.
  - cbn [foldl]. rewrite IH, fmap_cons.
    destruct (decide (a = popRegister r)) as [->|Hne].
    + rewrite lookup_delete_eq.
      destruct (decide (popRegister r ∈ popRegister <$> queue));
        destruct (decide (popRegister r
                            ∈ popRegister r :: (popRegister <$> queue)))
        as [|Hn]; try easy.
      all: exfalso; apply Hn; apply elem_of_cons; now left.
    + rewrite lookup_delete_ne by congruence.
      destruct (decide (a ∈ popRegister <$> queue)) as [H1|H1];
        destruct (decide (a ∈ popRegister r :: (popRegister <$> queue)))
        as [H2|H2]; try easy.
      * exfalso. apply H2. apply elem_of_cons. now right.
      * apply elem_of_cons in H2 as [H2|H2]; [congruence | easy].
Qed.

Lemma pop_loop (pid : nat) (queue : list PopRequest) :
  forall (s : BSP) (regs : gmap Z RegisterInfo),
    mRegisters s !! pid = Some regs ->
    for_each queue
      (fun popRequest s =>
         regs ← mRegisters s !! pid;
         Some (set_mRegisters
                 (<[pid := delete (popRegister popRequest) regs]>
                    (mRegisters s)) s)) s
    = Some (set_mRegisters
              (<[pid := foldl (fun m r => delete (popRegister r) m) regs queue]>
                 (mRegisters s)) s).
Proof.
  induction queue as [|r queue IH]; intros s regs Hregs; simpl.
  - now rewrite list_insert_id, set_mRegisters_same.
  - rewrite Hregs. simpl.
    rewrite (IH _ (delete (popRegister r) regs)).
    + simpl. now rewrite list_insert_insert_eq.
    + simpl. apply list_lookup_insert_eq. now apply lookup_lt_Some in Hregs.
Qed.

(** C8.  [ProcessPopRequests] erases the popped addresses from the
    caller's [mRegisters] map (local_to_index) and empties its pop queue.
    The maps of the other processes and every [mThreadRegisterLocation]
    sequence (index_to_address) are as before: no index is compacted
    away, and a global index resolves to the address it resolved to. *)
Theorem ProcessPopRequests_keeps_index_table (pid : nat) (s : BSP)
  (queue : list PopRequest) (regs : gmap Z RegisterInfo) :
  mPopRequests s !! pid = Some queue ->
  mRegisters s !! pid = Some regs ->
  exists (s' : BSP) (regs' : gmap Z RegisterInfo),
    ProcessPopRequests pid s = Some s'
    /\ mRegisters s' = <[pid := regs']> (mRegisters s)
    /\ (forall a, regs' !! a
                  = if decide (a ∈ popRegister <$> queue) then None
                    else regs !! a)
    /\ mThreadRegisterLocation s' = mThreadRegisterLocation s
    /\ (forall p g, (mThreadRegisterLocation s' !! p) ≫= (.!! g)
                    = (mThreadRegisterLocation s !! p) ≫= (.!! g))
    /\ mPopRequests s' !! pid = Some [].
Proof.
  intros Hqueue Hregs. unfold ProcessPopRequests. rewrite Hqueue. simpl.
  destruct (decide (queue ≠ [])) as [Hne|He].
  - rewrite (pop_loop pid queue s regs Hregs). simpl.
    eexists _, _. split; [reflexivity|]. simpl.
    split; [reflexivity|]. split; [apply lookup_after_pops|].
    split; [reflexivity|]. split; [reflexivity|].
    apply list_lookup_insert_eq. now apply lookup_lt_Some in Hqueue.
  - assert (queue = []) as -> by (destruct queue; [easy | now destruct He]).
    exists s, regs. split; [reflexivity|].
    split; [now rewrite list_insert_id|].
    split; [intros a; case_decide as H;
            [now apply elem_of_nil in H | easy]|].
    easy.
Qed.

Lemma ProcessPopRequests_keeps_index_table_witness :
  mPopRequests after_pop_queued !! 0%nat = Some [mkPopRequest 100]
  /\ exists s',
       ProcessPopRequests 0 after_pop_queued = Some s'
       /\ (mRegisters s' !! 0%nat) ≫= (.!! 100) = None
       /\ mThreadRegisterLocation s' = [[100]; [200]].
Proof.
  assert (Hq : mPopRequests after_pop_queued !! 0%nat
               = Some [mkPopRequest 100]) by (vm_compute; reflexivity).
  assert (Hr : mRegisters after_pop_queued !! 0%nat
               = Some {[100 := mkRegisterInfo 1 0]})
    by (vm_compute; reflexivity).
  split; [exact Hq|].
  destruct (ProcessPopRequests_keeps_index_table 0 after_pop_queued _ _ Hq Hr)
    as (s' & regs' & Hrun & Hregs & Hlook & Hloc & _).
  exists s'. split; [exact Hrun|]. split.
  - rewrite Hregs, list_lookup_insert_eq by (vm_compute; lia).
    simpl. rewrite Hlook. reflexivity.
  - rewrite Hloc. vm_compute. reflexivity.
Defined.

(** ** [Init] *)

Lemma for_each_app {A S : Type} (body : A -> S -> option S) (xs ys : list A) :
  forall s, for_each (xs ++ ys) body s
            = for_each xs body s ≫= for_each ys body.
Proof.
  induction xs as [|x xs IH]; intros s; simpl; [easy|].
  destruct (body x s) as [s'|]; simpl; [apply IH | easy].
Qed.

Lemma unfinished_run_nil : ~ unfinished_run [].
Proof. intros (h1 & n & h2 & H & _). now destruct h1. Qed.

(** The last call decides: it starts a run, or it does not terminate one
    that was unfinished. *)
Lemma unfinished_run_snoc (h : list lifecycle) (op : lifecycle) :
  unfinished_run (h ++ [op])
  <-> (exists maxProcs, op = LBegin 0 maxProcs)
      \/ (terminates_run op = false /\ unfinished_run h).
Proof.
  split.
  - intros (h1 & n & h2 & Heq & Hall).
    destruct h2 as [|x h2 _] using rev_ind.
    + apply app_inj_tail in Heq as [_ ->]. left. now exists n.
    + right. rewrite app_comm_cons, app_assoc in Heq.
      apply app_inj_tail in Heq as [-> ->].
      apply Forall_app in Hall as [Hall Hx].
      split; [now inversion Hx|]. now exists h1, n, h2.
  - intros [[n ->]|[Hop (h1 & n & h2 & -> & Hall)]].
    + exists h, n, []. now split.
    + exists h1, n, (h2 ++ [op]). split.
      * now rewrite <- app_assoc.
      * apply Forall_app. split; [easy|]. now constructor.
Qed.

Lemma Init_keeps_flags (entry : option nat) (s : BSP) :
  mEnded (fst (Init entry s)) = mEnded s
  /\ mAbort (fst (Init entry s)) = mAbort s.
Proof.
  unfold Init. simpl.
  now destruct (negb (mEnded s) && negb (mAbort s)).
Qed.

(** [Begin] on a process other than 0 touches neither flag. *)
Lemma Begin_worker_keeps_flags (pid maxProcs : nat) (s s' : BSP) :
  pid ≠ 0%nat ->
  Begin pid maxProcs s = Some s' ->
  mEnded s' = mEnded s /\ mAbort s' = mAbort s.
Proof.
  intros Hp. unfold Begin, assert.
  destruct (decide (pid ≠ 0%nat)) as [_|]; [|easy].
  destruct (decide (maxProcs = _)); simpl; [|easy].
  destruct (decide (pid < maxProcs)%nat); simpl; [|easy].
  intros [= <-]. now destruct (decide (Z.of_nat pid = _)).
Qed.

(** [Begin] on process 0 clears both flags. *)
Lemma Begin_main_clears_flags (maxProcs : nat) (s : BSP) :
  exists s', Begin 0 maxProcs s = Some s'
             /\ mEnded s' = false /\ mAbort s' = false.
Proof. unfold Begin. simpl. eexists. split; [reflexivity|]. now simpl. Qed.

(** The two flags [Init] tests are both clear exactly when the calls made
    so far leave a run unfinished. *)
Lemma flags_after_replay (m : memory) (h : list lifecycle) :
  forall s,
    replay h (BSP_ctor m) = Some s ->
    (mEnded s = false /\ mAbort s = false) <-> unfinished_run h.
Proof.
  unfold replay.
  induction h as [|op h IH] using rev_ind; intros s Hs.
  - injection Hs as <-. simpl. split; [now intros [? _]|].
    intros H. now apply unfinished_run_nil in H.
  - rewrite for_each_app in Hs.
    destruct (for_each h lifecycle_step (BSP_ctor m)) as [s1|] eqn:H1;
      [|easy].
    specialize (IH s1 eq_refl). cbn [mbind option_bind for_each] in Hs.
    destruct (lifecycle_step op s1) as [s2|] eqn:H2; [|easy].
    cbn [mbind option_bind] in Hs. injection Hs as <-.
    rewrite unfinished_run_snoc, <- IH.
    destruct op as [entry|pid maxProcs| |message]; cbn [lifecycle_step] in H2.
    + assert (s2 = fst (Init entry s1)) as -> by congruence.
      destruct (Init_keeps_flags entry s1) as [-> ->].
      split; [intros H; right; now split|].
      intros [[n Hn]|[_ H]]; [easy | exact H].
    + destruct (decide (pid = 0%nat)) as [->|Hp].
      * destruct (Begin_main_clears_flags maxProcs s1) as (s' & Hb & He & Ha).
        rewrite Hb in H2. injection H2 as <-.
        split; [intros _; left; now exists maxProcs | now intros _].
      * destruct (Begin_worker_keeps_flags _ _ _ _ Hp H2) as [-> ->].
        split; [intros H; right; now split|].
        intros [[n Hn]|[_ H]]; [congruence | exact H].
    + injection H2 as <-. simpl.
      split; [now intros [? _]|intros [[n Hn]|[Hn _]]; easy].
    + injection H2 as <-. simpl.
      split; [now intros [_ ?]|intros [[n Hn]|[Hn _]]; easy].
Qed.

(** C9.  [Init] records the entry function and resets the caller's
    [ProcId()] to 0.  It appends its two-line warning to [stderr] exactly
    when the calls made before it left a run unfinished, that is, started
    by [Begin] and terminated neither by [End] nor by [Abort]; otherwise
    it writes nothing. *)
Theorem Init_warns_iff_unfinished (m : memory) (h : list lifecycle)
  (entry : option nat) (s : BSP) :
  replay h (BSP_ctor m) = Some s ->
  mEntry (fst (Init entry s)) = entry
  /\ snd (Init entry s) = 0%nat
  /\ (diag (fst (Init entry s)) = diag s ++ init_warning
      <-> unfinished_run h)
  /\ (diag (fst (Init entry s)) = diag s <-> ~ unfinished_run h).
Proof.
  intros Hs. apply flags_after_replay in Hs.
  assert (Hw : forall l : list string, l ++ init_warning ≠ l).
  { intros l H. apply (f_equal length) in H.
    rewrite length_app in H. simpl in H. lia. }
  unfold Init. simpl. rewrite <- Hs.
  destruct (mEnded s), (mAbort s); simpl.
  all: split; [reflexivity|]; split; [reflexivity|].
  all: split; split; try easy; try (intros [? ?]; easy).
  all: try (intros H; symmetry in H; now apply Hw in H).
  all: try (intros H; now apply Hw in H).
  all: try (intros H; exfalso; apply H; now split).
Qed.

Lemma Init_warns_iff_unfinished_witness :
  replay [LInit None; LBegin 0 2] (BSP_ctor sample_heap) = Some after_booted
  /\ diag (fst (Init None after_booted)) = diag after_booted ++ init_warning.
Proof.
  assert (Hr : replay [LInit None; LBegin 0 2] (BSP_ctor sample_heap)
               = Some after_booted) by (vm_compute; reflexivity).
  split; [exact Hr|].
  destruct (Init_warns_iff_unfinished sample_heap _ None _ Hr)
    as (_ & _ & [_ Hw] & _).
  apply Hw. exists [LInit None], 2%nat, []. split; [reflexivity | constructor].
Defined.

(** ** [ProcessPutRequests] *)

Lemma set_heap_same (s : BSP) : set_heap (heap s) s = s.
Proof. now destruct s. Qed.

Lemma set_mPutRequests_same (s : BSP) :
  set_mPutRequests (mPutRequests s) s = s.
Proof. now destruct s. Qed.

Lemma apply_put_in_arena (owner : nat) (stack : StackAllocator.t)
  (r : PutRequest) (s : BSP) :
  mPutBufferStacks s !! owner = Some stack ->
  in_arena stack (put_bufferLocation r) (put_size r) ->
  apply_put owner r s = Some (set_heap (write_put stack (heap s) r) s).
Proof.
  intros Hstack Hr. unfold apply_put. rewrite Hstack. cbn [mbind option_bind].
  unfold StackAllocator.Extract. now rewrite (read_in_arena _ _ _ Hr).
Qed.

(** The inner loop: the requests are applied in the order of the list. *)
Lemma apply_put_loop (owner : nat) (stack : StackAllocator.t)
  (rs : list PutRequest) :
  forall s,
    mPutBufferStacks s !! owner = Some stack ->
    Forall (fun r => in_arena stack (put_bufferLocation r) (put_size r)) rs ->
    for_each rs (apply_put owner) s
    = Some (set_heap (foldl (write_put stack) (heap s) rs) s).
Proof.
  induction rs as [|r rs IH]; intros s Hstack Hall; cbn [for_each foldl].
  - now rewrite set_heap_same.
  - apply Forall_cons in Hall as [Hr Hall].
    rewrite (apply_put_in_arena owner stack r s Hstack Hr).
    cbn [mbind option_bind]. rewrite IH by easy. reflexivity.
Qed.

Lemma write_put_outside (stack : StackAllocator.t) (m : memory)
  (r : PutRequest) (a : Z) :
  ~ put_covers r a -> write_put stack m r a = m a.
Proof.
  intros Hn. unfold write_put. apply memcpy_to_outside.
  unfold put_covers in Hn. unfold arena_bytes.
  rewrite length_take. lia.
Qed.

Lemma write_put_inside (stack : StackAllocator.t) (m : memory)
  (r : PutRequest) (a : Z) :
  in_arena stack (put_bufferLocation r) (put_size r) ->
  put_covers r a ->
  Some (write_put stack m r a)
  = StackAllocator.bytes stack
      !! Z.to_nat (put_bufferLocation r + (a - put_destination r)).
Proof.
  intros (H1 & H2 & H3) [Hlo Hhi]. unfold write_put.
  set (i := Z.to_nat (a - put_destination r)).
  assert (Hb : arena_bytes stack (put_bufferLocation r) (put_size r) !! i
               = StackAllocator.bytes stack
                   !! Z.to_nat (put_bufferLocation r + (a - put_destination r))).
  { unfold arena_bytes. rewrite lookup_take_lt by (unfold i; lia).
    rewrite lookup_drop. f_equal. unfold i. lia. }
  destruct (arena_bytes stack (put_bufferLocation r) (put_size r) !! i)
    as [b|] eqn:Hi.
  - rewrite <- Hb. f_equal.
    replace a with (put_destination r + Z.of_nat i) at 1 by (unfold i; lia).
    now apply memcpy_to_inside.
  - exfalso. apply lookup_ge_None in Hi. unfold arena_bytes in Hi.
    unfold StackAllocator.Size in H3.
    rewrite length_take, length_drop in Hi. unfold i in Hi. lia.
Qed.

Lemma writes_outside (stack : StackAllocator.t) (rs : list PutRequest)
  (a : Z) :
  forall m, Forall (fun r => ~ put_covers r a) rs ->
            foldl (write_put stack) m rs a = m a.
Proof.
  induction rs as [|r rs IH]; intros m Hall; simpl; [easy|].
  apply Forall_cons in Hall as [Hr Hall].
  rewrite IH by easy. now apply write_put_outside.
Qed.

Lemma heap_after_puts_outside (pid : nat) (s : BSP) (owners : list nat)
  (a : Z) :
  forall m,
    (forall o r, o ∈ owners -> r ∈ puts_to pid s o -> ~ put_covers r a) ->
    heap_after_puts pid s owners m a = m a.
Proof.
  unfold heap_after_puts.
  induction owners as [|o owners IH]; intros m Hno; simpl; [easy|].
  rewrite IH.
  - apply writes_outside. apply Forall_forall. intros r Hr.
    apply (Hno o); [apply elem_of_cons; now left|].
    exact (proj1 (elem_of_reverse _ _) Hr).
  - intros o' r Ho'. apply Hno. apply elem_of_cons. now right.
Qed.

Lemma heap_after_puts_ext (pid : nat) (s s' : BSP) (owners : list nat) :
  forall m,
    (forall o, o ∈ owners ->
               puts_to pid s' o = puts_to pid s o
               /\ put_stack s' o = put_stack s o) ->
    heap_after_puts pid s' owners m = heap_after_puts pid s owners m.
Proof.
  unfold heap_after_puts.
  induction owners as [|o owners IH]; intros m Hsame; simpl; [easy|].
  destruct (Hsame o) as [-> ->]; [apply elem_of_cons; now left|].
  apply IH. intros o' Ho'. apply Hsame. apply elem_of_cons. now right.
Qed.

(** The loop over the owners [i, i + n). *)
Lemma put_owner_loop (pid : nat) (n : nat) :
  forall (i : nat) (s : BSP),
    (forall owner, (i <= owner < i + n)%nat ->
       exists q stack,
         GetQueueToMe (mPutRequests s) owner pid = Some q
         /\ mPutBufferStacks s !! owner = Some stack
         /\ Forall (fun r => in_arena stack (put_bufferLocation r)
                                      (put_size r)) q) ->
    exists Q,
      for_each (seq i n) (fun owner s =>
        putQueue ← GetQueueToMe (mPutRequests s) owner pid;
        if decide (putQueue ≠ []) then
          s ← for_each (reverse putQueue) (apply_put owner) s;
          Some (set_mPutRequests (set_cell (mPutRequests s) owner pid []) s)
        else Some s) s
      = Some (set_mPutRequests Q
                (set_heap (heap_after_puts pid s (seq i n) (heap s)) s))
      /\ (forall owner, (i <= owner < i + n)%nat -> cell Q owner pid = Some [])
      /\ (forall from to, ~ (to = pid /\ (i <= from < i + n)%nat) ->
                          cell Q from to = cell (mPutRequests s) from to).
Proof.
  induction n as [|n IH]; intros i s Hwf.
  - exists (mPutRequests s). simpl.
    rewrite set_heap_same, set_mPutRequests_same.
    split; [easy|]. split; [lia | easy].
  - destruct (Hwf i) as (q & stack & Hq & Hstack & Hall); [lia|].
    cbn [seq for_each]. rewrite Hq. cbn [mbind option_bind].
    assert (Hpq : puts_to pid s i = q) by (unfold puts_to; now rewrite Hq).
    assert (Hps : put_stack s i = stack)
      by (unfold put_stack; now rewrite Hstack).
    destruct (decide (q ≠ [])) as [Hne|He].
    + rewrite (apply_put_loop i stack (reverse q) s Hstack)
        by (apply Forall_reverse; exact Hall).
      cbn [mbind option_bind].
      set (s1 := set_mPutRequests _ _).
      destruct (IH (S i) s1) as (Q & Hrun & Hdone & Hrest).
      { intros owner Ho. destruct (Hwf owner) as (q' & st' & H1 & H2 & H3);
          [lia|].
        exists q', st'. split; [|easy]. unfold s1, GetQueueToMe. simpl.
        rewrite cell_set_cell_ne; [easy|]. intros Heq; inversion Heq; lia. }
      exists Q. split; [|split].
      * rewrite Hrun. f_equal.
        transitivity
          (set_mPutRequests Q
             (set_heap (heap_after_puts pid s1 (seq (S i) n) (heap s1)) s));
          [reflexivity|].
        f_equal. f_equal.
        rewrite (heap_after_puts_ext pid s s1).
        { unfold heap_after_puts. cbn [seq foldl]. now rewrite Hpq, Hps. }
        intros o Ho. apply elem_of_seq in Ho. split; [|easy].
        unfold puts_to, GetQueueToMe, s1. simpl.
        rewrite cell_set_cell_ne; [easy|]. intros Heq; inversion Heq; lia.
      * intros owner Ho. destruct (decide (owner = i)) as [->|Hoi].
        -- rewrite Hrest by lia. unfold s1. simpl.
           now apply (cell_set_cell_eq _ _ _ _ q).
        -- apply Hdone. lia.
      * intros from to Hft. rewrite Hrest by lia. unfold s1. simpl.
        apply cell_set_cell_ne. intros Heq. inversion Heq. subst.
        apply Hft. lia.
    + assert (q = []) as -> by (destruct q; [easy | now destruct He]).
      cbn [mbind option_bind].
      destruct (IH (S i) s) as (Q & Hrun & Hdone & Hrest).
      { intros owner Ho. apply Hwf. lia. }
      exists Q. split; [|split].
      * rewrite Hrun. unfold heap_after_puts at 2. cbn [foldl].
        now rewrite Hpq.
      * intros owner Ho. destruct (decide (owner = i)) as [->|Hoi].
        -- rewrite Hrest by lia. exact Hq.
        -- apply Hdone. lia.
      * intros from to Hft. apply Hrest. lia.
Qed.

Lemma heap_after_puts_split (pid : nat) (s : BSP) (before after : list nat)
  (owner : nat) (m : memory) :
  heap_after_puts pid s (before ++ owner :: after) m
  = heap_after_puts pid s after
      (foldl (write_put (put_stack s owner))
             (heap_after_puts pid s before m)
             (reverse (puts_to pid s owner))).
Proof. unfold heap_after_puts. now rewrite foldl_app. Qed.

(** C1.  [ProcessPutRequests] applies the Put queues towards [pid] owner
    after owner, and each queue from its last request back to its first;
    it leaves the queues empty.  So for Puts of one owner that overlap,
    the first one issued is applied last: a byte that the first request of
    a queue covers, and that no later owner writes, ends up with the value
    that request staged in its owner's arena. *)
Theorem ProcessPutRequests_first_put_wins (pid : nat) (s : BSP) :
  puts_in_arena pid s ->
  exists s' : BSP,
    ProcessPutRequests pid s = Some s'
    /\ heap s' = heap_after_puts pid s (seq 0 (mProcCount s)) (heap s)
    /\ (forall owner, (owner < mProcCount s)%nat ->
          GetQueueToMe (mPutRequests s') owner pid = Some [])
    /\ (forall owner first rest a,
          (owner < mProcCount s)%nat ->
          puts_to pid s owner = first :: rest ->
          put_covers first a ->
          (forall o r, (owner < o < mProcCount s)%nat ->
                       r ∈ puts_to pid s o -> ~ put_covers r a) ->
          Some (heap s' a)
          = StackAllocator.bytes (put_stack s owner)
              !! Z.to_nat (put_bufferLocation first
                           + (a - put_destination first))).
Proof.
  intros Hwf.
  destruct (put_owner_loop pid (mProcCount s) 0 s) as (Q & Hrun & Hdone & _).
  { intros owner Ho. apply Hwf. lia. }
  eexists. split; [exact Hrun|]. cbn [heap set_mPutRequests set_heap].
  split; [reflexivity|]. split; [intros owner Ho; apply Hdone; lia|].
  intros owner first rest a Ho Hq Hcov Hlater.
  destruct (Hwf owner Ho) as (q & stack & Hcell & Hstack & Hall).
  assert (Hps : put_stack s owner = stack)
    by (unfold put_stack; now rewrite Hstack).
  assert (q = first :: rest) as ->
    by (unfold puts_to in Hq; rewrite Hcell in Hq; exact Hq).
  apply Forall_cons in Hall as [Hfirst _].
  replace (mProcCount s) with (owner + S (mProcCount s - owner - 1))%nat
    at 1 by lia.
  rewrite seq_app. change (0 + owner)%nat with owner. cbn [seq].
  rewrite heap_after_puts_split.
  rewrite heap_after_puts_outside.
  - rewrite Hq, reverse_cons, foldl_app. cbn [foldl]. rewrite Hps.
    now apply write_put_inside.
  - intros o r Hin. apply elem_of_seq in Hin. apply Hlater. lia.
Qed.

Lemma ProcessPutRequests_first_put_wins_witness :
  puts_to 1 after_two_puts 0 = [mkPutRequest 0 200 1; mkPutRequest 1 200 1]
  /\ put_stack after_two_puts 0 = StackAllocator.Build [xaa; xbb]
  /\ exists s',
       ProcessPutRequests 1 after_two_puts = Some s' /\ heap s' 200 = xaa.
Proof.
  assert (Hq : puts_to 1 after_two_puts 0
               = [mkPutRequest 0 200 1; mkPutRequest 1 200 1])
    by (vm_compute; reflexivity).
  assert (Hq1 : puts_to 1 after_two_puts 1 = [])
    by (vm_compute; reflexivity).
  assert (Hst : put_stack after_two_puts 0 = StackAllocator.Build [xaa; xbb])
    by (vm_compute; reflexivity).
  assert (HP : mProcCount after_two_puts = 2%nat)
    by (vm_compute; reflexivity).
  split; [exact Hq|]. split; [exact Hst|].
  destruct (ProcessPutRequests_first_put_wins 1 after_two_puts)
    as (s' & Hrun & _ & _ & Hfirst).
  - intros owner Ho. rewrite HP in Ho.
    destruct owner as [|[|owner]]; [| |lia].
    + exists [mkPutRequest 0 200 1; mkPutRequest 1 200 1],
             (StackAllocator.Build [xaa; xbb]).
      split; [vm_compute; reflexivity|].
      split; [vm_compute; reflexivity|].
      repeat constructor; simpl; unfold StackAllocator.Size; simpl; lia.
    + exists [], StackAllocator.empty.
      split; [vm_compute; reflexivity|].
      split; [vm_compute; reflexivity|]. constructor.
  - exists s'. split; [exact Hrun|].
    specialize (Hfirst 0%nat (mkPutRequest 0 200 1) [mkPutRequest 1 200 1]
                       200).
    rewrite HP, Hst in Hfirst. simpl in Hfirst.
    assert (H : Some (heap s' 200) = Some xaa).
    { apply Hfirst; [lia | exact Hq | unfold put_covers; simpl; lia |].
      intros o r Ho Hr. assert (o = 1%nat) as -> by lia.
      rewrite Hq1 in Hr. now apply elem_of_nil in Hr. }
    now injection H.
Defined.

(** ** [ProcessSendRequests] *)

Lemma merged_bytes_S Q B (i n : nat) :
  merged_bytes Q B i (S n) = contribution Q B i ++ merged_bytes Q B (S i) n.
Proof. reflexivity. Qed.

Lemma base_at_start Q B (i : nat) (offset : Z) :
  base_at Q B i offset i = offset.
Proof. unfold base_at. rewrite Nat.sub_diag. simpl. lia. Qed.

Lemma base_at_shift Q B (i : nat) (offset : Z) (owner : nat) :
  (i < owner)%nat ->
  base_at Q B i offset owner
  = base_at Q B (S i) (offset + Z.of_nat (length (contribution Q B i))) owner.
Proof.
  intros Hlt. unfold base_at.
  replace (owner - i)%nat with (S (owner - S i)) by lia.
  rewrite merged_bytes_S, length_app. lia.
Qed.

Lemma merged_queue_S Q B (i : nat) (offset : Z) (n : nat) :
  merged_queue Q B i offset (S n)
  = (rebase offset <$> Q i)
    ++ merged_queue Q B (S i)
         (offset + Z.of_nat (length (contribution Q B i))) n.
Proof.
  unfold merged_queue. cbn [seq fmap list_fmap concat].
  rewrite base_at_start. f_equal. f_equal.
  apply list_fmap_ext. intros k owner Hk.
  apply lookup_seq in Hk as [-> _].
  rewrite (base_at_shift Q B i) by lia. reflexivity.
Qed.

Lemma send_fields_same (s : BSP) :
  set_mTmpSendBuffers (mTmpSendBuffers s)
    (set_mTmpSendRequests (mTmpSendRequests s)
       (set_mSendBuffers (mSendBuffers s)
          (set_mSendRequests (mSendRequests s) s))) = s.
Proof. now destruct s. Qed.

(** An owner that staged nothing is skipped. *)
Lemma deliver_from_empty (pid owner : nat) (offset : Z) (s : BSP) :
  GetQueueToMe (mTmpSendRequests s) owner pid = Some [] ->
  deliver_from pid owner (offset, s) = Some (offset, s).
Proof. intros Hq. unfold deliver_from. now rewrite Hq. Qed.

Lemma deliver_from_nonempty (pid owner : nat) (offset : Z) (s : BSP)
  (q d : list SendRequest) (b sb : StackAllocator.t) :
  GetQueueToMe (mTmpSendRequests s) owner pid = Some q ->
  q ≠ [] ->
  mSendRequests s !! pid = Some d ->
  GetQueueToMe (mTmpSendBuffers s) owner pid = Some b ->
  mSendBuffers s !! pid = Some sb ->
  deliver_from pid owner (offset, s)
  = Some (add64 offset (StackAllocator.Size b),
          set_mTmpSendBuffers
            (set_cell (mTmpSendBuffers s) owner pid (StackAllocator.Clear b))
            (set_mSendBuffers
               (<[pid := StackAllocator.Merge b sb]> (mSendBuffers s))
               (set_mTmpSendRequests
                  (set_cell (mTmpSendRequests s) owner pid [])
                  (set_mSendRequests
                     (<[pid := d ++ (rebase offset <$> q)]> (mSendRequests s))
                     s)))).
Proof.
  intros Hq Hne Hd Hb Hsb. unfold deliver_from. rewrite Hq.
  cbn [mbind option_bind].
  destruct (decide (q ≠ [])) as [_|Hc]; [|easy].
  rewrite Hd. simpl. rewrite Hb. simpl. rewrite Hsb. reflexivity.
Qed.

(** The loop over the owners [i, i + n): the local [offset] is the size
    of the receive arena throughout. *)
Lemma deliver_loop (pid : nat) (Q : nat -> list SendRequest)
  (B : nat -> StackAllocator.t) (n : nat) :
  forall (i : nat) (s : BSP) (d : list SendRequest) (sb : StackAllocator.t),
    mSendRequests s !! pid = Some d ->
    mSendBuffers s !! pid = Some sb ->
    (forall owner, (i <= owner < i + n)%nat ->
       GetQueueToMe (mTmpSendRequests s) owner pid = Some (Q owner)
       /\ GetQueueToMe (mTmpSendBuffers s) owner pid = Some (B owner)) ->
    StackAllocator.Size sb + Z.of_nat (length (merged_bytes Q B i n))
      <= SIZE_MAX ->
    exists Qr Qb,
      for_each (seq i n) (deliver_from pid) (StackAllocator.Size sb, s)
      = Some
          (StackAllocator.Size sb + Z.of_nat (length (merged_bytes Q B i n)),
           set_mTmpSendBuffers Qb
             (set_mTmpSendRequests Qr
                (set_mSendBuffers
                   (<[pid := StackAllocator.Build
                               (StackAllocator.bytes sb
                                ++ merged_bytes Q B i n)]>
                      (mSendBuffers s))
                   (set_mSendRequests
                      (<[pid := d ++ merged_queue Q B i
                                       (StackAllocator.Size sb) n]>
                         (mSendRequests s)) s))))
      /\ (forall owner, (i <= owner < i + n)%nat ->
            cell Qr owner pid = Some [])
      /\ (forall from to, ~ (to = pid /\ (i <= from < i + n)%nat) ->
            cell Qr from to = cell (mTmpSendRequests s) from to)
      /\ (forall from to, ~ (to = pid /\ (i <= from < i + n)%nat) ->
            cell Qb from to = cell (mTmpSendBuffers s) from to).
Proof.
  induction n as [|n IH]; intros i s d sb Hd Hsb Hcells Hfit.
  - exists (mTmpSendRequests s), (mTmpSendBuffers s).
    cbn [seq for_each]. unfold merged_bytes, merged_queue.
    cbn [seq fmap list_fmap concat length].
    rewrite !app_nil_r, Z.add_0_r.
    replace (StackAllocator.Build (StackAllocator.bytes sb)) with sb
      by (now destruct sb).
    rewrite !list_insert_id by easy. rewrite send_fields_same.
    split; [easy|]. split; [lia|]. split; easy.
  - destruct (Hcells i) as [Hq Hb]; [lia|].
    rewrite merged_bytes_S, length_app in Hfit.
    cbn [seq for_each].
    unfold contribution in Hfit |- *.
    destruct (decide (Q i = [])) as [He|Hne].
    + rewrite deliver_from_empty by (now rewrite <- He).
      cbn [mbind option_bind].
      destruct (IH (S i) s d sb Hd Hsb) as (Qr & Qb & Hrun & H1 & H2 & H3).
      { intros owner Ho. apply Hcells. lia. }
      { simpl in Hfit. lia. }
      exists Qr, Qb. split; [|split; [|split]].
      * rewrite Hrun, merged_bytes_S, merged_queue_S.
        unfold contribution. destruct (decide (Q i = [])) as [_|Hc]; [|easy].
        rewrite He. cbn [fmap list_fmap app length].
        now rewrite Z.add_0_r.
      * intros owner Ho. destruct (decide (owner = i)) as [->|Hoi].
        -- rewrite H2 by lia. now rewrite <- He.
        -- apply H1. lia.
      * intros from to Hft. apply H2. lia.
      * intros from to Hft. apply H3. lia.
    + rewrite (deliver_from_nonempty pid i _ s (Q i) d (B i) sb)
        by easy.
      cbn [mbind option_bind].
      set (s1 := set_mTmpSendBuffers _ _).
      assert (Hadd : add64 (StackAllocator.Size sb) (StackAllocator.Size (B i))
                     = StackAllocator.Size
                         (StackAllocator.Merge (B i) sb)).
      { unfold add64, StackAllocator.Merge, StackAllocator.Size in *.
        cbn [StackAllocator.bytes]. rewrite length_app.
        rewrite Z.mod_small; [lia|]. unfold SIZE_MAX in Hfit. lia. }
      rewrite Hadd.
      destruct (IH (S i) s1 (d ++ (rebase (StackAllocator.Size sb) <$> Q i))
                   (StackAllocator.Merge (B i) sb))
        as (Qr & Qb & Hrun & H1 & H2 & H3).
      { unfold s1. simpl. apply list_lookup_insert_eq.
        now apply lookup_lt_Some in Hd. }
      { unfold s1. simpl. apply list_lookup_insert_eq.
        now apply lookup_lt_Some in Hsb. }
      { intros owner Ho. destruct (Hcells owner) as [Hq' Hb']; [lia|].
        unfold s1, GetQueueToMe. simpl.
        rewrite !cell_set_cell_ne by (intros Heq; inversion Heq; lia).
        easy. }
      { unfold StackAllocator.Merge, StackAllocator.Size in *.
        cbn [StackAllocator.bytes]. rewrite length_app. lia. }
      exists Qr, Qb. split; [|split; [|split]].
      * rewrite Hrun, merged_bytes_S, merged_queue_S.
        unfold contribution. destruct (decide (Q i = [])) as [Hc|_]; [easy|].
        assert (Hsz : StackAllocator.Size (StackAllocator.Merge (B i) sb)
                      = StackAllocator.Size sb
                        + Z.of_nat (length (StackAllocator.bytes (B i)))).
        { unfold StackAllocator.Merge, StackAllocator.Size.
          cbn [StackAllocator.bytes]. rewrite length_app. lia. }
        rewrite Hsz. f_equal. f_equal; [rewrite length_app; lia|].
        unfold s1. simpl.
        rewrite !list_insert_insert_eq, <- !app_assoc. reflexivity.
      * intros owner Ho. destruct (decide (owner = i)) as [->|Hoi].
        -- rewrite H2 by lia. unfold s1. simpl.
           now apply (cell_set_cell_eq _ _ _ _ (Q i)).
        -- apply H1. lia.
      * intros from to Hft. rewrite H2 by lia. unfold s1. simpl.
        apply cell_set_cell_ne. intros Heq. inversion Heq. subst.
        apply Hft. lia.
      * intros from to Hft. rewrite H3 by lia. unfold s1. simpl.
        apply cell_set_cell_ne. intros Heq. inversion Heq. subst.
        apply Hft. lia.
Qed.

Lemma merged_bytes_split Q B (n owner : nat) :
  (owner < n)%nat ->
  merged_bytes Q B 0 n
  = merged_bytes Q B 0 owner
    ++ contribution Q B owner
    ++ merged_bytes Q B (S owner) (n - owner - 1).
Proof.
  intros Hlt. unfold merged_bytes.
  replace n with (owner + S (n - owner - 1))%nat at 1 by lia.
  rewrite seq_app, fmap_app, concat_app. reflexivity.
Qed.

Lemma merged_queue_split Q B (n owner : nat) :
  (owner < n)%nat ->
  merged_queue Q B 0 0 n
  = merged_queue Q B 0 0 owner
    ++ (rebase (base_at Q B 0 0 owner) <$> Q owner)
    ++ concat ((fun o => rebase (base_at Q B 0 0 o) <$> Q o)
                 <$> seq (S owner) (n - owner - 1)).
Proof.
  intros Hlt. unfold merged_queue.
  replace n with (owner + S (n - owner - 1))%nat at 1 by lia.
  rewrite seq_app, fmap_app, concat_app. reflexivity.
Qed.



Lemma Send_result (tpid pid : nat) (tag payload sz : Z) (s0 s1 : BSP) :
  Send tpid pid tag payload sz s0 = Some s1 ->
  exists q b,
    cell (mTmpSendRequests s0) tpid pid = Some q
    /\ cell (mTmpSendBuffers s0) tpid pid = Some b
    /\ mNewTagSize s0 !! tpid = Some (mTagSize s0)
    /\ let paid := read_bytes (heap s0) payload (Z.to_nat sz) in
       let tagged := read_bytes (heap s0) tag (Z.to_nat (mTagSize s0)) in
       s1 = set_mTmpSendRequests
              (set_cell (mTmpSendRequests s0) tpid pid
                 (q ++ [mkSendRequest (StackAllocator.Size b) sz
                          (Z.of_nat (length (StackAllocator.bytes b ++ paid)))
                          (mTagSize s0)]))
              (set_mTmpSendBuffers
                 (set_cell (mTmpSendBuffers s0) tpid pid
                    (StackAllocator.Build
                       ((StackAllocator.bytes b ++ paid) ++ tagged)))
                 s0).
Proof.
  unfold Send, assert, GetQueueFromMe.
  destruct (decide (pid < mProcCount s0)%nat); [|easy].
  destruct (decide (tpid < mProcCount s0)%nat); [|easy].
  cbn [mbind option_bind].
  destruct (mNewTagSize s0 !! tpid) as [proposed|]; [|easy].
  cbn [mbind option_bind].
  destruct (decide (proposed = mTagSize s0)) as [->|]; [|easy].
  cbn [mbind option_bind].
  destruct (cell (mTmpSendBuffers s0) tpid pid) as [b|] eqn:Hb; [|easy].
  cbn [mbind option_bind StackAllocator.Alloc].
  cbn [mTmpSendRequests set_mTmpSendBuffers].
  destruct (cell (mTmpSendRequests s0) tpid pid) as [q|] eqn:Hq; [|easy].
  cbn [mbind option_bind]. intros [= <-].
  exists q, b. now repeat split.
Qed.











(** ** What the helpers of [Sync] leave alone *)

Lemma for_each_invariant {A S : Type} (I : S -> Prop)
  (body : A -> S -> option S) (xs : list A) :
  (forall x s s', I s -> body x s = Some s' -> I s') ->
  forall s s', I s -> for_each xs body s = Some s' -> I s'.
Proof.
  intros Hbody. induction xs as [|x xs IH]; intros s s' Hs Hrun.
  - now injection Hrun as <-.
  - cbn [for_each] in Hrun.
    destruct (body x s) as [s1|] eqn:H1; [|easy].
    cbn [mbind option_bind] in Hrun. eauto.
Qed.

Ltac crack :=
  repeat match goal with
    | H : Some _ = Some _ |- _ => injection H as H; try subst
    | H : None = Some _ |- _ => discriminate H
    | H : mbind _ ?o = Some _ |- _ =>
        let E := fresh "E" in
        destruct o eqn:E; cbn [mbind option_bind] in H; [|discriminate H]
    | H : (let '(_, _) := ?p in _) = Some _ |- _ => destruct p
    | H : (if ?c then _ else _) = Some _ |- _ => destruct c
    end.

Lemma ProcessPushRequests_control (pid : nat) (s s' : BSP) :
  ProcessPushRequests pid s = Some s' ->
  control_fields s' = control_fields s.
Proof.
  unfold ProcessPushRequests. intros H. crack; [|reflexivity].
  apply (for_each_invariant
           (fun st => control_fields st = control_fields s)) in E0;
    [exact E0| |reflexivity].
  intros x st1 st2 Hst Hb. crack. exact Hst.
Qed.

Lemma ProcessPopRequests_control (pid : nat) (s s' : BSP) :
  ProcessPopRequests pid s = Some s' ->
  control_fields s' = control_fields s.
Proof.
  unfold ProcessPopRequests. intros H. crack; [|reflexivity].
  apply (for_each_invariant
           (fun st => control_fields st = control_fields s)) in E0;
    [exact E0| |reflexivity].
  intros x st1 st2 Hst Hb. crack. exact Hst.
Qed.

Lemma ProcessPutRequests_control (pid : nat) (s s' : BSP) :
  ProcessPutRequests pid s = Some s' ->
  control_fields s' = control_fields s.
Proof.
  unfold ProcessPutRequests. intros H.
  apply (for_each_invariant
           (fun st => control_fields st = control_fields s)) in H;
    [exact H| |reflexivity].
  intros owner st1 st2 Hst Hb. crack; [|exact Hst].
  apply (for_each_invariant
           (fun st => control_fields st = control_fields s)) in E0;
    [exact E0| |exact Hst].
  intros r st3 st4 Hst3 Hr. unfold apply_put in Hr. crack. exact Hst3.
Qed.

Lemma ProcessGetRequests_control (pid : nat) (s s' : BSP) :
  ProcessGetRequests pid s = Some s' ->
  control_fields s' = control_fields s.
Proof.
  unfold ProcessGetRequests. intros H.
  apply (for_each_invariant
           (fun st => control_fields st = control_fields s)) in H;
    [exact H| |reflexivity].
  intros owner st1 st2 Hst Hb. crack.
  apply (for_each_invariant
           (fun st => control_fields st = control_fields s)) in E0;
    [exact E0| |exact Hst].
  intros r st3 st4 Hst3 Hr. unfold get_to_put in Hr. crack. exact Hst3.
Qed.

Lemma ProcessSendRequests_control (pid : nat) (s s' : BSP) :
  ProcessSendRequests pid s = Some s' ->
  control_fields s' = control_fields s.
Proof.
  unfold ProcessSendRequests. intros H. crack.
  apply (for_each_invariant
           (fun os => control_fields (snd os) = control_fields s)) in E2;
    [exact E2| |reflexivity].
  intros owner [o1 st1] [o2 st2] Hst Hb. unfold deliver_from in Hb.
  crack; exact Hst.
Qed.

(** Every statement of [Sync] but the adoption of the tag size leaves the
    control members as they are. *)
Lemma exec_control (i : instr) (pid : nat) (s s' : BSP) :
  i ≠ IAdoptTagSize ->
  exec i pid s = Some s' ->
  control_fields s' = control_fields s.
Proof.
  intros Hi H. destruct i; cbn [exec] in H; try easy.
  - now injection H as <-.
  - now apply ProcessGetRequests_control in H.
  - now apply ProcessPopRequests_control in H.
  - now apply ProcessSendRequests_control in H.
  - now apply ProcessPutRequests_control in H.
  - unfold clear_put_buffer in H. crack. reflexivity.
  - now apply ProcessPushRequests_control in H.
Qed.

(** ** [SetTagsize] and [Sync] *)

(** While the value process 0 proposed is the current tag size, no step
    of any thread changes the tag size or a proposal. *)
Lemma sched_step_tag (ch : choice) (c c' : config) (e : event) :
  mNewTagSize (shared c) !! 0%nat = Some (mTagSize (shared c)) ->
  sched_step ch c = Some (e, c') ->
  mNewTagSize (shared c') = mNewTagSize (shared c)
  /\ mTagSize (shared c') = mTagSize (shared c).
Proof.
  intros Hagree Hstep. destruct ch as [p| |p|message]; cbn [sched_step] in Hstep.
  - destruct (code c !! p) as [[|i rest]|]; try easy.
    destruct (decide (i = ISyncPoint)); [easy|].
    destruct (exec i p (shared c)) as [s'|] eqn:Hexec; [|easy].
    cbn [mbind option_bind] in Hstep. injection Hstep as _ <-.
    cbn [shared].
    destruct (decide (i = IAdoptTagSize)) as [->|Hi].
    + cbn [exec] in Hexec. unfold adopt_tag_size in Hexec.
      destruct (decide (p = 0%nat)); [|now injection Hexec as <-].
      rewrite Hagree in Hexec. cbn [mbind option_bind] in Hexec.
      destruct (decide (mTagSize (shared c) ≠ mTagSize (shared c)));
        [easy | now injection Hexec as <-].
    + apply exec_control in Hexec; [|exact Hi].
      unfold control_fields in Hexec. now injection Hexec.
  - destruct (forallb at_barrier (code c)); [|easy].
    now injection Hstep as _ <-.
  - destruct (code c !! p) as [[|[] rest]|]; try easy.
    destruct (mAbort (shared c)); [|easy]. now injection Hstep as _ <-.
  - destruct (existsb outside (code c)); [|easy].
    now injection Hstep as _ <-.
Qed.

Lemma run_tag (sched : list choice) :
  forall (c c' : config) (tr : list event),
    mNewTagSize (shared c) !! 0%nat = Some (mTagSize (shared c)) ->
    run sched c = Some (tr, c') ->
    mNewTagSize (shared c') = mNewTagSize (shared c)
    /\ mTagSize (shared c') = mTagSize (shared c).
Proof.
  induction sched as [|ch sched IH]; intros c c' tr Hagree Hrun.
  - now injection Hrun as _ <-.
  - cbn [run] in Hrun.
    destruct (sched_step ch c) as [[e c1]|] eqn:Hstep; [|easy].
    cbn [mbind option_bind] in Hrun.
    destruct (run sched c1) as [[tr1 c2]|] eqn:Hrest; [|easy].
    cbn [mbind option_bind] in Hrun. injection Hrun as _ <-.
    destruct (sched_step_tag _ _ _ _ Hagree Hstep) as [Hn Ht].
    destruct (IH c1 c2 tr1) as [Hn' Ht']; [now rewrite Hn, Ht | exact Hrest|].
    split; congruence.
Qed.

(** C7.  [SetTagsize] writes back the tag size that is current at the
    call, whatever size is proposed, records the proposal for the caller
    and leaves the tag size alone.  When the size proposed is the current
    one, and process 0 (whose proposal [Sync] adopts) is the caller or has
    itself proposed the current size, then however the threads are
    scheduled through [Sync] the tag size stays what it was. *)
Theorem SetTagsize_current_then_Sync (pid : nat) (newSize : Z) (s : BSP) :
  (pid < length (mNewTagSize s))%nat ->
  exists s1 : BSP,
    SetTagsize pid newSize s = Some (mTagSize s, s1)
    /\ mNewTagSize s1 = <[pid := newSize]> (mNewTagSize s)
    /\ mTagSize s1 = mTagSize s
    /\ (newSize = mTagSize s ->
        pid = 0%nat \/ mNewTagSize s !! 0%nat = Some (mTagSize s) ->
        forall (sched : list choice) (tr : list event) (c : config),
          run sched (enter_Sync s1) = Some (tr, c) ->
          mTagSize (shared c) = mTagSize s).
Proof.
  intros Hpid.
  destruct (lookup_lt_is_Some_2 _ _ Hpid) as [old Hold].
  exists (set_mNewTagSize (<[pid := newSize]> (mNewTagSize s)) s).
  split; [unfold SetTagsize; now rewrite Hold|].
  split; [reflexivity|]. split; [reflexivity|].
  intros -> Hzero sched tr c Hrun.
  apply run_tag in Hrun as [_ Ht]; [exact Ht|].
  cbn [enter_Sync shared mNewTagSize mTagSize set_mNewTagSize].
  destruct Hzero as [->|Hzero].
  - now apply list_lookup_insert_eq.
  - destruct (decide (pid = 0%nat)) as [->|Hne].
    + now apply list_lookup_insert_eq.
    + now rewrite list_lookup_insert_ne.
Qed.

Lemma SetTagsize_current_then_Sync_witness :
  retagged = Some after_retagged
  /\ mTagSize after_retagged = 8
  /\ SetTagsize 0 16 after_retagged = Some (8, after_16_proposed)
  /\ mNewTagSize after_16_proposed = [16; 8]
  /\ SetTagsize 0 8 after_16_proposed = Some (8, after_8_proposed)
  /\ mNewTagSize after_8_proposed = [8; 8]
  /\ run (in_turn 2) (enter_Sync after_8_proposed)
     = Some (fst proposal_run, snd proposal_run)
  /\ code (snd proposal_run) = [[]; []]
  /\ mTagSize (shared (snd proposal_run)) = 8.
Proof.
  assert (H8 : mTagSize after_retagged = 8) by (vm_compute; reflexivity).
  assert (H8' : mTagSize after_16_proposed = 8) by (vm_compute; reflexivity).
  assert (Hrun : run (in_turn 2) (enter_Sync after_8_proposed)
                 = Some (fst proposal_run, snd proposal_run))
    by (vm_compute; reflexivity).
  split; [vm_compute; reflexivity|]. split; [exact H8|].
  destruct (SetTagsize_current_then_Sync 0 16 after_retagged)
    as (s1 & Hset1 & Hnew1 & _); [vm_compute; lia|].
  assert (Hs1 : s1 = after_16_proposed).
  { unfold after_16_proposed. rewrite Hset1. reflexivity. }
  rewrite Hs1, H8 in Hset1. rewrite Hs1 in Hnew1.
  split; [exact Hset1|].
  split; [rewrite Hnew1; vm_compute; reflexivity|].
  destruct (SetTagsize_current_then_Sync 0 8 after_16_proposed)
    as (s2 & Hset2 & Hnew2 & _ & Hsync); [vm_compute; lia|].
  assert (Hs2 : s2 = after_8_proposed).
  { unfold after_8_proposed. rewrite Hset2. reflexivity. }
  rewrite Hs2, H8' in Hset2. rewrite Hs2 in Hnew2, Hsync.
  split; [exact Hset2|].
  split; [rewrite Hnew2, Hnew1; vm_compute; reflexivity|].
  split; [exact Hrun|]. split; [vm_compute; reflexivity|].
  rewrite (Hsync (eq_sym H8') (or_introl eq_refl) _ _ _ Hrun).
  exact H8'.
Defined.

(** ** The order of [Sync] *)

Lemma releases_snoc (tr : list event) (e : event) :
  releases (tr ++ [e])
  = (releases tr + if decide (e = EvRelease) then 1 else 0)%nat.
Proof.
  unfold releases. rewrite filter_app, length_app. f_equal.
  rewrite filter_cons, filter_nil. now destruct (decide (e = EvRelease)).
Qed.

Lemma thread_events_snoc (p : nat) (tr : list event) (e : event) :
  thread_events p (tr ++ [e])
  = thread_events p tr ++ match ran p e with Some i => [i] | None => [] end.
Proof.
  unfold thread_events. rewrite omap_app. cbn. now destruct (ran p e).
Qed.

Lemma ran_thread_events (p : nat) (i : instr) (tr : list event) :
  i ∈ thread_events p tr <-> EvRun p i ∈ tr.
Proof.
  unfold thread_events. rewrite list_elem_of_omap. split.
  - intros (e & He & Hran). destruct e as [q j| | |]; try easy.
    cbn in Hran. destruct (decide (q = p)) as [->|]; [|easy].
    now injection Hran as ->.
  - intros H. exists (EvRun p i). split; [exact H|].
    cbn. now destruct (decide (p = p)).
Qed.

Lemma at_drop {A : Type} (l : list A) (k : nat) (x : A) (rest : list A) :
  drop k l = x :: rest ->
  l !! k = Some x /\ rest = drop (S k) l /\ take (S k) l = take k l ++ [x].
Proof.
  intros H.
  assert (Hk : l !! k = Some x).
  { rewrite <- (Nat.add_0_r k), <- lookup_drop, H. reflexivity. }
  split; [exact Hk|]. split.
  - rewrite (drop_S _ _ _ Hk) in H. now injection H.
  - now apply take_S_r.
Qed.

Lemma statements_before_S (k : nat) (i : instr) :
  Sync !! k = Some i ->
  statements_before (S k)
  = statements_before k ++ if decide (i ≠ ISyncPoint) then [i] else [].
Proof.
  intros Hk. unfold statements_before.
  now rewrite (take_S_r _ _ _ Hk), filter_app.
Qed.

Lemma barriers_before_S (k : nat) (i : instr) :
  Sync !! k = Some i ->
  barriers_before (S k)
  = (barriers_before k + if decide (i = ISyncPoint) then 1 else 0)%nat.
Proof.
  intros Hk. unfold barriers_before.
  rewrite (take_S_r _ _ _ Hk), filter_app, length_app. f_equal.
  rewrite filter_cons, filter_nil. now destruct (decide (i = ISyncPoint)).
Qed.

Lemma statements_before_prefix (k : nat) :
  statements_before k `prefix_of` statements.
Proof.
  unfold statements_before, statements.
  rewrite <- (take_drop k Sync) at 2. rewrite filter_app.
  now apply prefix_app_r.
Qed.

(** A statement runs in the phase that counts the barriers before it. *)
Lemma phase_at (k : nat) (i : instr) :
  Sync !! k = Some i -> i ≠ ISyncPoint -> phase_of i = barriers_before k.
Proof.
  intros Hk Hi.
  do 11 (destruct k as [|k];
         [injection Hk as <-; first [easy | reflexivity]|]).
  easy.
Qed.

(** At a barrier, the statements of the phase that ends are all behind. *)
Lemma phase_done_at_barrier (k : nat) (j : instr) :
  Sync !! k = Some ISyncPoint ->
  j ∈ statements ->
  phase_of j = barriers_before k ->
  j ∈ statements_before k.
Proof.
  intros Hk Hj Hphase.
  assert (Hne : j ≠ ISyncPoint).
  { intros ->. apply (bool_decide_pack _) in Hj. vm_compute in Hj.
    exact Hj. }
  do 11 (destruct k as [|k];
         [try discriminate Hk; vm_compute in Hphase;
          destruct j; try discriminate Hphase; try easy;
          apply (bool_decide_unpack _); vm_compute; exact I|]).
  easy.
Qed.

(** One more event keeps the two orders, provided a statement that runs
    is of the phase the barrier count says. *)
Lemma order_snoc (P : nat) (tr : list event) (e : event) :
  (forall q j, EvRun q j ∈ tr -> phase_of j <= releases tr)%nat ->
  (forall q j, (q < P)%nat -> j ∈ statements ->
               (phase_of j < releases tr)%nat -> EvRun q j ∈ tr) ->
  no_overtaking tr ->
  phases_complete P tr ->
  (forall p i, e = EvRun p i -> phase_of i = releases tr) ->
  no_overtaking (tr ++ [e]) /\ phases_complete P (tr ++ [e]).
Proof.
  intros Hle Hdone Hno Hall Hnew. split.
  - intros n m p q i j Hn Hm Hlt.
    apply lookup_snoc_Some in Hn as [[Hn1 Hn2]|[-> ->]];
      apply lookup_snoc_Some in Hm as [[Hm1 Hm2]|[-> Hm2]].
    + eauto.
    + exact Hn1.
    + exfalso. apply list_elem_of_lookup_2 in Hm2.
      pose proof (Hle _ _ Hm2) as Hjle.
      rewrite <- (Hnew p i eq_refl) in Hjle. lia.
    + injection Hm2 as -> ->. lia.
  - intros n p i Hn q j Hq Hj Hlt.
    apply lookup_snoc_Some in Hn as [[Hn1 Hn2]|[-> ->]].
    + destruct (Hall n p i Hn2 q j Hq Hj Hlt) as (m & Hm & Hlook).
      exists m. split; [exact Hm|]. rewrite lookup_app_l by lia. exact Hlook.
    + rewrite (Hnew p i eq_refl) in Hlt.
      pose proof (Hdone q j Hq Hj Hlt) as Hin.
      apply list_elem_of_lookup_1 in Hin as [m Hm].
      exists m. split; [now apply lookup_lt_Some in Hm|].
      now apply lookup_app_l_Some.
Qed.

Lemma thread_ok_other (tr : list event) (e : event) (q : nat)
  (rest : list instr) :
  ran q e = None ->
  e ≠ EvRelease ->
  thread_ok tr q rest ->
  thread_ok (tr ++ [e]) q rest.
Proof.
  intros Hran He (k & Hev & Hrest). exists k.
  rewrite thread_events_snoc, Hran, app_nil_r, releases_snoc.
  destruct (decide (e = EvRelease)); [easy|].
  now rewrite Nat.add_0_r.
Qed.

Lemma thread_ok_left (tr : list event) (e : event) (q : nat)
  (rest : list instr) :
  ran q e = None ->
  thread_ok tr q rest ->
  thread_ok (tr ++ [e]) q [].
Proof.
  intros Hran (k & Hev & _). exists k.
  rewrite thread_events_snoc, Hran, app_nil_r. split; [exact Hev | now left].
Qed.

(** One step of any thread, or of the barrier, keeps the invariant. *)
Lemma sched_step_order (P : nat) (tr : list event) (ch : choice)
  (c c' : config) (e : event) :
  order_inv P tr c ->
  sched_step ch c = Some (e, c') ->
  order_inv P (tr ++ [e]) c'.
Proof.
  intros (Hlen & Hth & Hle & Hdone & Hno & Hall) Hstep.
  destruct ch as [p| |p|message]; cbn [sched_step] in Hstep.
  - (* a statement of thread [p] *)
    destruct (code c !! p) as [[|i rest]|] eqn:Hp; try easy.
    destruct (decide (i = ISyncPoint)) as [|Hi]; [easy|].
    destruct (exec i p (shared c)) as [s'|]; [|easy].
    cbn [mbind option_bind] in Hstep. injection Hstep as <- <-.
    destruct (Hth p _ Hp) as (k & Hev & [Hnil|[Hrest Hbar]]); [easy|].
    symmetry in Hrest. apply at_drop in Hrest as (Hk & Hrest & _).
    assert (Hphase : phase_of i = releases tr)
      by (now rewrite (phase_at k i Hk Hi)).
    assert (Hrel : releases (tr ++ [EvRun p i]) = releases tr).
    { rewrite releases_snoc. destruct (decide _); [easy | lia]. }
    destruct (order_snoc P tr (EvRun p i) Hle Hdone Hno Hall) as [Hno' Hall'].
    { intros p' i' [= <- <-]. exact Hphase. }
    split; [cbn [code]; now rewrite length_insert|].
    split; [|split; [|split; [|split]]]; try assumption.
    + intros q rest' Hq. cbn [code] in Hq.
      destruct (decide (q = p)) as [->|Hqp].
      * rewrite list_lookup_insert_eq in Hq by (now apply lookup_lt_Some in Hp).
        injection Hq as <-. exists (S k).
        rewrite thread_events_snoc, Hev, (statements_before_S k i Hk).
        cbn [ran]. destruct (decide (p = p)); [|easy].
        destruct (decide (i ≠ ISyncPoint)); [|easy].
        split; [reflexivity|]. right. split; [exact Hrest|].
        rewrite (barriers_before_S k i Hk), Hrel.
        destruct (decide (i = ISyncPoint)); [easy | lia].
      * rewrite list_lookup_insert_ne in Hq by congruence.
        apply thread_ok_other; [|easy|now apply Hth].
        cbn [ran]. destruct (decide (p = q)); [congruence | easy].
    + intros q j Hin. rewrite Hrel.
      apply elem_of_app in Hin as [Hin|Hin]; [exact (Hle _ _ Hin)|].
      apply list_elem_of_singleton in Hin. injection Hin as -> ->. lia.
    + intros q j Hq Hj Hlt. rewrite Hrel in Hlt.
      apply elem_of_app. left. now apply Hdone.
  - (* the barrier opens *)
    destruct (forallb at_barrier (code c)) eqn:Hbar; [|easy].
    injection Hstep as <- <-.
    assert (Hall_bar : forall q rest, code c !! q = Some rest ->
                                      exists rest', rest = ISyncPoint :: rest').
    { intros q rest Hq. rewrite forallb_forall in Hbar.
      apply list_elem_of_lookup_2, list_elem_of_In in Hq.
      apply Hbar in Hq. destruct rest as [|[] rest']; try easy.
      now exists rest'. }
    assert (Hrel : releases (tr ++ [EvRelease]) = S (releases tr)).
    { rewrite releases_snoc. destruct (decide _); [lia | easy]. }
    destruct (order_snoc P tr EvRelease Hle Hdone Hno Hall) as [Hno' Hall'];
      [easy|].
    split; [cbn [code]; now rewrite length_fmap|].
    split; [|split; [|split; [|split]]]; try assumption.
    + intros q rest' Hq. cbn [code] in Hq.
      apply list_lookup_fmap_Some in Hq as (rest & -> & Hq).
      destruct (Hall_bar q rest Hq) as [rest' ->]. cbn [tail].
      destruct (Hth q _ Hq) as (k & Hev & [Hnil|[Hrest Hb]]); [easy|].
      symmetry in Hrest. apply at_drop in Hrest as (Hk & Hrest & _).
      exists (S k). rewrite thread_events_snoc. cbn [ran].
      rewrite app_nil_r, Hev, (statements_before_S k _ Hk).
      destruct (decide (ISyncPoint ≠ ISyncPoint)); [easy|].
      rewrite app_nil_r. split; [reflexivity|]. right.
      split; [exact Hrest|].
      rewrite (barriers_before_S k _ Hk), Hrel.
      destruct (decide (ISyncPoint = ISyncPoint)); [lia | easy].
    + intros q j Hin. rewrite Hrel.
      apply elem_of_app in Hin as [Hin|Hin];
        [pose proof (Hle _ _ Hin); lia|].
      now apply list_elem_of_singleton in Hin.
    + intros q j Hq Hj Hlt. rewrite Hrel in Hlt.
      apply elem_of_app. left.
      destruct (decide (phase_of j < releases tr)%nat) as [Hlt'|Hge];
        [now apply Hdone|].
      assert (Hq' : is_Some (code c !! q))
        by (apply lookup_lt_is_Some; lia).
      destruct Hq' as [rest Hq'].
      destruct (Hall_bar q rest Hq') as [rest' ->].
      destruct (Hth q _ Hq') as (k & Hev & [Hnil|[Hrest Hb]]); [easy|].
      symmetry in Hrest. apply at_drop in Hrest as (Hk & _ & _).
      apply ran_thread_events. rewrite Hev.
      apply phase_done_at_barrier; [exact Hk | exact Hj | lia].
  - (* thread [p] leaves by the abort error *)
    destruct (code c !! p) as [[|[] rest]|] eqn:Hp; try easy.
    destruct (mAbort (shared c)); [|easy].
    injection Hstep as <- <-.
    assert (Hrel : releases (tr ++ [EvUnwind p]) = releases tr).
    { rewrite releases_snoc. destruct (decide _); [easy | lia]. }
    destruct (order_snoc P tr (EvUnwind p) Hle Hdone Hno Hall)
      as [Hno' Hall']; [easy|].
    split; [cbn [code]; now rewrite length_insert|].
    split; [|split; [|split; [|split]]]; try assumption.
    + intros q rest' Hq. cbn [code] in Hq.
      destruct (decide (q = p)) as [->|Hqp].
      * rewrite list_lookup_insert_eq in Hq by (now apply lookup_lt_Some in Hp).
        injection Hq as <-.
        now apply (thread_ok_left tr _ p (ISyncPoint :: rest)); [|apply Hth].
      * rewrite list_lookup_insert_ne in Hq by congruence.
        apply thread_ok_other; [easy|easy|now apply Hth].
    + intros q j Hin. rewrite Hrel.
      apply elem_of_app in Hin as [Hin|Hin]; [exact (Hle _ _ Hin)|].
      now apply list_elem_of_singleton in Hin.
    + intros q j Hq Hj Hlt. rewrite Hrel in Hlt.
      apply elem_of_app. left. now apply Hdone.
  - (* a thread outside [Sync] calls [Abort] *)
    destruct (existsb outside (code c)); [|easy].
    injection Hstep as <- <-.
    assert (Hrel : releases (tr ++ [EvAbort]) = releases tr).
    { rewrite releases_snoc. destruct (decide _); [easy | lia]. }
    destruct (order_snoc P tr EvAbort Hle Hdone Hno Hall)
      as [Hno' Hall']; [easy|].
    split; [exact Hlen|].
    split; [|split; [|split; [|split]]]; try assumption.
    + intros q rest' Hq. cbn [code] in Hq.
      apply thread_ok_other; [easy|easy|now apply Hth].
    + intros q j Hin. rewrite Hrel.
      apply elem_of_app in Hin as [Hin|Hin]; [exact (Hle _ _ Hin)|].
      now apply list_elem_of_singleton in Hin.
    + intros q j Hq Hj Hlt. rewrite Hrel in Hlt.
      apply elem_of_app. left. now apply Hdone.
Qed.

Lemma run_order (P : nat) (sched : list choice) :
  forall (tr0 : list event) (c : config) (tr : list event) (c' : config),
    order_inv P tr0 c ->
    run sched c = Some (tr, c') ->
    order_inv P (tr0 ++ tr) c'.
Proof.
  induction sched as [|ch sched IH]; intros tr0 c tr c' Hinv Hrun.
  - injection Hrun as <- <-. now rewrite app_nil_r.
  - cbn [run] in Hrun.
    destruct (sched_step ch c) as [[e c1]|] eqn:Hstep; [|easy].
    cbn [mbind option_bind] in Hrun.
    destruct (run sched c1) as [[tr1 c2]|] eqn:Hrest; [|easy].
    cbn [mbind option_bind] in Hrun. injection Hrun as <- <-.
    replace (tr0 ++ e :: tr1) with ((tr0 ++ [e]) ++ tr1)
      by (now rewrite <- app_assoc).
    eapply IH; [|exact Hrest]. eapply sched_step_order; eassumption.
Qed.

Lemma order_inv_start (c0 : config) :
  Forall (fun th => th = Sync \/ th = []) (code c0) ->
  order_inv (length (code c0)) [] c0.
Proof.
  intros Hcode. split; [reflexivity|]. split; [|split; [|split; [|split]]].
  - intros p rest Hp. exists 0%nat. split; [reflexivity|].
    rewrite Forall_forall in Hcode.
    apply list_elem_of_lookup_2 in Hp.
    destruct (Hcode _ Hp) as [->| ->]; [right | left]; easy.
  - intros q j Hin. now apply elem_of_nil in Hin.
  - intros q j _ _ Hlt. cbn in Hlt. lia.
  - intros n m p q i j Hn. now rewrite lookup_nil in Hn.
  - intros n p i Hn. now rewrite lookup_nil in Hn.
Qed.

(** C3.  All threads of the run enter [Sync] (or are outside it); the
    barrier opens only when every thread waits at it.  Then in every
    schedule: no statement of a later phase runs before a statement of an
    earlier phase, on any two threads; when a statement runs, every thread
    has already run all statements of the earlier phases (so the Gets are
    converted before any PopReg, Send or Put is applied, and these are
    applied by all before any arena is cleared or any PushReg is applied);
    in particular a put arena is cleared only after every receiver has
    run [ProcessPutRequests]; and each thread runs its statements in the
    order of the source, the clear before [ProcessPushRequests]. *)
Theorem Sync_phase_order (c0 : config) (sched : list choice)
  (tr : list event) (c : config) :
  Forall (fun th => th = Sync \/ th = []) (code c0) ->
  run sched c0 = Some (tr, c) ->
  (forall n m p q i j,
      tr !! n = Some (EvRun p i) -> tr !! m = Some (EvRun q j) ->
      (phase_of i < phase_of j)%nat -> (n < m)%nat)
  /\ (forall n p i,
        tr !! n = Some (EvRun p i) ->
        forall q j, (q < length (code c0))%nat -> j ∈ statements ->
          (phase_of j < phase_of i)%nat ->
          exists m, (m < n)%nat /\ tr !! m = Some (EvRun q j))
  /\ (forall n p,
        tr !! n = Some (EvRun p IClearPutBuffer) ->
        forall q, (q < length (code c0))%nat ->
          exists m, (m < n)%nat
                    /\ tr !! m = Some (EvRun q IProcessPutRequests))
  /\ (forall p, (p < length (code c0))%nat ->
        thread_events p tr `prefix_of` statements).
Proof.
  intros Hcode Hrun.
  pose proof (run_order _ sched [] c0 tr c (order_inv_start c0 Hcode) Hrun)
    as (Hlen & Hth & _ & _ & Hno & Hall).
  cbn [app] in *.
  split; [exact Hno|]. split; [exact Hall|]. split.
  - intros n p Hn q Hq.
    apply (Hall n p IClearPutBuffer Hn q IProcessPutRequests Hq).
    + apply (bool_decide_unpack _). vm_compute. exact I.
    + cbn. lia.
  - intros p Hp.
    assert (Hc : is_Some (code c !! p)) by (apply lookup_lt_is_Some; lia).
    destruct Hc as [rest Hrest].
    destruct (Hth p rest Hrest) as (k & -> & _).
    apply statements_before_prefix.
Qed.

Lemma Sync_phase_order_witness :
  run (in_turn 2) (enter_Sync after_two_puts)
  = Some (fst puts_run, snd puts_run)
  /\ fst puts_run !! 13%nat = Some (EvRun 0 IClearPutBuffer)
  /\ exists m, (m < 13)%nat
               /\ fst puts_run !! m = Some (EvRun 1 IProcessPutRequests).
Proof.
  assert (Hrun : run (in_turn 2) (enter_Sync after_two_puts)
                 = Some (fst puts_run, snd puts_run))
    by (vm_compute; reflexivity).
  assert (Hclear : fst puts_run !! 13%nat = Some (EvRun 0 IClearPutBuffer))
    by (vm_compute; reflexivity).
  split; [exact Hrun|]. split; [exact Hclear|].
  assert (Hcode : Forall (fun th => th = Sync \/ th = [])
                         (code (enter_Sync after_two_puts))).
  { assert (Hc : code (enter_Sync after_two_puts) = [Sync; Sync])
      by (vm_compute; reflexivity).
    rewrite Hc. repeat constructor. }
  destruct (Sync_phase_order (enter_Sync after_two_puts) (in_turn 2)
              (fst puts_run) (snd puts_run) Hcode Hrun) as (_ & _ & Hcl & _).
  apply (Hcl 13%nat 0%nat Hclear 1%nat). vm_compute. lia.
Defined.

(** ** Further properties of the operations *)

(** Queuing requests changes nothing user code can observe: whatever
    threads call [PushReg], [PopReg], [Put], [Get] and [Send] in whatever
    order, when the calls return memory, the delivered messages and their
    arenas, the consumption indices, the tag size, the index tables and
    the process count are what they were before the calls. *)
Theorem issuing_is_deferred (ops : list (nat * request_op)) (s s' : BSP) :
  for_each ops issue s = Some s' ->
  visible s' = visible s.
Proof.
  intros Hrun.
  apply (for_each_invariant (fun st => visible st = visible s)) in Hrun;
    [exact Hrun| |reflexivity].
  clear. intros [tpid op] st st' Hst Hop. rewrite <- Hst. clear Hst.
  destruct op; cbn [issue] in Hop.
  - unfold PushReg, assert in Hop. crack. reflexivity.
  - unfold PopReg, assert in Hop. crack. reflexivity.
  - unfold Put, assert, register_at, map_index, StackAllocator.Alloc in Hop.
    crack; repeat case_match; crack; reflexivity.
  - unfold Get, assert, register_at, map_index in Hop.
    crack; repeat case_match; crack; reflexivity.
  - unfold Send, assert, StackAllocator.Alloc in Hop. crack. reflexivity.
Qed.

Lemma issuing_is_deferred_witness :
  for_each sample_ops issue after_registered = Some after_sample_ops
  /\ visible after_sample_ops = visible after_registered.
Proof.
  assert (H : for_each sample_ops issue after_registered
              = Some after_sample_ops)
    by (vm_compute; reflexivity).
  split; [exact H|]. exact (issuing_is_deferred _ _ _ H).
Defined.

(** During [Sync] memory is written by the application of Puts only:
    along a schedule in which no thread has run [ProcessPutRequests],
    memory is what user code left. *)
Theorem only_puts_write_memory (sched : list choice) (c c' : config)
  (tr : list event) :
  run sched c = Some (tr, c') ->
  (forall p, EvRun p IProcessPutRequests ∉ tr) ->
  heap (shared c') = heap (shared c).
Proof.
  revert c c' tr.
  induction sched as [|ch sched IH]; intros c c' tr Hrun Hno.
  - now injection Hrun as _ <-.
  - cbn [run] in Hrun.
    destruct (sched_step ch c) as [[e c1]|] eqn:Hstep; [|easy].
    cbn [mbind option_bind] in Hrun.
    destruct (run sched c1) as [[tr1 c2]|] eqn:Hrest; [|easy].
    cbn [mbind option_bind] in Hrun. injection Hrun as <- <-.
    rewrite (IH c1 c2 tr1 Hrest).
    2:{ intros p Hin. apply (Hno p). apply elem_of_cons. now right. }
    assert (He : forall p, e ≠ EvRun p IProcessPutRequests).
    { intros p ->. apply (Hno p). apply elem_of_cons. now left. }
    clear IH Hrest Hno.
    destruct ch as [p| |p|message]; cbn [sched_step] in Hstep.
    + destruct (code c !! p) as [[|i rest]|]; try easy.
      destruct (decide (i = ISyncPoint)); [easy|].
      destruct (exec i p (shared c)) as [s'|] eqn:Hexec; [|easy].
      cbn [mbind option_bind] in Hstep. injection Hstep as <- <-.
      cbn [shared].
      destruct i; cbn [exec] in Hexec.
      * now injection Hexec as <-.
      * unfold adopt_tag_size in Hexec. crack; reflexivity.
      * unfold ProcessGetRequests in Hexec.
        apply (for_each_invariant
                 (fun st => heap st = heap (shared c))) in Hexec;
          [exact Hexec| |reflexivity].
        intros owner st1 st2 Hst Hb. crack.
        apply (for_each_invariant
                 (fun st => heap st = heap (shared c))) in E0;
          [exact E0| |exact Hst].
        intros r st3 st4 Hst3 Hr. unfold get_to_put in Hr. crack.
        exact Hst3.
      * unfold ProcessPopRequests in Hexec. crack; [|reflexivity].
        apply (for_each_invariant
                 (fun st => heap st = heap (shared c))) in E0;
          [exact E0| |reflexivity].
        intros x st1 st2 Hst Hb. crack. exact Hst.
      * unfold ProcessSendRequests in Hexec. crack.
        apply (for_each_invariant
                 (fun os => heap (snd os) = heap (shared c))) in E2;
          [exact E2| |reflexivity].
        intros owner [o1 st1] [o2 st2] Hst Hb. unfold deliver_from in Hb.
        crack; exact Hst.
      * now destruct (He p).
      * unfold clear_put_buffer in Hexec. crack. reflexivity.
      * unfold ProcessPushRequests in Hexec. crack; [|reflexivity].
        apply (for_each_invariant
                 (fun st => heap st = heap (shared c))) in E0;
          [exact E0| |reflexivity].
        intros x st1 st2 Hst Hb. crack. exact Hst.
    + destruct (forallb at_barrier (code c)); [|easy].
      now injection Hstep as _ <-.
    + destruct (code c !! p) as [[|[] rest]|]; try easy.
      destruct (mAbort (shared c)); [|easy]. now injection Hstep as _ <-.
    + destruct (existsb outside (code c)); [|easy].
      now injection Hstep as _ <-.
Qed.

Lemma only_puts_write_memory_witness :
  run (take 10 (in_turn 2)) (enter_Sync after_two_puts)
  = Some (fst phase_A_run, snd phase_A_run)
  /\ heap (shared (snd phase_A_run))
     = heap (shared (enter_Sync after_two_puts)).
Proof.
  assert (H : run (take 10 (in_turn 2)) (enter_Sync after_two_puts)
              = Some (fst phase_A_run, snd phase_A_run))
    by (vm_compute; reflexivity).
  split; [exact H|].
  apply (only_puts_write_memory _ _ _ _ H).
  assert (Htr : fst phase_A_run
                = [EvRelease;
                   EvRun 0 IAdoptTagSize; EvRun 1 IAdoptTagSize;
                   EvRun 0 IProcessGetRequests; EvRun 1 IProcessGetRequests;
                   EvRelease;
                   EvRun 0 IProcessPopRequests; EvRun 1 IProcessPopRequests;
                   EvRun 0 IProcessSendRequests;
                   EvRun 1 IProcessSendRequests])
    by (vm_compute; reflexivity).
  rewrite Htr. intros p Hin. apply list_elem_of_In in Hin. cbn in Hin.
  intuition discriminate.
Defined.

Lemma sched_step_adopts (ch : choice) (c c1 : config) (e : event) (v : Z) :
  sched_step ch c = Some (e, c1) ->
  mNewTagSize (shared c) !! 0%nat = Some v ->
  mNewTagSize (shared c1) = mNewTagSize (shared c)
  /\ mProcCount (shared c1) = mProcCount (shared c)
  /\ (e = EvRun 0 IAdoptTagSize -> mTagSize (shared c1) = v)
  /\ (e ≠ EvRun 0 IAdoptTagSize ->
      mTagSize (shared c1) = mTagSize (shared c)).
Proof.
  intros Hstep Hv.
  destruct ch as [p| |p|message]; cbn [sched_step] in Hstep.
  - destruct (code c !! p) as [[|i rest]|]; try easy.
    destruct (decide (i = ISyncPoint)); [easy|].
    destruct (exec i p (shared c)) as [s'|] eqn:Hexec; [|easy].
    cbn [mbind option_bind] in Hstep. injection Hstep as <- <-.
    cbn [shared].
    destruct (decide (i = IAdoptTagSize)) as [->|Hi].
    + cbn [exec] in Hexec. unfold adopt_tag_size in Hexec.
      destruct (decide (p = 0%nat)) as [->|Hp].
      * rewrite Hv in Hexec. cbn [mbind option_bind] in Hexec.
        destruct (decide (v ≠ mTagSize (shared c))) as [Hne|He];
          injection Hexec as <-; cbn.
        -- now repeat split.
        -- assert (v = mTagSize (shared c))
             by (destruct (decide (v = mTagSize (shared c))); easy).
           now repeat split.
      * injection Hexec as <-. repeat split; try easy.
        intros [= ?]. congruence.
    + apply exec_control in Hexec; [|exact Hi].
      unfold control_fields in Hexec.
      assert (Ht : mTagSize s' = mTagSize (shared c)) by congruence.
      assert (Hn : mNewTagSize s' = mNewTagSize (shared c)) by congruence.
      assert (Hp : mProcCount s' = mProcCount (shared c)) by congruence.
      repeat split; try easy. intros [= _ ?]. congruence.
  - destruct (forallb at_barrier (code c)); [|easy].
    injection Hstep as <- <-. now repeat split.
  - destruct (code c !! p) as [[|[] rest]|]; try easy.
    destruct (mAbort (shared c)); [|easy].
    injection Hstep as <- <-. now repeat split.
  - destruct (existsb outside (code c)); [|easy].
    injection Hstep as <- <-. now repeat split.
Qed.

(** [Sync] adopts the tag size process 0 proposed and no other: once
    process 0 has passed the first statement after the first barrier the
    tag size is its proposal, whatever the other processes proposed, and
    until then it is the old one.  No proposal and no process count
    changes during [Sync]. *)
Theorem Sync_adopts_proposal_of_process_0 (sched : list choice) :
  forall (c c' : config) (tr : list event) (v : Z),
    run sched c = Some (tr, c') ->
    mNewTagSize (shared c) !! 0%nat = Some v ->
    mNewTagSize (shared c') = mNewTagSize (shared c)
    /\ mProcCount (shared c') = mProcCount (shared c)
    /\ (EvRun 0 IAdoptTagSize ∈ tr -> mTagSize (shared c') = v)
    /\ (EvRun 0 IAdoptTagSize ∉ tr ->
        mTagSize (shared c') = mTagSize (shared c)).
Proof.
  induction sched as [|ch sched IH]; intros c c' tr v Hrun Hv.
  - injection Hrun as <- <-.
    split; [reflexivity|]. split; [reflexivity|].
    split; [|reflexivity]. intros H. now apply elem_of_nil in H.
  - cbn [run] in Hrun.
    destruct (sched_step ch c) as [[e c1]|] eqn:Hstep; [|easy].
    cbn [mbind option_bind] in Hrun.
    destruct (run sched c1) as [[tr1 c2]|] eqn:Hrest; [|easy].
    cbn [mbind option_bind] in Hrun. injection Hrun as <- <-.
    destruct (sched_step_adopts _ _ _ _ v Hstep Hv)
      as (Hn & Hp & Hyes & Hnot).
    destruct (IH c1 c2 tr1 v Hrest) as (Hn' & Hp' & Hyes' & Hnot');
      [now rewrite Hn|].
    split; [congruence|]. split; [congruence|].
    destruct (decide (EvRun 0 IAdoptTagSize ∈ tr1)) as [Hin|Hout].
    + split; [intros _; now apply Hyes'|].
      intros H. exfalso. apply H. apply elem_of_cons. now right.
    + destruct (decide (e = EvRun 0 IAdoptTagSize)) as [He|He].
      * split; [intros _; rewrite (Hnot' Hout); now apply Hyes|].
        intros H. exfalso. apply H. apply elem_of_cons. now left.
      * split.
        -- intros H. apply elem_of_cons in H as [H|H]; [congruence | easy].
        -- intros _. rewrite (Hnot' Hout). now apply Hnot.
Qed.

Lemma Sync_adopts_proposal_of_process_0_witness :
  mNewTagSize after_two_proposals = [8; 4]
  /\ mTagSize after_two_proposals = 0
  /\ run (in_turn 2) (enter_Sync after_two_proposals)
     = Some (fst two_proposals_run, snd two_proposals_run)
  /\ mTagSize (shared (snd two_proposals_run)) = 8.
Proof.
  assert (H : run (in_turn 2) (enter_Sync after_two_proposals)
              = Some (fst two_proposals_run, snd two_proposals_run))
    by (vm_compute; reflexivity).
  split; [vm_compute; reflexivity|]. split; [vm_compute; reflexivity|].
  split; [exact H|].
  destruct (Sync_adopts_proposal_of_process_0 _ _ _ _ 8 H)
    as (_ & _ & Hyes & _); [vm_compute; reflexivity|].
  apply Hyes. apply (bool_decide_unpack _). vm_compute. exact I.
Defined.

(** ** Registration *)

Lemma register_fields_same (s : BSP) :
  set_mThreadRegisterLocation (mThreadRegisterLocation s)
    (set_mRegisters (mRegisters s) s) = s.
Proof. now destruct s. Qed.

Lemma push_loop (pid : nat) (queue : list PushRequest) :
  forall (s : BSP) (regs : gmap Z RegisterInfo) (locs : list Z),
    mRegisters s !! pid = Some regs ->
    mThreadRegisterLocation s !! pid = Some locs ->
    for_each queue
      (fun pushRequest s =>
         regs ← mRegisters s !! pid;
         let regs := <[pushRegister pushRequest := registerInfo pushRequest]>
                       regs in
         let s := set_mRegisters (<[pid := regs]> (mRegisters s)) s in
         locations ← mThreadRegisterLocation s !! pid;
         Some (set_mThreadRegisterLocation
                 (<[pid := locations ++ [pushRegister pushRequest]]>
                    (mThreadRegisterLocation s)) s)) s
    = Some (set_mThreadRegisterLocation
              (<[pid := locs ++ (pushRegister <$> queue)]>
                 (mThreadRegisterLocation s))
              (set_mRegisters
                 (<[pid := apply_pushes regs queue]> (mRegisters s)) s)).
Proof.
  induction queue as [|r queue IH]; intros s regs locs Hregs Hlocs.
  - cbn [for_each apply_pushes foldl fmap list_fmap].
    rewrite app_nil_r, !list_insert_id by easy.
    now rewrite register_fields_same.
  - cbn [for_each]. rewrite Hregs. cbn [mbind option_bind].
    cbn [mThreadRegisterLocation set_mRegisters]. rewrite Hlocs.
    cbn [mbind option_bind].
    rewrite (IH _ (<[pushRegister r := registerInfo r]> regs)
                (locs ++ [pushRegister r])).
    + cbn [mThreadRegisterLocation mRegisters set_mThreadRegisterLocation
             set_mRegisters].
      rewrite !list_insert_insert_eq, <- app_assoc. reflexivity.
    + cbn. apply list_lookup_insert_eq. now apply lookup_lt_Some in Hregs.
    + cbn. apply list_lookup_insert_eq. now apply lookup_lt_Some in Hlocs.
Qed.

Lemma apply_pushes_other (queue : list PushRequest) :
  forall (regs : gmap Z RegisterInfo) (a : Z),
    a ∉ pushRegister <$> queue ->
    apply_pushes regs queue !! a = regs !! a.
Proof.
  unfold apply_pushes.
  induction queue as [|r queue IH]; intros regs a Ha; [easy|].
  rewrite fmap_cons in Ha. apply not_elem_of_cons in Ha as [Hne Ha].
  cbn [foldl]. rewrite IH by easy. now apply lookup_insert_ne.
Qed.

Lemma apply_pushes_pushed (queue : list PushRequest) :
  forall (regs : gmap Z RegisterInfo) (r : PushRequest),
    NoDup (pushRegister <$> queue) ->
    r ∈ queue ->
    apply_pushes regs queue !! pushRegister r = Some (registerInfo r).
Proof.
  induction queue as [|r0 queue IH]; intros regs r Hnd Hr.
  - now apply elem_of_nil in Hr.
  - rewrite fmap_cons in Hnd. apply NoDup_cons in Hnd as [Hfresh Hnd].
    apply elem_of_cons in Hr as [->|Hr].
    + unfold apply_pushes. cbn [foldl].
      fold (apply_pushes (<[pushRegister r0 := registerInfo r0]> regs) queue).
      rewrite apply_pushes_other by easy. apply lookup_insert_eq.
    + unfold apply_pushes. cbn [foldl]. now apply IH.
Qed.

(** [PushReg] queues the address with the next register index, the
    number of addresses registered or queued so far, and keeps the
    counter in step; maps and index table are not touched yet. *)
Theorem PushReg_assigns_next_index (pid : nat) (ident sz : Z) (s : BSP)
  (locs : list Z) (queue : list PushRequest) :
  (pid < mProcCount s)%nat ->
  (pid < length (mRegisters s))%nat ->
  registers_consistent pid s ->
  mThreadRegisterLocation s !! pid = Some locs ->
  mPushRequests s !! pid = Some queue ->
  Z.of_nat (length locs + length queue) < SIZE_MAX ->
  exists s',
    PushReg pid ident sz s = Some s'
    /\ mPushRequests s' !! pid
       = Some (queue
               ++ [mkPushRequest ident
                     (mkRegisterInfo sz
                        (Z.of_nat (length locs + length queue)))])
    /\ mRegisters s' = mRegisters s
    /\ mThreadRegisterLocation s' = mThreadRegisterLocation s
    /\ registers_consistent pid s'.
Proof.
  intros HP Hregs (count & locs' & queue' & Hc & Hl & Hq & Hcount & Hidx)
         Hlocs Hqueue Hfit.
  rewrite Hlocs in Hl. injection Hl as <-.
  rewrite Hqueue in Hq. injection Hq as <-.
  unfold PushReg, assert.
  destruct (decide (pid < mProcCount s)%nat); [|easy].
  destruct (decide (pid < length (mRegisters s))%nat); [|easy].
  destruct (decide (pid < length (mRegisterCount s))%nat) as [_|Hn].
  2:{ exfalso. apply Hn. now apply lookup_lt_Some in Hc. }
  destruct (decide (pid < length (mThreadRegisterLocation s))%nat)
    as [_|Hn].
  2:{ exfalso. apply Hn. now apply lookup_lt_Some in Hlocs. }
  cbn [mbind option_bind]. rewrite Hc. cbn [mbind option_bind].
  rewrite Hqueue. cbn [mbind option_bind].
  eexists. split; [reflexivity|].
  cbn [mPushRequests mRegisters mThreadRegisterLocation mRegisterCount
         set_mPushRequests set_mRegisterCount].
  assert (Hadd : add64 count 1 = count + 1).
  { unfold add64. apply Z.mod_small. unfold SIZE_MAX in Hfit. lia. }
  split.
  { rewrite list_lookup_insert_eq by (now apply lookup_lt_Some in Hqueue).
    now rewrite Hcount. }
  split; [reflexivity|]. split; [reflexivity|].
  exists (count + 1), locs, (queue ++ [mkPushRequest ident
                                         (mkRegisterInfo sz count)]).
  cbn [mPushRequests mRegisters mThreadRegisterLocation mRegisterCount
         set_mPushRequests set_mRegisterCount].
  split.
  { rewrite Hadd. apply list_lookup_insert_eq.
    now apply lookup_lt_Some in Hc. }
  split; [exact Hlocs|]. split.
  { apply list_lookup_insert_eq. now apply lookup_lt_Some in Hqueue. }
  split; [rewrite length_app; cbn; lia|].
  intros k r Hk. apply lookup_snoc_Some in Hk as [[_ Hk]|[-> <-]].
  - now apply Hidx.
  - cbn. lia.
Qed.

(** [ProcessPushRequests] appends the queued addresses to the index table
    in queue order and enters them in the map.  With the counter in
    step, the index each push was given is the position of its address in
    the table; an address pushed once is mapped to the size and index of
    its push; the queue is left empty and the counter stays in step. *)
Theorem ProcessPushRequests_registers (pid : nat) (s : BSP)
  (queue : list PushRequest) (regs : gmap Z RegisterInfo) (locs : list Z) :
  mPushRequests s !! pid = Some queue ->
  mRegisters s !! pid = Some regs ->
  mThreadRegisterLocation s !! pid = Some locs ->
  registers_consistent pid s ->
  exists (s' : BSP) (regs' : gmap Z RegisterInfo),
    ProcessPushRequests pid s = Some s'
    /\ mRegisters s' = <[pid := regs']> (mRegisters s)
    /\ mThreadRegisterLocation s'
       = <[pid := locs ++ (pushRegister <$> queue)]>
           (mThreadRegisterLocation s)
    /\ mPushRequests s' !! pid = Some []
    /\ registers_consistent pid s'
    /\ (forall a, a ∉ pushRegister <$> queue -> regs' !! a = regs !! a)
    /\ (forall r, r ∈ queue ->
          (locs ++ (pushRegister <$> queue))
            !! Z.to_nat (registerCount (registerInfo r))
          = Some (pushRegister r))
    /\ (NoDup (pushRegister <$> queue) ->
        forall r, r ∈ queue ->
          regs' !! pushRegister r = Some (registerInfo r)).
Proof.
  intros Hqueue Hregs Hlocs
         (count & locs' & queue' & Hc & Hl & Hq & Hcount & Hidx).
  rewrite Hlocs in Hl. injection Hl as <-.
  rewrite Hqueue in Hq. injection Hq as <-.
  assert (Hres : forall r, r ∈ queue ->
            (locs ++ (pushRegister <$> queue))
              !! Z.to_nat (registerCount (registerInfo r))
            = Some (pushRegister r)).
  { intros r Hr. apply list_elem_of_lookup_1 in Hr as [k Hk].
    rewrite (Hidx k r Hk), Nat2Z.id, lookup_app_r by lia.
    replace (length locs + k - length locs)%nat with k by lia.
    now rewrite list_lookup_fmap, Hk. }
  unfold ProcessPushRequests. rewrite Hqueue. cbn [mbind option_bind].
  destruct (decide (queue ≠ [])) as [Hne|He].
  - pose proof (push_loop pid queue s regs locs Hregs Hlocs) as Hloop.
    cbv zeta in Hloop |- *. rewrite Hloop. cbn [mbind option_bind].
    eexists _, (apply_pushes regs queue). split; [reflexivity|].
    cbn [mPushRequests mRegisters mThreadRegisterLocation mRegisterCount
           set_mPushRequests set_mRegisters set_mThreadRegisterLocation].
    split; [reflexivity|]. split; [reflexivity|].
    assert (Hempty : <[pid := []]> (mPushRequests s) !! pid = Some [])
      by (apply list_lookup_insert_eq; now apply lookup_lt_Some in Hqueue).
    split; [exact Hempty|]. split.
    { exists count, (locs ++ (pushRegister <$> queue)), [].
      cbn [mPushRequests mRegisters mThreadRegisterLocation mRegisterCount
             set_mPushRequests set_mRegisters set_mThreadRegisterLocation].
      split; [exact Hc|]. split.
      { apply list_lookup_insert_eq. now apply lookup_lt_Some in Hlocs. }
      split; [exact Hempty|]. split.
      { rewrite length_app, length_fmap. cbn. lia. }
      intros k r Hk. now rewrite lookup_nil in Hk. }
    split; [intros a Ha; now apply apply_pushes_other|].
    split; [exact Hres|].
    intros Hnd r Hr. now apply apply_pushes_pushed.
  - assert (queue = []) as -> by (destruct queue; [easy | now destruct He]).
    exists s, regs. split; [reflexivity|].
    split; [now rewrite list_insert_id|].
    split; [cbn; now rewrite app_nil_r, list_insert_id|].
    split; [exact Hqueue|]. split.
    { exists count, locs, []. easy. }
    split; [easy|]. split; [exact Hres|].
    intros _ r Hr. now apply elem_of_nil in Hr.
Qed.

Lemma PushReg_assigns_next_index_witness :
  registers_consistent 0 after_booted
  /\ PushReg 0 100 1 after_booted = Some after_push_queued
  /\ mPushRequests after_push_queued !! 0%nat
     = Some [mkPushRequest 100 (mkRegisterInfo 1 0)].
Proof.
  assert (Hl : mThreadRegisterLocation after_booted !! 0%nat = Some [])
    by (vm_compute; reflexivity).
  assert (Hq : mPushRequests after_booted !! 0%nat = Some [])
    by (vm_compute; reflexivity).
  assert (Hc : registers_consistent 0 after_booted).
  { exists 0, [], [].
    split; [vm_compute; reflexivity|]. split; [exact Hl|].
    split; [exact Hq|]. split; [reflexivity|].
    intros k r Hk. now rewrite lookup_nil in Hk. }
  split; [exact Hc|].
  destruct (PushReg_assigns_next_index 0 100 1 after_booted [] [])
    as (s' & Hrun & Hqueue & _); try assumption.
  - vm_compute. lia.
  - vm_compute. lia.
  - vm_compute. reflexivity.
  - assert (He : PushReg 0 100 1 after_booted = Some after_push_queued)
      by (vm_compute; reflexivity).
    split; [exact He|].
    rewrite He in Hrun. injection Hrun as <-. exact Hqueue.
Defined.

Lemma ProcessPushRequests_registers_witness :
  registers_consistent 0 after_push_queued
  /\ exists s',
       ProcessPushRequests 0 after_push_queued = Some s'
       /\ mThreadRegisterLocation s' = [[100]; []]
       /\ (mRegisters s' !! 0%nat) ≫= (.!! 100)
          = Some (mkRegisterInfo 1 0).
Proof.
  assert (Hq : mPushRequests after_push_queued !! 0%nat
               = Some [mkPushRequest 100 (mkRegisterInfo 1 0)])
    by (vm_compute; reflexivity).
  assert (Hr : mRegisters after_push_queued !! 0%nat = Some ∅)
    by (vm_compute; reflexivity).
  assert (Hl : mThreadRegisterLocation after_push_queued !! 0%nat = Some [])
    by (vm_compute; reflexivity).
  assert (Hc : registers_consistent 0 after_push_queued).
  { exists 1, [], [mkPushRequest 100 (mkRegisterInfo 1 0)].
    split; [vm_compute; reflexivity|]. split; [exact Hl|].
    split; [exact Hq|]. split; [reflexivity|].
    intros k r Hk. destruct k as [|[|k]]; cbn in Hk; try easy.
    now injection Hk as <-. }
  split; [exact Hc|].
  destruct (ProcessPushRequests_registers 0 after_push_queued _ _ _
              Hq Hr Hl Hc)
    as (s' & regs' & Hrun & Hregs & Hlocs & _ & _ & _ & _ & Hpushed).
  exists s'. split; [exact Hrun|]. split.
  - rewrite Hlocs. vm_compute. reflexivity.
  - rewrite Hregs, list_lookup_insert_eq by (vm_compute; lia).
    cbn [mbind option_bind].
    apply (Hpushed (NoDup_singleton _)
                   (mkPushRequest 100 (mkRegisterInfo 1 0))).
    apply list_elem_of_singleton. reflexivity.
Defined.

(** ** [Put], [GetTag], [Begin] *)

Lemma register_at_present (p : nat) (key : Z) (s : BSP)
  (regs : gmap Z RegisterInfo) (info : RegisterInfo) :
  mRegisters s !! p = Some regs ->
  regs !! key = Some info ->
  register_at p key s = Some (info, s).
Proof.
  intros Hregs Hkey. unfold register_at, map_index.
  rewrite Hregs. cbn [mbind option_bind]. rewrite Hkey.
  now rewrite list_insert_id, set_mRegisters_same.
Qed.

(** What [Put] returns when the address is registered and the Put fits. *)
Lemma Put_result (tpid pid : nat) (src dst offset nbytes : Z)
  (s : BSP) (regs tregs : gmap Z RegisterInfo) (info tinfo : RegisterInfo)
  (locs : list Z) (target : Z) (stack : StackAllocator.t)
  (queue : list PutRequest) :
  (tpid < mProcCount s)%nat ->
  (pid < mProcCount s)%nat ->
  mRegisters s !! tpid = Some regs ->
  regs !! dst = Some info ->
  mThreadRegisterLocation s !! pid = Some locs ->
  0 <= registerCount info ->
  locs !! Z.to_nat (registerCount info) = Some target ->
  mRegisters s !! pid = Some tregs ->
  tregs !! target = Some tinfo ->
  nbytes <= reg_size tinfo ->
  mPutBufferStacks s !! tpid = Some stack ->
  GetQueueFromMe (mPutRequests s) pid tpid = Some queue ->
  Put tpid pid src dst offset nbytes s
  = Some (set_mPutRequests
            (set_cell (mPutRequests s) tpid pid
               (queue ++ [mkPutRequest (StackAllocator.Size stack)
                            (target + offset) nbytes]))
            (set_mPutBufferStacks
               (<[tpid := StackAllocator.Build
                            (StackAllocator.bytes stack
                             ++ read_bytes (heap s) src (Z.to_nat nbytes))]>
                  (mPutBufferStacks s)) s)).
Proof.
  intros Ht Hp Hregs Hdst Hlocs Hpos Htarget Htregs Htinfo Hsize Hstack
         Hqueue.
  unfold Put, assert.
  destruct (decide (tpid < mProcCount s)%nat); [|easy].
  destruct (decide (pid < mProcCount s)%nat); [|easy].
  cbn [mbind option_bind].
  rewrite (register_at_present _ _ _ _ _ Hregs Hdst).
  cbn [mbind option_bind]. rewrite Hlocs. cbn [mbind option_bind].
  destruct (decide (registerCount info < Z.of_nat (length locs)))
    as [_|Hn].
  2:{ exfalso. apply Hn. apply lookup_lt_Some in Htarget. lia. }
  cbn [mbind option_bind]. rewrite Htarget. cbn [mbind option_bind].
  rewrite (register_at_present _ _ _ _ _ Htregs Htinfo).
  cbn [mbind option_bind].
  destruct (decide (nbytes <= reg_size tinfo)); [|lia].
  cbn [mbind option_bind]. rewrite Hstack.
  cbn [mbind option_bind StackAllocator.Alloc].
  cbn [mPutRequests set_mPutBufferStacks]. rewrite Hqueue.
  reflexivity.
Qed.

(** [Put] from a registered address [dst]: the destination is the address
    the target registered under the same index, plus the offset; the
    source bytes are copied into the caller's arena at the call, so later
    writes to the source do not change what is put; the request goes to
    the end of the queue towards the target.  Memory, maps and index
    tables are as before, and the ranges of the Puts already queued still
    hold their bytes. *)
Theorem Put_stages_snapshot (tpid pid : nat) (src dst offset nbytes : Z)
  (s : BSP) (regs tregs : gmap Z RegisterInfo) (info tinfo : RegisterInfo)
  (locs : list Z) (target : Z) (stack : StackAllocator.t)
  (queue : list PutRequest) :
  (tpid < mProcCount s)%nat ->
  (pid < mProcCount s)%nat ->
  mRegisters s !! tpid = Some regs ->
  regs !! dst = Some info ->
  mThreadRegisterLocation s !! pid = Some locs ->
  0 <= registerCount info ->
  locs !! Z.to_nat (registerCount info) = Some target ->
  mRegisters s !! pid = Some tregs ->
  tregs !! target = Some tinfo ->
  0 <= nbytes <= reg_size tinfo ->
  mPutBufferStacks s !! tpid = Some stack ->
  GetQueueFromMe (mPutRequests s) pid tpid = Some queue ->
  let copied := read_bytes (heap s) src (Z.to_nat nbytes) in
  let stack' := StackAllocator.Build (StackAllocator.bytes stack ++ copied) in
  let request :=
    mkPutRequest (StackAllocator.Size stack) (target + offset) nbytes in
  Put tpid pid src dst offset nbytes s
  = Some (set_mPutRequests
            (set_cell (mPutRequests s) tpid pid (queue ++ [request]))
            (set_mPutBufferStacks
               (<[tpid := stack']> (mPutBufferStacks s)) s))
  /\ in_arena stack' (StackAllocator.Size stack) nbytes
  /\ arena_bytes stack' (StackAllocator.Size stack) nbytes = copied
  /\ forall loc n, in_arena stack loc n ->
       in_arena stack' loc n
       /\ arena_bytes stack' loc n = arena_bytes stack loc n.
Proof.
  intros Ht Hp Hregs Hdst Hlocs Hpos Htarget Htregs Htinfo Hsize Hstack
         Hqueue copied stack' request.
  assert (Hlen : Z.of_nat (length copied) = nbytes)
    by (unfold copied; rewrite read_bytes_length; lia).
  split; [|split; [|split]].
  - apply (Put_result tpid pid src dst offset nbytes s regs tregs info
             tinfo locs target stack queue); (easy || lia).
  - rewrite <- Hlen. apply arena_fresh.
  - rewrite <- Hlen. apply arena_fresh.
  - intros loc n Hin. now apply arena_grows.
Qed.

(** [GetTag] only peeks: it leaves the consumption index, the delivered
    queue and the arena as they are, so asking again, for any tag buffer,
    reports the same status. *)
Theorem GetTag_does_not_consume (pid : nat) (tag tag' : Z) (s s' : BSP)
  (status : Z) :
  GetTag pid tag s = Some (status, s') ->
  mSendReceivedIndex s' = mSendReceivedIndex s
  /\ mSendRequests s' = mSendRequests s
  /\ mSendBuffers s' = mSendBuffers s
  /\ exists s'', GetTag pid tag' s' = Some (status, s'').
Proof.
  unfold GetTag, assert.
  destruct (mSendReceivedIndex s !! pid) as [index|] eqn:Hi; [|easy].
  cbn [mbind option_bind].
  destruct (mSendRequests s !! pid) as [q|] eqn:Hq; [|easy].
  cbn [mbind option_bind].
  destruct (decide (q ≠ [] /\ index < Z.of_nat (length q))) as [Hnext|Hno].
  - destruct (q !! Z.to_nat index) as [r|] eqn:Hr; [|easy].
    cbn [mbind option_bind].
    destruct (decide (tagSize r = mTagSize s)) as [Hts|]; [|easy].
    cbn [mbind option_bind].
    destruct (mSendBuffers s !! pid) as [buf|] eqn:Hb; [|easy].
    cbn [mbind option_bind]. unfold StackAllocator.Extract.
    destruct (StackAllocator.read buf (tagLocation r) (tagSize r))
      as [bs|] eqn:Hread; [|easy].
    cbn [mbind option_bind]. intros [= <- <-].
    cbn [mSendReceivedIndex mSendRequests mSendBuffers mTagSize heap
           set_heap].
    split; [reflexivity|]. split; [reflexivity|]. split; [reflexivity|].
    rewrite Hi, Hq. cbn [mbind option_bind].
    destruct (decide (q ≠ [] /\ index < Z.of_nat (length q))); [|easy].
    rewrite Hr. cbn [mbind option_bind].
    destruct (decide (tagSize r = mTagSize s)); [|easy].
    cbn [mbind option_bind]. rewrite Hb. cbn [mbind option_bind].
    rewrite Hread. cbn [mbind option_bind]. eexists. reflexivity.
  - intros [= <- <-].
    split; [reflexivity|]. split; [reflexivity|]. split; [reflexivity|].
    rewrite Hi, Hq. cbn [mbind option_bind].
    destruct (decide (q ≠ [] /\ index < Z.of_nat (length q))); [easy|].
    eexists. reflexivity.
Qed.

(** After [Begin(P)] on process 0 nothing is delivered to anyone: for
    every process [QSize] reports no message and no byte, [GetTag] reports
    [SIZE_MAX] and [Move] does nothing.  Both flags are clear and all
    proposals are 0; memory and the tag size are not touched. *)
Theorem Begin_starts_with_nothing_delivered (P pid : nat) (s : BSP)
  (tag buf max_n : Z) :
  (pid < P)%nat ->
  exists s',
    Begin 0 P s = Some s'
    /\ mProcCount s' = P
    /\ mEnded s' = false /\ mAbort s' = false
    /\ heap s' = heap s
    /\ mTagSize s' = mTagSize s
    /\ mNewTagSize s' !! pid = Some 0
    /\ QSize pid true s' = Some (0, Some 0)
    /\ GetTag pid tag s' = Some (SIZE_MAX, s')
    /\ Move pid buf max_n s' = Some s'.
Proof.
  intros Hpid. unfold Begin. cbn [decide].
  destruct (decide (0%nat ≠ 0%nat)); [easy|].
  eexists. split; [reflexivity|].
  split; [reflexivity|]. split; [reflexivity|]. split; [reflexivity|].
  split; [reflexivity|]. split; [reflexivity|].
  split; [cbn; now apply lookup_replicate_2|].
  split; [|split].
  - unfold QSize. cbn [mSendRequests set_mSendReceivedIndex set_mNewTagSize
                         set_mPutBufferStacks set_mPopRequests
                         set_mPushRequests set_mSendBuffers
                         set_mSendRequests].
    rewrite lookup_replicate_2 by exact Hpid. reflexivity.
  - unfold GetTag. cbn [mSendRequests mSendReceivedIndex
                          set_mSendReceivedIndex set_mNewTagSize
                          set_mPutBufferStacks set_mPopRequests
                          set_mPushRequests set_mSendBuffers
                          set_mSendRequests].
    rewrite !lookup_replicate_2 by exact Hpid. cbn [mbind option_bind].
    destruct (decide _) as [[Hne _]|_]; [easy | reflexivity].
  - unfold Move. cbn [mSendRequests set_mSendReceivedIndex set_mNewTagSize
                        set_mPutBufferStacks set_mPopRequests
                        set_mPushRequests set_mSendBuffers
                        set_mSendRequests].
    rewrite lookup_replicate_2 by exact Hpid. cbn [mbind option_bind].
    now destruct (decide _).
Qed.

Lemma Put_stages_snapshot_witness :
  Put 0 1 10 100 0 1 after_registered
  = Some (set_mPutRequests
            (set_cell (mPutRequests after_registered) 0 1
               [mkPutRequest 0 200 1])
            (set_mPutBufferStacks
               (<[0%nat := StackAllocator.Build [xaa]]>
                  (mPutBufferStacks after_registered))
               after_registered)).
Proof.
  destruct (Put_stages_snapshot 0 1 10 100 0 1 after_registered
              {[100 := mkRegisterInfo 1 0]} {[200 := mkRegisterInfo 1 0]}
              (mkRegisterInfo 1 0) (mkRegisterInfo 1 0) [200] 200
              StackAllocator.empty [])
    as (Hput & _).
  1-12: first [vm_compute; reflexivity | cbn; lia | vm_compute; lia].
  rewrite Hput. f_equal.
Defined.

Lemma GetTag_does_not_consume_witness :
  exists s', GetTag 1 300 after_one_delivered = Some (1, s')
             /\ exists s'', GetTag 1 400 s' = Some (1, s'').
Proof.
  assert (H : GetTag 1 300 after_one_delivered
              = Some (1, after_one_delivered)) by (vm_compute; reflexivity).
  eexists. split; [exact H|].
  destruct (GetTag_does_not_consume 1 300 400 _ _ _ H) as (_ & _ & _ & Hagain).
  exact Hagain.
Defined.

Lemma Begin_starts_with_nothing_delivered_witness :
  exists s', Begin 0 2 (BSP_ctor sample_heap) = Some s'
             /\ QSize 1 true s' = Some (0, Some 0)
             /\ GetTag 1 300 s' = Some (SIZE_MAX, s').
Proof.
  destruct (Begin_starts_with_nothing_delivered 2 1 (BSP_ctor sample_heap)
              300 300 1) as (s' & Hb & _ & _ & _ & _ & _ & _ & Hq & Hg & _);
    [lia|].
  exists s'. now repeat split.
Defined.

(** ** Delivery end to end *)

Lemma ProcessSendRequests_runs (pid : nat) (s : BSP) :
  sends_ready pid s ->
  Z.of_nat (length (merged_bytes (staged pid s) (staged_bytes pid s) 0
                                 (mProcCount s))) <= SIZE_MAX ->
  exists s' : BSP,
    ProcessSendRequests pid s = Some s'
    /\ mSendRequests s' !! pid
       = Some (merged_queue (staged pid s) (staged_bytes pid s) 0 0
                            (mProcCount s))
    /\ mSendBuffers s' !! pid
       = Some (StackAllocator.Build
                 (merged_bytes (staged pid s) (staged_bytes pid s) 0
                               (mProcCount s)))
    /\ mSendReceivedIndex s' !! pid = Some 0
    /\ heap s' = heap s
    /\ mTagSize s' = mTagSize s.
Proof.
  intros (Hd & Hi & Hsb & Hcells) Hfit.
  destruct Hd as [d Hd], Hi as [index Hi], Hsb as [sb Hsb].
  set (Q := staged pid s) in *. set (B := staged_bytes pid s) in *.
  set (s0 := set_mSendBuffers
               (<[pid := StackAllocator.Clear sb]> (mSendBuffers s))
               (set_mSendReceivedIndex
                  (<[pid := 0]> (mSendReceivedIndex s))
                  (set_mSendRequests (<[pid := []]> (mSendRequests s)) s))).
  assert (Hlen : (pid < length (mSendRequests s))%nat)
    by (now apply lookup_lt_Some in Hd).
  assert (Hlen' : (pid < length (mSendBuffers s))%nat)
    by (now apply lookup_lt_Some in Hsb).
  assert (Hlen'' : (pid < length (mSendReceivedIndex s))%nat)
    by (now apply lookup_lt_Some in Hi).
  destruct (deliver_loop pid Q B (mProcCount s) 0 s0 []
              StackAllocator.empty)
    as (Qr & Qb & Hrun & _).
  { unfold s0. simpl. now apply list_lookup_insert_eq. }
  { unfold s0. simpl. now apply list_lookup_insert_eq. }
  { intros owner Ho. destruct (Hcells owner) as [[q Hq] [b Hb]]; [lia|].
    unfold Q, B, staged, staged_bytes, s0. simpl. now rewrite Hq, Hb. }
  { unfold StackAllocator.Size. simpl. exact Hfit. }
  change (StackAllocator.Size StackAllocator.empty) with 0 in Hrun.
  rewrite Z.add_0_l in Hrun.
  cbn [StackAllocator.bytes StackAllocator.empty app] in Hrun.
  eexists. split.
  { unfold ProcessSendRequests. rewrite Hd. cbn [mbind option_bind].
    cbn [mSendReceivedIndex set_mSendRequests]. rewrite Hi.
    cbn [mbind option_bind].
    cbn [mSendBuffers set_mSendReceivedIndex set_mSendRequests].
    rewrite Hsb. cbn [mbind option_bind].
    fold s0. change (mProcCount s0) with (mProcCount s).
    rewrite Hrun. reflexivity. }
  cbn [mSendRequests mSendBuffers mSendReceivedIndex mTmpSendRequests
         set_mTmpSendBuffers set_mTmpSendRequests set_mSendBuffers
         set_mSendRequests heap mTagSize].
  split.
  { unfold s0. simpl. rewrite list_lookup_insert_eq; [easy|].
    now rewrite length_insert. }
  split.
  { unfold s0. simpl. rewrite list_lookup_insert_eq; [easy|].
    now rewrite length_insert. }
  split; [unfold s0; simpl; now apply list_lookup_insert_eq|].
  split; reflexivity.
Qed.

(** Owners that staged nothing add nothing. *)
Lemma merged_nothing Q B (n : nat) :
  forall (i : nat) (offset : Z),
    (forall o, (i <= o < i + n)%nat -> Q o = []) ->
    merged_bytes Q B i n = [] /\ merged_queue Q B i offset n = [].
Proof.
  induction n as [|n IH]; intros i offset Hempty; [easy|].
  rewrite merged_bytes_S, merged_queue_S.
  assert (Hi : Q i = []) by (apply Hempty; lia).
  unfold contribution. rewrite Hi.
  destruct (decide ([] = [])) as [_|]; [|easy].
  destruct (IH (S i) (offset + Z.of_nat (length (@nil byte)))) as [-> ->];
    [intros o Ho; apply Hempty; lia|].
  easy.
Qed.

(** What was delivered and not moved is gone after the next [Sync]: when
    no process has staged a send for [pid], [ProcessSendRequests] leaves
    it an empty delivered queue and an empty arena, whatever they held,
    so [QSize] reports nothing and [GetTag] reports [SIZE_MAX]. *)
Theorem ProcessSendRequests_drops_unread (pid : nat) (s : BSP) :
  sends_ready pid s ->
  (forall owner, (owner < mProcCount s)%nat -> staged pid s owner = []) ->
  exists s' : BSP,
    ProcessSendRequests pid s = Some s'
    /\ mSendRequests s' !! pid = Some []
    /\ mSendBuffers s' !! pid = Some StackAllocator.empty
    /\ mSendReceivedIndex s' !! pid = Some 0
    /\ QSize pid true s' = Some (0, Some 0)
    /\ forall tag, GetTag pid tag s' = Some (SIZE_MAX, s').
Proof.
  intros Hready Hempty.
  destruct (merged_nothing (staged pid s) (staged_bytes pid s)
              (mProcCount s) 0 0) as [Hb Hq];
    [intros o Ho; apply Hempty; lia|].
  destruct (ProcessSendRequests_runs pid s Hready)
    as (s' & Hrun & Hq' & Hb' & Hi' & _).
  { rewrite Hb. cbn. unfold SIZE_MAX, size_t_modulus. lia. }
  rewrite Hq in Hq'. rewrite Hb in Hb'.
  exists s'. split; [exact Hrun|]. split; [exact Hq'|].
  split; [exact Hb'|]. split; [exact Hi'|]. split.
  - unfold QSize. now rewrite Hq'.
  - intros tag. unfold GetTag. rewrite Hi', Hq'. cbn [mbind option_bind].
    destruct (decide _) as [[Hne _]|_]; [easy | reflexivity].
Qed.

Lemma ProcessSendRequests_drops_unread_witness :
  mSendRequests after_one_delivered !! 1%nat = Some [mkSendRequest 0 1 1 0]
  /\ exists s',
       ProcessSendRequests 1 after_one_delivered = Some s'
       /\ mSendRequests s' !! 1%nat = Some [].
Proof.
  assert (HP : mProcCount after_one_delivered = 2%nat)
    by (vm_compute; reflexivity).
  split; [vm_compute; reflexivity|].
  destruct (ProcessSendRequests_drops_unread 1 after_one_delivered)
    as (s' & Hrun & Hq & _).
  - split; [eexists; vm_compute; reflexivity|].
    split; [eexists; vm_compute; reflexivity|].
    split; [eexists; vm_compute; reflexivity|].
    intros owner Ho. rewrite HP in Ho.
    destruct owner as [|[|owner]]; [| |lia].
    all: split; eexists; vm_compute; reflexivity.
  - intros owner Ho. rewrite HP in Ho.
    destruct owner as [|[|owner]]; [| |lia]; vm_compute; reflexivity.
  - exists s'. now split.
Defined.

Lemma take_read_bytes (m : memory) (n : nat) :
  forall (k : nat) (src : Z),
    (k <= n)%nat -> take k (read_bytes m src n) = read_bytes m src k.
Proof.
  induction n as [|n IH]; intros k src Hk.
  - now replace k with 0%nat by lia.
  - destruct k as [|k]; [reflexivity|].
    cbn [read_bytes take]. f_equal. apply IH. lia.
Qed.

(** When only [src] has staged something, the receive arena is its
    staging arena and the delivered queue its staging queue. *)
Lemma merged_single Q B (n src : nat) :
  (src < n)%nat ->
  (forall o, (o < n)%nat -> o ≠ src -> Q o = []) ->
  merged_bytes Q B 0 n = contribution Q B src
  /\ merged_queue Q B 0 0 n = rebase 0 <$> Q src.
Proof.
  intros Hsrc Hothers.
  destruct (merged_nothing Q B src 0 0) as [Hb0 Hq0];
    [intros o Ho; apply Hothers; lia|].
  assert (Hbase : base_at Q B 0 0 src = 0).
  { unfold base_at. now rewrite Nat.sub_0_r, Hb0. }
  split.
  - rewrite (merged_bytes_split Q B n src Hsrc), Hb0.
    destruct (merged_nothing Q B (n - src - 1) (S src) 0) as [-> _];
      [intros o Ho; apply Hothers; lia|].
    now rewrite app_nil_r.
  - rewrite (merged_queue_split Q B n src Hsrc), Hq0, Hbase.
    assert (Hrest : concat ((fun o => rebase (base_at Q B 0 0 o) <$> Q o)
                              <$> seq (S src) (n - src - 1)) = []).
    { apply concat_nil_Forall, Forall_fmap, Forall_forall.
      intros o Ho. apply elem_of_seq in Ho. unfold compose.
      rewrite (Hothers o) by lia. reflexivity. }
    rewrite Hrest. now rewrite app_nil_r.
Qed.

(** Round trip of a message.  At the start of a superstep (nothing staged
    for [pid] yet) [src] sends [sz] payload bytes with the current tag
    size.  After [ProcessSendRequests(pid)], [GetTag] reports [sz] and
    copies the tag bytes as they were in memory at the call of [Send],
    and [Move] copies the first [min(max_n, sz)] payload bytes as they
    were at that call, and advances the consumption index to 1. *)
Theorem Send_round_trip (src pid : nat) (tag payload sz : Z) (s0 s1 : BSP)
  (tagbuf buf max_n : Z) :
  sends_ready pid s0 ->
  (src < mProcCount s0)%nat ->
  (forall owner, (owner < mProcCount s0)%nat ->
     staged pid s0 owner = []
     /\ StackAllocator.bytes (staged_bytes pid s0 owner) = []) ->
  Send src pid tag payload sz s0 = Some s1 ->
  0 <= sz -> 0 <= mTagSize s0 -> sz + mTagSize s0 <= SIZE_MAX ->
  0 <= max_n ->
  exists s2,
    ProcessSendRequests pid s1 = Some s2
    /\ (exists s3,
          GetTag pid tagbuf s2 = Some (sz, s3)
          /\ read_bytes (heap s3) tagbuf (Z.to_nat (mTagSize s0))
             = read_bytes (heap s0) tag (Z.to_nat (mTagSize s0)))
    /\ (exists s4,
          Move pid buf max_n s2 = Some s4
          /\ read_bytes (heap s4) buf (Z.to_nat (Z.min max_n sz))
             = read_bytes (heap s0) payload (Z.to_nat (Z.min max_n sz))
          /\ mSendReceivedIndex s4 !! pid = Some 1).
Proof.
  intros Hready Hsrc Hfresh Hsend Hsz Hts Hfit Hmax.
  destruct (Send_result _ _ _ _ _ _ _ Hsend) as (q & b & Hq & Hb & _ & Hs1).
  cbv zeta in Hs1.
  set (paid := read_bytes (heap s0) payload (Z.to_nat sz)) in *.
  set (tagged := read_bytes (heap s0) tag (Z.to_nat (mTagSize s0))) in *.
  assert (Hlp : length paid = Z.to_nat sz) by apply read_bytes_length.
  assert (Hlt : length tagged = Z.to_nat (mTagSize s0))
    by apply read_bytes_length.
  destruct (Hfresh src Hsrc) as [Hq0 Hb0].
  unfold staged, staged_bytes, GetQueueToMe in Hq0, Hb0.
  rewrite Hq in Hq0. rewrite Hb in Hb0. cbn in Hq0, Hb0.
  subst q. rewrite Hb0 in Hs1.
  assert (Hsize : StackAllocator.Size b = 0)
    by (unfold StackAllocator.Size; now rewrite Hb0).
  rewrite Hsize in Hs1. cbn [app] in Hs1.
  set (r := mkSendRequest 0 sz (Z.of_nat (length paid)) (mTagSize s0)) in *.
  assert (HQ : staged pid s1 src = [r]).
  { subst s1. unfold staged, GetQueueToMe. cbn.
    now rewrite (cell_set_cell_eq _ _ _ _ [] Hq). }
  assert (HB : staged_bytes pid s1 src
               = StackAllocator.Build (paid ++ tagged)).
  { subst s1. unfold staged_bytes, GetQueueToMe. cbn.
    now rewrite (cell_set_cell_eq _ _ _ _ b Hb). }
  assert (HP : mProcCount s1 = mProcCount s0) by (now subst s1).
  assert (Hothers : forall o, (o < mProcCount s1)%nat -> o ≠ src ->
                              staged pid s1 o = []).
  { intros o Ho Hne. rewrite HP in Ho. destruct (Hfresh o Ho) as [Ho0 _].
    rewrite <- Ho0. subst s1. unfold staged, GetQueueToMe. cbn.
    rewrite cell_set_cell_ne; [easy|]. intros Heq. inversion Heq.
    congruence. }
  assert (Hready1 : sends_ready pid s1).
  { destruct Hready as (H1 & H2 & H3 & H4). subst s1.
    split; [exact H1|]. split; [exact H2|]. split; [exact H3|].
    intros owner Ho. cbn in Ho. destruct (H4 owner Ho) as [H5 H6].
    unfold GetQueueToMe in *. cbn.
    destruct (decide (owner = src)) as [->|Hne].
    - rewrite (cell_set_cell_eq _ _ _ _ [] Hq).
      rewrite (cell_set_cell_eq _ _ _ _ b Hb). split; eexists; reflexivity.
    - rewrite !cell_set_cell_ne
        by (intros Heq; inversion Heq; congruence).
      now split. }
  destruct (merged_single (staged pid s1) (staged_bytes pid s1)
              (mProcCount s1) src) as [Hmb Hmq];
    [now rewrite HP | exact Hothers|].
  unfold contribution in Hmb. rewrite HQ, HB in Hmb.
  destruct (decide ([r] = [])) as [|_]; [easy|].
  cbn [StackAllocator.bytes] in Hmb. rewrite HQ in Hmq.
  assert (Hr0 : rebase 0 r = r).
  { unfold rebase, r, add64. cbn [bufferLocation bufferSize tagLocation
                                    tagSize].
    rewrite !Z.add_0_r, Zmod_0_l, Z.mod_small; [reflexivity|].
    unfold SIZE_MAX in Hfit. lia. }
  cbn [fmap list_fmap] in Hmq. rewrite Hr0 in Hmq.
  destruct (ProcessSendRequests_runs pid s1 Hready1)
    as (s2 & Hrun & Hq2 & Hb2 & Hi2 & Hh2 & Ht2).
  { rewrite Hmb, length_app. lia. }
  rewrite Hmq in Hq2. rewrite Hmb in Hb2.
  assert (Hheap : heap s2 = heap s0) by (rewrite Hh2; now subst s1).
  assert (Htag : mTagSize s2 = mTagSize s0) by (rewrite Ht2; now subst s1).
  exists s2. split; [exact Hrun|]. split.
  - unfold GetTag, assert. rewrite Hi2, Hq2. cbn [mbind option_bind].
    destruct (decide _) as [_|Hn]; [|exfalso; apply Hn; split; [easy|cbn; lia]].
    change ([r] !! Z.to_nat 0) with (Some r). cbn [mbind option_bind].
    destruct (decide (tagSize r = mTagSize s2)) as [_|Hn];
      [|now rewrite Htag in Hn].
    cbn [mbind option_bind]. rewrite Hb2. cbn [mbind option_bind].
    unfold StackAllocator.Extract.
    rewrite read_in_arena.
    2:{ unfold in_arena, StackAllocator.Size, r.
        cbn [tagLocation tagSize StackAllocator.bytes].
        rewrite length_app. lia. }
    cbn [mbind option_bind]. eexists. split; [reflexivity|].
    cbn [heap set_heap StackAllocator.bytes]. unfold r.
    cbn [tagLocation tagSize StackAllocator.bytes].
    rewrite Nat2Z.id, drop_app_length.
    rewrite firstn_all2 by lia.
    rewrite <- Hlt. apply read_bytes_memcpy_to.
  - unfold Move. rewrite Hq2. cbn [mbind option_bind].
    destruct (decide ([r] = [])) as [|_]; [easy|].
    rewrite Hi2. cbn [mbind option_bind].
    change ([r] !! Z.to_nat 0) with (Some r). cbn [mbind option_bind].
    cbn [mSendBuffers set_mSendReceivedIndex]. rewrite Hb2.
    cbn [mbind option_bind]. unfold StackAllocator.Extract.
    unfold r at 1 2. cbn [bufferLocation bufferSize].
    rewrite read_in_arena.
    2:{ unfold in_arena, StackAllocator.Size.
        cbn [StackAllocator.bytes]. rewrite length_app. lia. }
    cbn [mbind option_bind]. eexists. split; [reflexivity|].
    cbn [heap set_heap mSendReceivedIndex set_mSendReceivedIndex].
    split.
    + change (Z.to_nat 0) with 0%nat. cbn [StackAllocator.bytes].
      rewrite drop_0, take_app_le by lia.
      unfold paid. rewrite take_read_bytes by lia.
      pose proof (read_bytes_memcpy_to
                    (read_bytes (heap s0) payload
                                (Z.to_nat (Z.min max_n sz)))
                    (heap s2) buf) as Hback.
      rewrite read_bytes_length in Hback. exact Hback.
    + apply list_lookup_insert_eq. now apply lookup_lt_Some in Hi2.
Qed.

Lemma Send_round_trip_witness :
  Send 0 1 0 10 1 after_booted = Some after_one_sent
  /\ exists s2,
       ProcessSendRequests 1 after_one_sent = Some s2
       /\ (exists s3,
             GetTag 1 300 s2 = Some (1, s3)
             /\ read_bytes (heap s3) 300 (Z.to_nat (mTagSize after_booted))
                = read_bytes (heap after_booted) 0
                    (Z.to_nat (mTagSize after_booted)))
       /\ (exists s4,
             Move 1 400 1 s2 = Some s4
             /\ read_bytes (heap s4) 400 (Z.to_nat (Z.min 1 1))
                = read_bytes (heap after_booted) 10 (Z.to_nat (Z.min 1 1))
             /\ mSendReceivedIndex s4 !! 1%nat = Some 1).
Proof.
  assert (HP : mProcCount after_booted = 2%nat)
    by (vm_compute; reflexivity).
  assert (HT : mTagSize after_booted = 0) by (vm_compute; reflexivity).
  assert (Hsend : Send 0 1 0 10 1 after_booted = Some after_one_sent)
    by (vm_compute; reflexivity).
  split; [exact Hsend|].
  apply (Send_round_trip 0 1 0 10 1 after_booted after_one_sent 300 400 1).
  - split; [eexists; vm_compute; reflexivity|].
    split; [eexists; vm_compute; reflexivity|].
    split; [eexists; vm_compute; reflexivity|].
    intros owner Ho. rewrite HP in Ho.
    destruct owner as [|[|owner]]; [| |lia].
    all: split; eexists; vm_compute; reflexivity.
  - rewrite HP. lia.
  - intros owner Ho. rewrite HP in Ho.
    destruct owner as [|[|owner]]; [| |lia].
    all: split; vm_compute; reflexivity.
  - exact Hsend.
  - lia.
  - rewrite HT. lia.
  - rewrite HT. vm_compute. intros H. discriminate H.
  - lia.
Defined.

(** ** [ProcessGetRequests] *)

Lemma set_cell_id {T} (q : CommunicationQueues T) (from to : nat) (x : T) :
  cell q from to = Some x -> set_cell q from to x = q.
Proof.
  unfold cell, set_cell. intros H.
  destruct (q !! from) as [row|] eqn:Hrow; simpl in H; [|easy].
  apply list_eq. intros j. destruct (decide (j = from)) as [->|Hne].
  - rewrite list_lookup_alter_eq, Hrow. simpl. f_equal.
    now apply list_insert_id.
  - now rewrite list_lookup_alter_ne.
Qed.

Lemma put_fields_same (s : BSP) :
  set_mPutRequests (mPutRequests s)
    (set_mPutBufferStacks (mPutBufferStacks s) s) = s.
Proof. now destruct s. Qed.

Lemma gets_as_puts_extends (m : memory) (rs : list GetRequest) :
  forall stack, exists extra,
    snd (gets_as_puts m stack rs) = stack ++ extra.
Proof.
  induction rs as [|r rs IH]; intros stack.
  - exists []. now rewrite app_nil_r.
  - cbn [gets_as_puts].
    destruct (IH (stack ++ read_bytes m (get_source r)
                                      (Z.to_nat (get_size r))))
      as [extra Hextra].
    destruct (gets_as_puts m _ rs) as [ps stack'] eqn:Hrec.
    cbn [snd] in *. rewrite Hextra, <- app_assoc. eauto.
Qed.

Lemma gets_as_puts_length (m : memory) (rs : list GetRequest) :
  forall stack, length (fst (gets_as_puts m stack rs)) = length rs.
Proof.
  induction rs as [|r rs IH]; intros stack; [reflexivity|].
  cbn [gets_as_puts].
  specialize (IH (stack ++ read_bytes m (get_source r)
                                         (Z.to_nat (get_size r)))).
  destruct (gets_as_puts m _ rs) as [ps stack'].
  cbn [fst length] in *. now rewrite IH.
Qed.

(** Each Get of the list is answered by the Put at its position. *)
Lemma gets_as_puts_answers (m : memory) (rs : list GetRequest) :
  forall (stack : list byte) (k : nat) (r : GetRequest),
    Forall (fun r => 0 <= get_size r) rs ->
    rs !! k = Some r ->
    exists p,
      fst (gets_as_puts m stack rs) !! k = Some p
      /\ answers m (StackAllocator.Build (snd (gets_as_puts m stack rs))) p r.
Proof.
  induction rs as [|r0 rs IH]; intros stack k r Hpos Hk; [easy|].
  apply Forall_cons in Hpos as [Hpos0 Hpos].
  cbn [gets_as_puts].
  set (copied := read_bytes m (get_source r0) (Z.to_nat (get_size r0))).
  destruct (gets_as_puts_extends m rs (stack ++ copied)) as [extra Hextra].
  specialize (IH (stack ++ copied)).
  destruct (gets_as_puts m (stack ++ copied) rs) as [ps stack'] eqn:Hrec.
  cbn [fst snd] in *.
  destruct k as [|k].
  - injection Hk as <-. eexists. split; [reflexivity|].
    unfold answers. cbn [put_destination put_size put_bufferLocation].
    split; [reflexivity|]. split; [reflexivity|].
    assert (Hlen : Z.of_nat (length copied) = get_size r0)
      by (unfold copied; rewrite read_bytes_length; lia).
    destruct (arena_fresh (StackAllocator.Build stack) copied) as [Hin Hb].
    cbn [StackAllocator.bytes] in Hin, Hb.
    unfold StackAllocator.Size in Hin, Hb. cbn [StackAllocator.bytes] in Hin, Hb.
    rewrite Hlen in Hin, Hb.
    destruct (arena_grows (StackAllocator.Build (stack ++ copied)) extra
                _ _ Hin) as [Hin' Hb'].
    cbn [StackAllocator.bytes] in Hin', Hb'.
    rewrite Hextra. split; [exact Hin'|]. now rewrite Hb'.
  - destruct (IH k r Hpos Hk) as (p & Hp & Hans). exists p. now split.
Qed.

Lemma get_to_put_step (pid owner : nat) (r : GetRequest) (s : BSP)
  (stack : StackAllocator.t) (queue : list PutRequest) :
  mPutBufferStacks s !! pid = Some stack ->
  cell (mPutRequests s) pid owner = Some queue ->
  get_to_put pid owner r s
  = Some (set_mPutRequests
            (set_cell (mPutRequests s) pid owner
               (queue ++ [mkPutRequest (StackAllocator.Size stack)
                            (get_destination r) (get_size r)]))
            (set_mPutBufferStacks
               (<[pid := StackAllocator.Build
                           (StackAllocator.bytes stack
                            ++ read_bytes (heap s) (get_source r)
                                          (Z.to_nat (get_size r)))]>
                  (mPutBufferStacks s)) s)).
Proof.
  intros Hstack Hqueue. unfold get_to_put, GetQueueFromMe.
  rewrite Hstack. cbn [mbind option_bind StackAllocator.Alloc].
  cbn [mPutRequests set_mPutBufferStacks]. now rewrite Hqueue.
Qed.

(** The inner loop of [ProcessGetRequests]. *)
Lemma get_to_put_loop (pid owner : nat) (rs : list GetRequest) :
  forall (s : BSP) (stack : StackAllocator.t) (queue : list PutRequest),
    mPutBufferStacks s !! pid = Some stack ->
    cell (mPutRequests s) pid owner = Some queue ->
    for_each rs (get_to_put pid owner) s
    = Some (set_mPutRequests
              (set_cell (mPutRequests s) pid owner
                 (queue ++ fst (gets_as_puts (heap s)
                                  (StackAllocator.bytes stack) rs)))
              (set_mPutBufferStacks
                 (<[pid := StackAllocator.Build
                             (snd (gets_as_puts (heap s)
                                     (StackAllocator.bytes stack) rs))]>
                    (mPutBufferStacks s)) s)).
Proof.
  induction rs as [|r rs IH]; intros s stack queue Hstack Hqueue.
  - cbn [for_each gets_as_puts fst snd]. rewrite app_nil_r.
    rewrite (set_cell_id _ _ _ _ Hqueue).
    replace (StackAllocator.Build (StackAllocator.bytes stack)) with stack
      by (now destruct stack).
    rewrite list_insert_id by exact Hstack.
    now rewrite put_fields_same.
  - cbn [for_each]. rewrite (get_to_put_step _ _ _ _ _ _ Hstack Hqueue).
    cbn [mbind option_bind].
    rewrite (IH _ (StackAllocator.Build
                     (StackAllocator.bytes stack
                      ++ read_bytes (heap s) (get_source r)
                                    (Z.to_nat (get_size r))))
                (queue ++ [mkPutRequest (StackAllocator.Size stack)
                             (get_destination r) (get_size r)])).
    + cbn [gets_as_puts heap mPutRequests mPutBufferStacks
             set_mPutRequests set_mPutBufferStacks StackAllocator.bytes].
      destruct (gets_as_puts (heap s) _ rs) as [ps stack'].
      cbn [fst snd]. f_equal.
      unfold set_mPutRequests, set_mPutBufferStacks. cbn. f_equal.
      * apply list_insert_insert_eq.
      * unfold set_cell. rewrite list_alter_alter_eq, <- app_assoc.
        apply list_alter_ext; [|reflexivity].
        intros row _. unfold compose. now rewrite list_insert_insert_eq.
    + cbn. apply list_lookup_insert_eq. now apply lookup_lt_Some in Hstack.
    + cbn. now apply (cell_set_cell_eq _ _ _ _ queue).
Qed.

Lemma answers_grows (m : memory) (bs more : list byte) (p : PutRequest)
  (r : GetRequest) :
  answers m (StackAllocator.Build bs) p r ->
  answers m (StackAllocator.Build (bs ++ more)) p r.
Proof.
  intros (Hd & Hs & Hin & Hb).
  destruct (arena_grows (StackAllocator.Build bs) more _ _ Hin) as [Hin' Hb'].
  cbn [StackAllocator.bytes] in Hin', Hb'.
  split; [exact Hd|]. split; [exact Hs|]. split; [exact Hin'|].
  now rewrite Hb'.
Qed.

(** The loop over the owners [i, i + n). *)
Lemma get_owner_loop (pid : nat) (n : nat) :
  forall (i : nat) (s : BSP) (stack : StackAllocator.t),
    mPutBufferStacks s !! pid = Some stack ->
    (forall owner, (i <= owner < i + n)%nat ->
       is_Some (cell (mPutRequests s) pid owner)
       /\ exists gets, cell (mGetRequests s) owner pid = Some gets
                       /\ Forall (fun r => 0 <= get_size r) gets) ->
    exists (s' : BSP) (extra : list byte),
      for_each (seq i n) (fun owner s =>
        getQueue ← cell (mGetRequests s) owner pid;
        s ← for_each (reverse getQueue) (get_to_put pid owner) s;
        Some (set_mGetRequests (set_cell (mGetRequests s) owner pid []) s)) s
      = Some s'
      /\ heap s' = heap s
      /\ mPutBufferStacks s'
         = <[pid := StackAllocator.Build (StackAllocator.bytes stack ++ extra)]>
             (mPutBufferStacks s)
      /\ (forall owner, (i <= owner < i + n)%nat ->
            cell (mGetRequests s') owner pid = Some [])
      /\ (forall from to, ~ (to = pid /\ (i <= from < i + n)%nat) ->
            cell (mGetRequests s') from to = cell (mGetRequests s) from to)
      /\ (forall from to, ~ (from = pid /\ (i <= to < i + n)%nat) ->
            cell (mPutRequests s') from to = cell (mPutRequests s) from to)
      /\ (forall owner gets puts,
            (i <= owner < i + n)%nat ->
            cell (mGetRequests s) owner pid = Some gets ->
            cell (mPutRequests s) pid owner = Some puts ->
            exists ps,
              cell (mPutRequests s') pid owner = Some (puts ++ ps)
              /\ length ps = length gets
              /\ forall k r, reverse gets !! k = Some r ->
                   exists p, ps !! k = Some p
                             /\ answers (heap s)
                                  (StackAllocator.Build
                                     (StackAllocator.bytes stack ++ extra))
                                  p r).
Proof.
  induction n as [|n IH]; intros i s stack Hstack Hcells.
  - exists s, []. cbn [seq for_each]. rewrite app_nil_r.
    replace (StackAllocator.Build (StackAllocator.bytes stack)) with stack
      by (now destruct stack).
    rewrite list_insert_id by exact Hstack.
    split; [reflexivity|]. split; [reflexivity|]. split; [reflexivity|].
    split; [lia|]. split; [easy|]. split; [easy|]. lia.
  - destruct (Hcells i) as ([puts_i Hputs_i] & gets_i & Hgets_i & Hpos_i);
      [lia|].
    cbn [seq for_each]. rewrite Hgets_i.
    cbn [mbind option_bind].
    rewrite (get_to_put_loop pid i (reverse gets_i) s stack puts_i
               Hstack Hputs_i).
    cbn [mbind option_bind].
    destruct (gets_as_puts_extends (heap s) (reverse gets_i)
                (StackAllocator.bytes stack)) as [e1 He1].
    pose proof (gets_as_puts_length (heap s) (reverse gets_i)
                  (StackAllocator.bytes stack)) as Hlen_i.
    pose proof (fun k r => gets_as_puts_answers (heap s) (reverse gets_i)
                  (StackAllocator.bytes stack) k r
                  (proj2 (Forall_reverse _ _) Hpos_i)) as Hans_i.
    destruct (gets_as_puts (heap s) (StackAllocator.bytes stack)
                (reverse gets_i)) as [ps_i st1].
    cbn [fst snd] in *. subst st1.
    set (s1 := set_mGetRequests _ _).
    assert (Hlen_stack : (pid < length (mPutBufferStacks s))%nat)
      by (now apply lookup_lt_Some in Hstack).
    destruct (IH (S i) s1
                (StackAllocator.Build (StackAllocator.bytes stack ++ e1)))
      as (s' & extra2 & Hrun & Hheap & Hstacks & Hgot & Hgrest & Hprest
          & Hans).
    { unfold s1. cbn. now apply list_lookup_insert_eq. }
    { intros owner Ho.
      destruct (Hcells owner) as (Hp & gets & Hg & Hpos); [lia|].
      unfold s1. cbn. split.
      - now apply cell_set_cell_is_Some.
      - exists gets. split; [|exact Hpos].
        rewrite cell_set_cell_ne; [exact Hg|].
        intros Heq; inversion Heq; lia. }
    exists s', (e1 ++ extra2). split; [exact Hrun|].
    split; [rewrite Hheap; reflexivity|]. split.
    { rewrite Hstacks. unfold s1. cbn.
      now rewrite list_insert_insert_eq, <- app_assoc. }
    split.
    { intros owner Ho. destruct (decide (owner = i)) as [->|Hne].
      - rewrite Hgrest by lia. unfold s1. cbn.
        now apply (cell_set_cell_eq _ _ _ _ gets_i).
      - apply Hgot. lia. }
    split.
    { intros from to Hft. rewrite Hgrest by lia. unfold s1. cbn.
      apply cell_set_cell_ne. intros Heq. inversion Heq. subst.
      apply Hft. lia. }
    split.
    { intros from to Hft. rewrite Hprest by lia. unfold s1. cbn.
      apply cell_set_cell_ne. intros Heq. inversion Heq. subst.
      apply Hft. lia. }
    intros owner gets puts Ho Hg Hp.
    destruct (decide (owner = i)) as [->|Hne].
    + rewrite Hgets_i in Hg. injection Hg as <-.
      rewrite Hputs_i in Hp. injection Hp as <-.
      exists ps_i. split.
      { rewrite Hprest by lia. unfold s1. cbn.
        now apply (cell_set_cell_eq _ _ _ _ puts_i). }
      split; [now rewrite Hlen_i, length_reverse|].
      intros k r Hk. destruct (Hans_i k r Hk) as (p & Hpk & Hpa).
      exists p. split; [exact Hpk|].
      rewrite app_assoc. now apply answers_grows.
    + destruct (Hans owner gets puts) as (ps & Hcell & Hlen & Hall);
        [lia| | |].
      { unfold s1. cbn. rewrite cell_set_cell_ne; [exact Hg|].
        intros Heq; inversion Heq; lia. }
      { unfold s1. cbn. rewrite cell_set_cell_ne; [exact Hp|].
        intros Heq; inversion Heq; lia. }
      exists ps. split; [exact Hcell|]. split; [exact Hlen|].
      intros k r Hk. destruct (Hall k r Hk) as (p & Hpk & Hpa).
      exists p. split; [exact Hpk|].
      cbn [StackAllocator.bytes] in Hpa. rewrite app_assoc. exact Hpa.
Qed.

(** Get becomes Put.  [ProcessGetRequests(pid)] answers every Get queued
    towards [pid]: for each requester it appends to the Put queue from
    [pid] to that requester one Put per Get, the Gets taken from the last
    queued to the first, each Put carrying in the arena of [pid] the
    bytes found at the source of its Get when the helper runs.  It
    empties the Get queues, writes no memory, and moves nothing that was
    already in the arena. *)
Theorem ProcessGetRequests_answers_gets (pid : nat) (s : BSP)
  (stack : StackAllocator.t) :
  gets_ready pid s ->
  mPutBufferStacks s !! pid = Some stack ->
  exists (s' : BSP) (stack' : StackAllocator.t),
    ProcessGetRequests pid s = Some s'
    /\ heap s' = heap s
    /\ mPutBufferStacks s' = <[pid := stack']> (mPutBufferStacks s)
    /\ (forall loc n, in_arena stack loc n ->
          in_arena stack' loc n
          /\ arena_bytes stack' loc n = arena_bytes stack loc n)
    /\ (forall owner, (owner < mProcCount s)%nat ->
          GetQueueToMe (mGetRequests s') owner pid = Some [])
    /\ (forall owner gets puts,
          (owner < mProcCount s)%nat ->
          GetQueueToMe (mGetRequests s) owner pid = Some gets ->
          GetQueueFromMe (mPutRequests s) owner pid = Some puts ->
          exists ps,
            GetQueueFromMe (mPutRequests s') owner pid = Some (puts ++ ps)
            /\ length ps = length gets
            /\ forall k r, reverse gets !! k = Some r ->
                 exists p, ps !! k = Some p /\ answers (heap s) stack' p r).
Proof.
  intros (_ & Hcells) Hstack.
  destruct (get_owner_loop pid (mProcCount s) 0 s stack Hstack)
    as (s' & extra & Hrun & Hheap & Hstacks & Hgot & _ & _ & Hans).
  { intros owner Ho. apply Hcells. lia. }
  exists s', (StackAllocator.Build (StackAllocator.bytes stack ++ extra)).
  split; [exact Hrun|]. split; [exact Hheap|]. split; [exact Hstacks|].
  split; [intros loc n Hin; now apply arena_grows|].
  split; [intros owner Ho; apply Hgot; lia|].
  intros owner gets puts Ho Hg Hp. apply Hans; [lia | exact Hg | exact Hp].
Qed.

Lemma ProcessGetRequests_answers_gets_witness :
  gets_ready 0 after_get_queued
  /\ GetQueueToMe (mGetRequests after_get_queued) 1 0
     = Some [mkGetRequest 200 100 1]
  /\ exists s',
       ProcessGetRequests 0 after_get_queued = Some s'
       /\ heap s' = heap after_get_queued
       /\ GetQueueToMe (mGetRequests s') 1 0 = Some []
       /\ exists p stack',
            GetQueueFromMe (mPutRequests s') 1 0 = Some [p]
            /\ answers (heap after_get_queued) stack' p
                 (mkGetRequest 200 100 1).
Proof.
  assert (HP : mProcCount after_get_queued = 2%nat)
    by (vm_compute; reflexivity).
  assert (Hready : gets_ready 0 after_get_queued).
  { split; [eexists; vm_compute; reflexivity|].
    intros owner Ho. rewrite HP in Ho.
    destruct owner as [|[|owner]]; [| |lia].
    - split; [eexists; vm_compute; reflexivity|].
      exists []. split; [vm_compute; reflexivity | constructor].
    - split; [eexists; vm_compute; reflexivity|].
      exists [mkGetRequest 200 100 1].
      split; [vm_compute; reflexivity|].
      constructor; [cbn; lia | constructor]. }
  assert (Hgets : GetQueueToMe (mGetRequests after_get_queued) 1 0
                  = Some [mkGetRequest 200 100 1])
    by (vm_compute; reflexivity).
  assert (Hputs : GetQueueFromMe (mPutRequests after_get_queued) 1 0
                  = Some [])
    by (vm_compute; reflexivity).
  assert (Hstack : mPutBufferStacks after_get_queued !! 0%nat
                   = Some (StackAllocator.Build []))
    by (vm_compute; reflexivity).
  split; [exact Hready|]. split; [exact Hgets|].
  destruct (ProcessGetRequests_answers_gets 0 after_get_queued
              (StackAllocator.Build []) Hready Hstack)
    as (s' & stack' & Hrun & Hheap & _ & _ & Hgot & Hans).
  exists s'. split; [exact Hrun|]. split; [exact Hheap|].
  split; [apply Hgot; rewrite HP; lia|].
  destruct (Hans 1%nat _ _ ltac:(rewrite HP; lia) Hgets Hputs)
    as (ps & Hcell & Hlen & Hall).
  destruct (Hall 0%nat (mkGetRequest 200 100 1) eq_refl) as (p & Hp & Hpa).
  destruct ps as [|p' [|? ?]]; [discriminate | | discriminate].
  injection Hp as ->.
  exists p, stack'. split; [exact Hcell | exact Hpa].
Defined.

(** ** Delivery of Puts: what is written and what is not *)

Lemma heap_after_puts_nothing (pid : nat) (s : BSP) (owners : list nat)
  (m : memory) :
  (forall o, o ∈ owners -> puts_to pid s o = []) ->
  heap_after_puts pid s owners m = m.
Proof.
  unfold heap_after_puts.
  induction owners as [|o owners IH]; intros Hno; cbn [foldl]; [easy|].
  rewrite (Hno o) by (apply elem_of_cons; now left).
  apply IH. intros o' Ho'. apply Hno. apply elem_of_cons. now right.
Qed.

(** When one owner has queued one Put towards [pid] and the others
    none, delivery is that one write. *)
Lemma heap_after_puts_single (pid : nat) (s : BSP) (n owner : nat)
  (p : PutRequest) (m : memory) :
  (owner < n)%nat ->
  (forall o, (o < n)%nat -> o ≠ owner -> puts_to pid s o = []) ->
  puts_to pid s owner = [p] ->
  heap_after_puts pid s (seq 0 n) m = write_put (put_stack s owner) m p.
Proof.
  intros Ho Hothers Hp.
  replace n with (owner + S (n - owner - 1))%nat at 1 by lia.
  rewrite seq_app. change (0 + owner)%nat with owner. cbn [seq].
  rewrite heap_after_puts_split.
  rewrite (heap_after_puts_nothing pid s (seq 0 owner)).
  2:{ intros o Hin. apply elem_of_seq in Hin. apply Hothers; lia. }
  rewrite heap_after_puts_nothing.
  2:{ intros o Hin. apply elem_of_seq in Hin. apply Hothers; lia. }
  rewrite Hp. reflexivity.
Qed.

(** [ProcessPutRequests(pid)] writes the destination bytes of the Puts
    queued towards [pid] and nothing else: every other byte of memory is
    as before, and so are the arenas, the Put queues towards other
    processes and the Get queues. *)
Theorem ProcessPutRequests_writes_only_destinations (pid : nat) (s : BSP) :
  puts_in_arena pid s ->
  exists s' : BSP,
    ProcessPutRequests pid s = Some s'
    /\ (forall a,
          (forall owner r, (owner < mProcCount s)%nat ->
             r ∈ puts_to pid s owner -> ~ put_covers r a) ->
          heap s' a = heap s a)
    /\ mPutBufferStacks s' = mPutBufferStacks s
    /\ mGetRequests s' = mGetRequests s
    /\ (forall from to, to ≠ pid ->
          cell (mPutRequests s') from to = cell (mPutRequests s) from to).
Proof.
  intros Hwf.
  destruct (put_owner_loop pid (mProcCount s) 0 s)
    as (Q & Hrun & _ & Hrest).
  { intros owner Ho. apply Hwf. lia. }
  eexists. split; [exact Hrun|].
  cbn [heap mPutBufferStacks mGetRequests mPutRequests set_mPutRequests
       set_heap].
  split; [|split; [reflexivity|split; [reflexivity|]]].
  - intros a Hno. apply heap_after_puts_outside.
    intros o r Ho. apply elem_of_seq in Ho. apply Hno. lia.
  - intros from to Hto. apply Hrest. intros [Heq _]. now apply Hto.
Qed.

Lemma ProcessPutRequests_writes_only_destinations_witness :
  exists s',
    ProcessPutRequests 1 after_two_puts = Some s'
    /\ heap s' 100 = heap after_two_puts 100.
Proof.
  assert (HP : mProcCount after_two_puts = 2%nat)
    by (vm_compute; reflexivity).
  assert (Hq0 : puts_to 1 after_two_puts 0
                = [mkPutRequest 0 200 1; mkPutRequest 1 200 1])
    by (vm_compute; reflexivity).
  assert (Hq1 : puts_to 1 after_two_puts 1 = [])
    by (vm_compute; reflexivity).
  destruct (ProcessPutRequests_writes_only_destinations 1 after_two_puts)
    as (s' & Hrun & Hframe & _).
  - intros owner Ho. rewrite HP in Ho.
    destruct owner as [|[|owner]]; [| |lia].
    + exists [mkPutRequest 0 200 1; mkPutRequest 1 200 1],
             (StackAllocator.Build [xaa; xbb]).
      split; [vm_compute; reflexivity|].
      split; [vm_compute; reflexivity|].
      repeat constructor; vm_compute; congruence.
    + exists [], (StackAllocator.Build []).
      split; [vm_compute; reflexivity|].
      split; [vm_compute; reflexivity|]. constructor.
  - exists s'. split; [exact Hrun|]. apply Hframe.
    intros owner r Ho Hr. rewrite HP in Ho.
    destruct owner as [|[|owner]]; [| |lia].
    + rewrite Hq0 in Hr. unfold put_covers.
      apply elem_of_cons in Hr as [->|Hr];
        [|apply elem_of_cons in Hr as [->|Hr];
          [|now apply elem_of_nil in Hr]]; cbn; lia.
    + rewrite Hq1 in Hr. now apply elem_of_nil in Hr.
Defined.

(** Round trip of a Put.  Thread [tpid] puts [nbytes] bytes to the address
    process [pid] registered under the index of [dst], at a moment when
    no Put towards [pid] is queued; user code then leaves memory as [m].
    [ProcessPutRequests(pid)] changes [m] at the [nbytes] bytes from
    [target + offset] only, and they become the source bytes as they were
    at the call of [Put]. *)
Theorem Put_round_trip (tpid pid : nat) (src dst offset nbytes : Z)
  (s : BSP) (regs tregs : gmap Z RegisterInfo) (info tinfo : RegisterInfo)
  (locs : list Z) (target : Z) (m : memory) :
  (tpid < mProcCount s)%nat ->
  (pid < mProcCount s)%nat ->
  mRegisters s !! tpid = Some regs ->
  regs !! dst = Some info ->
  mThreadRegisterLocation s !! pid = Some locs ->
  0 <= registerCount info ->
  locs !! Z.to_nat (registerCount info) = Some target ->
  mRegisters s !! pid = Some tregs ->
  tregs !! target = Some tinfo ->
  0 <= nbytes <= reg_size tinfo ->
  (forall owner, (owner < mProcCount s)%nat ->
     GetQueueToMe (mPutRequests s) owner pid = Some []
     /\ is_Some (mPutBufferStacks s !! owner)) ->
  exists s1 s2 : BSP,
    Put tpid pid src dst offset nbytes s = Some s1
    /\ ProcessPutRequests pid (set_heap m s1) = Some s2
    /\ heap s2
       = memcpy_to m (target + offset)
           (read_bytes (heap s) src (Z.to_nat nbytes))
    /\ read_bytes (heap s2) (target + offset) (Z.to_nat nbytes)
       = read_bytes (heap s) src (Z.to_nat nbytes)
    /\ forall a, a < target + offset \/ target + offset + nbytes <= a ->
         heap s2 a = m a.
Proof.
  intros Ht Hp Hregs Hdst Hlocs Hpos Htarget Htregs Htinfo Hsize Hfresh.
  destruct (Hfresh tpid Ht) as [Hqueue [stack Hstack]].
  set (copied := read_bytes (heap s) src (Z.to_nat nbytes)).
  assert (Hlen : Z.of_nat (length copied) = nbytes)
    by (unfold copied; rewrite read_bytes_length; lia).
  set (stack' := StackAllocator.Build (StackAllocator.bytes stack ++ copied)).
  set (request :=
         mkPutRequest (StackAllocator.Size stack) (target + offset) nbytes).
  pose proof (Put_result tpid pid src dst offset nbytes s regs tregs info
                tinfo locs target stack [] Ht Hp Hregs Hdst Hlocs Hpos
                Htarget Htregs Htinfo (proj2 Hsize) Hstack Hqueue) as Hput.
  cbn [app] in Hput. fold copied stack' request in Hput.
  set (s1 := set_mPutRequests _ _) in Hput.
  assert (Hlt : (tpid < length (mPutBufferStacks s))%nat)
    by (now apply lookup_lt_Some in Hstack).
  assert (Hq_t : puts_to pid (set_heap m s1) tpid = [request]).
  { unfold puts_to, GetQueueToMe, s1. cbn.
    now rewrite (cell_set_cell_eq _ _ _ _ [] Hqueue). }
  assert (Hq_o : forall o, (o < mProcCount s)%nat -> o ≠ tpid ->
                           GetQueueToMe (mPutRequests (set_heap m s1)) o pid
                           = Some []).
  { intros o Ho Hne. unfold GetQueueToMe, s1. cbn.
    rewrite cell_set_cell_ne; [now apply Hfresh|].
    intros Heq. inversion Heq. now apply Hne. }
  assert (Hst_t : mPutBufferStacks (set_heap m s1) !! tpid = Some stack').
  { unfold s1. cbn. now apply list_lookup_insert_eq. }
  assert (Hfresh_arena := arena_fresh stack copied).
  fold stack' in Hfresh_arena. rewrite Hlen in Hfresh_arena.
  destruct Hfresh_arena as [Hin Hbytes].
  destruct (put_owner_loop pid (mProcCount s) 0 (set_heap m s1))
    as (Q & Hrun & _ & _).
  { intros owner Ho. destruct (decide (owner = tpid)) as [->|Hne].
    - exists [request], stack'. split.
      + unfold GetQueueToMe, s1. cbn.
        now rewrite (cell_set_cell_eq _ _ _ _ [] Hqueue).
      + split; [exact Hst_t|]. constructor; [exact Hin | constructor].
    - destruct (Hfresh owner) as [_ [st Hst]]; [lia|].
      exists [], st. split; [apply Hq_o; [lia | exact Hne]|]. split.
      + unfold s1. cbn. now rewrite list_lookup_insert_ne.
      + constructor. }
  assert (Hheap : heap_after_puts pid (set_heap m s1)
                    (seq 0 (mProcCount s)) m
                  = memcpy_to m (target + offset) copied).
  { rewrite (heap_after_puts_single pid _ _ tpid request);
      [| exact Ht | | exact Hq_t].
    2:{ intros o Ho Hne. unfold puts_to. now rewrite Hq_o. }
    unfold put_stack. rewrite Hst_t.
    change (default StackAllocator.empty (Some stack')) with stack'.
    unfold write_put, request.
    cbn [put_destination put_bufferLocation put_size].
    now rewrite Hbytes. }
  exists s1, (set_mPutRequests Q
                (set_heap (heap_after_puts pid (set_heap m s1)
                             (seq 0 (mProcCount s)) m) (set_heap m s1))).
  split; [exact Hput|]. split; [exact Hrun|].
  cbn [heap set_mPutRequests set_heap]. rewrite Hheap.
  split; [reflexivity|]. split.
  - replace (Z.to_nat nbytes) with (length copied) by lia.
    apply read_bytes_memcpy_to.
  - intros a Ha. apply memcpy_to_outside. lia.
Qed.

Lemma Put_round_trip_witness :
  exists s1 s2,
    Put 0 1 10 100 0 1 after_registered = Some s1
    /\ ProcessPutRequests 1
         (set_heap (store (heap after_registered) 10 x00) s1) = Some s2
    /\ heap s2 200 = xaa.
Proof.
  assert (HP : mProcCount after_registered = 2%nat)
    by (vm_compute; reflexivity).
  destruct (Put_round_trip 0 1 10 100 0 1 after_registered
              {[100 := mkRegisterInfo 1 0]} {[200 := mkRegisterInfo 1 0]}
              (mkRegisterInfo 1 0) (mkRegisterInfo 1 0) [200] 200
              (store (heap after_registered) 10 x00))
    as (s1 & s2 & Hput & Hrun & Hheap & _).
  1-10: first [vm_compute; reflexivity | cbn; lia | vm_compute; lia].
  - intros owner Ho. rewrite HP in Ho.
    destruct owner as [|[|owner]]; [| |lia].
    all: split; [vm_compute; reflexivity | eexists; vm_compute; reflexivity].
  - exists s1, s2. split; [exact Hput|]. split; [exact Hrun|].
    rewrite Hheap. vm_compute. reflexivity.
Defined.

(** ** Round trip of a Get *)

(** What [Get] returns when the address is registered and the Get fits. *)
Lemma Get_result (tpid pid : nat) (src offset dst nbytes : Z) (s : BSP)
  (regs tregs : gmap Z RegisterInfo) (info tinfo : RegisterInfo)
  (locs : list Z) (source : Z) (queue : list GetRequest) :
  (pid < mProcCount s)%nat ->
  (tpid < mProcCount s)%nat ->
  mRegisters s !! tpid = Some regs ->
  regs !! src = Some info ->
  mThreadRegisterLocation s !! pid = Some locs ->
  0 <= registerCount info ->
  locs !! Z.to_nat (registerCount info) = Some source ->
  mRegisters s !! pid = Some tregs ->
  tregs !! source = Some tinfo ->
  nbytes <= reg_size tinfo ->
  GetQueueFromMe (mGetRequests s) pid tpid = Some queue ->
  Get tpid pid src offset dst nbytes s
  = Some (set_mGetRequests
            (set_cell (mGetRequests s) tpid pid
               (queue ++ [mkGetRequest dst (source + offset) nbytes])) s).
Proof.
  intros Hp Ht Hregs Hsrc Hlocs Hpos Hsource Htregs Htinfo Hsize Hqueue.
  unfold Get, assert.
  destruct (decide (pid < mProcCount s)%nat); [|easy].
  destruct (decide (tpid < mProcCount s)%nat); [|easy].
  cbn [mbind option_bind].
  rewrite (register_at_present _ _ _ _ _ Hregs Hsrc).
  cbn [mbind option_bind]. rewrite Hlocs. cbn [mbind option_bind].
  destruct (decide (0 <= registerCount info)); [|lia].
  rewrite Hsource. cbn [mbind option_bind].
  rewrite (register_at_present _ _ _ _ _ Htregs Htinfo).
  cbn [mbind option_bind].
  destruct (decide (nbytes <= reg_size tinfo)); [|lia].
  cbn [mbind option_bind]. rewrite Hqueue. reflexivity.
Qed.

(** Round trip of a Get.  Thread [tpid] asks for [nbytes] bytes from the
    address process [pid] registered under the index of [src], at a
    moment when no Get towards [pid] and no Put is queued.  With memory
    [m] when [ProcessGetRequests(pid)] runs and [m'] when
    [ProcessPutRequests(tpid)] runs, the [nbytes] bytes at [dst] become
    the bytes [m] holds at [source + offset]: the source is read when the
    owner processes the Get, not at the call of [Get], and the
    destination is written when the requester processes its Puts.  No
    other byte of [m'] changes. *)
Theorem Get_round_trip (tpid pid : nat) (src offset dst nbytes : Z)
  (s : BSP) (regs tregs : gmap Z RegisterInfo) (info tinfo : RegisterInfo)
  (locs : list Z) (source : Z) (m m' : memory) :
  (pid < mProcCount s)%nat ->
  (tpid < mProcCount s)%nat ->
  mRegisters s !! tpid = Some regs ->
  regs !! src = Some info ->
  mThreadRegisterLocation s !! pid = Some locs ->
  0 <= registerCount info ->
  locs !! Z.to_nat (registerCount info) = Some source ->
  mRegisters s !! pid = Some tregs ->
  tregs !! source = Some tinfo ->
  0 <= nbytes <= reg_size tinfo ->
  (forall owner, (owner < mProcCount s)%nat ->
     GetQueueToMe (mGetRequests s) owner pid = Some []
     /\ is_Some (mPutBufferStacks s !! owner)) ->
  (forall from to, (from < mProcCount s)%nat -> (to < mProcCount s)%nat ->
     cell (mPutRequests s) from to = Some []) ->
  exists s1 s2 s3 : BSP,
    Get tpid pid src offset dst nbytes s = Some s1
    /\ ProcessGetRequests pid (set_heap m s1) = Some s2
    /\ heap s2 = m
    /\ ProcessPutRequests tpid (set_heap m' s2) = Some s3
    /\ heap s3
       = memcpy_to m' dst
           (read_bytes m (source + offset) (Z.to_nat nbytes))
    /\ read_bytes (heap s3) dst (Z.to_nat nbytes)
       = read_bytes m (source + offset) (Z.to_nat nbytes)
    /\ forall a, a < dst \/ dst + nbytes <= a -> heap s3 a = m' a.
Proof.
  intros Hp Ht Hregs Hsrc Hlocs Hpos Hsource Htregs Htinfo Hsize Hfresh
         Hnoputs.
  destruct (Hfresh tpid Ht) as [Hqueue _].
  destruct (Hfresh pid Hp) as [_ [stack Hstack]].
  set (r := mkGetRequest dst (source + offset) nbytes).
  pose proof (Get_result tpid pid src offset dst nbytes s regs tregs info
                tinfo locs source [] Hp Ht Hregs Hsrc Hlocs Hpos Hsource
                Htregs Htinfo (proj2 Hsize) Hqueue) as Hget.
  cbn [app] in Hget. fold r in Hget.
  set (s1 := set_mGetRequests _ _) in Hget.
  (* the owner turns the Get into a Put *)
  destruct (get_owner_loop pid (mProcCount s) 0 (set_heap m s1) stack)
    as (s2 & extra & Hrun2 & Hheap2 & Hstacks2 & _ & _ & Hprest & Hans).
  { exact Hstack. }
  { intros owner Ho. split.
    - unfold s1. cbn. rewrite Hnoputs by lia. eauto.
    - destruct (decide (owner = tpid)) as [->|Hne].
      + exists [r]. split.
        * unfold s1. cbn. now apply (cell_set_cell_eq _ _ _ _ [] Hqueue).
        * constructor; [cbn; lia | constructor].
      + exists []. split; [|constructor].
        unfold s1. cbn. rewrite cell_set_cell_ne; [apply Hfresh; lia|].
        intros Heq. inversion Heq. now apply Hne. }
  cbn [heap set_heap] in Hheap2.
  set (stack2 := StackAllocator.Build (StackAllocator.bytes stack ++ extra))
    in *.
  assert (Hrun2' : ProcessGetRequests pid (set_heap m s1) = Some s2)
    by exact Hrun2.
  assert (HP2 : mProcCount s2 = mProcCount s).
  { pose proof (ProcessGetRequests_control _ _ _ Hrun2') as Hc.
    unfold control_fields in Hc.
    assert (mProcCount s2 = mProcCount (set_heap m s1)) by congruence.
    easy. }
  destruct (Hans tpid [r] []) as (ps & Hcell2 & Hlen2 & Hall2).
  { lia. }
  { unfold s1. cbn. now apply (cell_set_cell_eq _ _ _ _ [] Hqueue). }
  { unfold s1. cbn. now apply Hnoputs. }
  destruct (Hall2 0%nat r eq_refl) as (p & Hp0 & Hpd & Hps & Hpin & Hpb).
  destruct ps as [|p' [|? ?]]; [discriminate | | discriminate].
  injection Hp0 as ->. cbn [app] in Hcell2.
  cbn [heap set_heap get_destination get_size get_source r] in Hpd, Hps, Hpb.
  fold stack2 in Hpin, Hpb.
  (* the requester applies it *)
  assert (Hlt : (pid < length (mPutBufferStacks s))%nat)
    by (now apply lookup_lt_Some in Hstack).
  assert (Hst2 : mPutBufferStacks (set_heap m' s2) !! pid = Some stack2).
  { cbn. rewrite Hstacks2. unfold s1. cbn. now apply list_lookup_insert_eq. }
  assert (Hq_p : puts_to tpid (set_heap m' s2) pid = [p]).
  { unfold puts_to, GetQueueToMe. cbn. now rewrite Hcell2. }
  assert (Hq_o : forall o, (o < mProcCount s)%nat -> o ≠ pid ->
                   GetQueueToMe (mPutRequests (set_heap m' s2)) o tpid
                   = Some []).
  { intros o Ho Hne. unfold GetQueueToMe. cbn.
    rewrite Hprest by (intros [Heq _]; now apply Hne).
    unfold s1. cbn. now apply Hnoputs. }
  destruct (put_owner_loop tpid (mProcCount s) 0 (set_heap m' s2))
    as (Q & Hrun3 & _ & _).
  { intros owner Ho. destruct (decide (owner = pid)) as [->|Hne].
    - exists [p], stack2. split.
      + unfold GetQueueToMe. cbn. exact Hcell2.
      + split; [exact Hst2|]. constructor; [exact Hpin | constructor].
    - destruct (Hfresh owner) as [_ [st Hst]]; [lia|].
      exists [], st. split; [apply Hq_o; [lia | exact Hne]|]. split.
      + cbn. rewrite Hstacks2. unfold s1. cbn.
        now rewrite list_lookup_insert_ne.
      + constructor. }
  assert (Hheap : heap_after_puts tpid (set_heap m' s2)
                    (seq 0 (mProcCount s)) m'
                  = memcpy_to m' dst
                      (read_bytes m (source + offset) (Z.to_nat nbytes))).
  { rewrite (heap_after_puts_single tpid _ _ pid p);
      [| exact Hp | | exact Hq_p].
    2:{ intros o Ho Hne. unfold puts_to. now rewrite Hq_o. }
    unfold put_stack. rewrite Hst2.
    change (default StackAllocator.empty (Some stack2)) with stack2.
    unfold write_put. now rewrite Hpb, Hpd. }
  exists s1, s2,
    (set_mPutRequests Q
       (set_heap (heap_after_puts tpid (set_heap m' s2)
                    (seq 0 (mProcCount s)) m') (set_heap m' s2))).
  split; [exact Hget|]. split; [exact Hrun2|]. split; [exact Hheap2|].
  split.
  { unfold ProcessPutRequests.
    change (mProcCount (set_heap m' s2)) with (mProcCount s2).
    rewrite HP2. exact Hrun3. }
  cbn [heap set_mPutRequests set_heap]. rewrite Hheap.
  split; [reflexivity|]. split.
  - set (bs := read_bytes m (source + offset) (Z.to_nat nbytes)).
    replace (Z.to_nat nbytes) with (length bs)
      by (unfold bs; apply read_bytes_length).
    apply read_bytes_memcpy_to.
  - intros a Ha. apply memcpy_to_outside. rewrite read_bytes_length. lia.
Qed.

Lemma Get_round_trip_witness :
  exists s1 s2 s3,
    Get 1 0 200 0 200 1 after_registered = Some s1
    /\ ProcessGetRequests 0
         (set_heap (store (heap after_registered) 100 xaa) s1) = Some s2
    /\ ProcessPutRequests 1 s2 = Some s3
    /\ heap s3 200 = xaa.
Proof.
  assert (HP : mProcCount after_registered = 2%nat)
    by (vm_compute; reflexivity).
  destruct (Get_round_trip 1 0 200 0 200 1 after_registered
              {[200 := mkRegisterInfo 1 0]} {[100 := mkRegisterInfo 1 0]}
              (mkRegisterInfo 1 0) (mkRegisterInfo 1 0) [100] 100
              (store (heap after_registered) 100 xaa)
              (store (heap after_registered) 100 xaa))
    as (s1 & s2 & s3 & Hget & Hrun2 & Hheap2 & Hrun3 & Hheap3 & _).
  1-10: first [vm_compute; reflexivity | cbn; lia | vm_compute; lia].
  - intros owner Ho. rewrite HP in Ho.
    destruct owner as [|[|owner]]; [| |lia].
    all: split; [vm_compute; reflexivity | eexists; vm_compute; reflexivity].
  - intros from to Hf Hto. rewrite HP in Hf, Hto.
    destruct from as [|[|from]]; [| |lia].
    all: destruct to as [|[|to]]; [| |lia]; vm_compute; reflexivity.
  - exists s1, s2, s3. split; [exact Hget|]. split; [exact Hrun2|].
    split.
    + rewrite <- Hheap2 in Hrun3. rewrite set_heap_same in Hrun3.
      exact Hrun3.
    + rewrite Hheap3. vm_compute. reflexivity.
Defined.
